(** * PlatformAdmin controller: a shallow embedding of
      pkg/controller/platformadmin/platformadmin_controller.go

    The controller reconciles one parent object (a PlatformAdmin) against a
    cluster API server.  The embedding has three layers:

    - the data the code manipulates (object metadata, owner references,
      pools, components, the version-keyed catalog);
    - the pure pieces of the Go code (catalog selection, the annotation
      merge, the pool join, the two swap-with-last removals);
    - the effectful code, written in a small state/error monad over a model
      of the API server that records every call and can inject a failure
      at any call. *)

From Stdlib Require Import ZArith Lia.
From stdpp Require Import base option list gmap strings fin_maps sorting.

Local Open Scope string_scope.
Local Open Scope list_scope.
Local Open Scope Z_scope.

(** ** Object metadata *)

(** metav1.OwnerReference.  The Go field [APIVersion] is the text
    "group/version"; it is kept split because controller-runtime compares
    owner references by group, kind and name. *)
Record OwnerReference := {
  or_Group : string;
  or_Version : string;
  or_Kind : string;
  or_Name : string;
  or_UID : string;
  or_Controller : option bool;
  or_BlockOwnerDeletion : option bool }.

#[global] Instance OwnerReference_eq_dec : EqDecision OwnerReference.
Proof. solve_decision. Defined.

(** The part of metav1.ObjectMeta the controller reads or writes. *)
Record ObjectMeta := {
  om_Name : string;
  om_Namespace : string;
  om_UID : string;
  om_Labels : gmap string string;
  om_Annotations : gmap string string;
  om_OwnerReferences : list OwnerReference;
  om_Finalizers : list string;
  om_DeletionTimestamp : option Z }.

#[global] Instance ObjectMeta_eq_dec : EqDecision ObjectMeta.
Proof. solve_decision. Defined.

Definition emptyMeta (namespace name : string) : ObjectMeta :=
  {| om_Name := name; om_Namespace := namespace; om_UID := "";
     om_Labels := ∅; om_Annotations := ∅; om_OwnerReferences := [];
     om_Finalizers := []; om_DeletionTimestamp := None |}.

Definition withLabels (l : gmap string string) (m : ObjectMeta) : ObjectMeta :=
  {| om_Name := om_Name m; om_Namespace := om_Namespace m; om_UID := om_UID m;
     om_Labels := l; om_Annotations := om_Annotations m;
     om_OwnerReferences := om_OwnerReferences m;
     om_Finalizers := om_Finalizers m;
     om_DeletionTimestamp := om_DeletionTimestamp m |}.

Definition withAnnotations (a : gmap string string) (m : ObjectMeta) : ObjectMeta :=
  {| om_Name := om_Name m; om_Namespace := om_Namespace m; om_UID := om_UID m;
     om_Labels := om_Labels m; om_Annotations := a;
     om_OwnerReferences := om_OwnerReferences m;
     om_Finalizers := om_Finalizers m;
     om_DeletionTimestamp := om_DeletionTimestamp m |}.

Definition withNamespace (ns : string) (m : ObjectMeta) : ObjectMeta :=
  {| om_Name := om_Name m; om_Namespace := ns; om_UID := om_UID m;
     om_Labels := om_Labels m; om_Annotations := om_Annotations m;
     om_OwnerReferences := om_OwnerReferences m;
     om_Finalizers := om_Finalizers m;
     om_DeletionTimestamp := om_DeletionTimestamp m |}.

Definition withOwnerReferences (o : list OwnerReference) (m : ObjectMeta) : ObjectMeta :=
  {| om_Name := om_Name m; om_Namespace := om_Namespace m; om_UID := om_UID m;
     om_Labels := om_Labels m; om_Annotations := om_Annotations m;
     om_OwnerReferences := o;
     om_Finalizers := om_Finalizers m;
     om_DeletionTimestamp := om_DeletionTimestamp m |}.

Definition withFinalizers (f : list string) (m : ObjectMeta) : ObjectMeta :=
  {| om_Name := om_Name m; om_Namespace := om_Namespace m; om_UID := om_UID m;
     om_Labels := om_Labels m; om_Annotations := om_Annotations m;
     om_OwnerReferences := om_OwnerReferences m;
     om_Finalizers := f;
     om_DeletionTimestamp := om_DeletionTimestamp m |}.

(** ** Payloads the controller only copies *)

(** corev1.ServiceSpec and appsv1.DeploymentSpec are never inspected by the
    controller; they are carried as their serialized text. *)
Record ServiceSpec := { ss_raw : string }.
Record DeploymentSpec := { ds_raw : string }.

#[global] Instance ServiceSpec_eq_dec : EqDecision ServiceSpec.
Proof. solve_decision. Defined.
#[global] Instance DeploymentSpec_eq_dec : EqDecision DeploymentSpec.
Proof. solve_decision. Defined.

(** iotv1alpha1.ServiceTemplateSpec / DeploymentTemplateSpec: the entries
    of the two JSON arrays kept in the parent's annotations. *)
Record ServiceTemplateSpec := { st_Name : string; st_Spec : ServiceSpec }.
Record DeploymentTemplateSpec := { dt_Name : string; dt_Spec : DeploymentSpec }.

(** ** Child objects *)

Record ConfigMap := {
  cm_meta : ObjectMeta;
  cm_Data : gmap string string }.

Record Service := {
  svc_meta : ObjectMeta;
  svc_Spec : ServiceSpec }.

Record NodeSelectorRequirement := {
  nsr_Key : string;
  nsr_Operator : string;
  nsr_Values : list string }.

(** appsv1alpha1.Pool *)
Record Pool := {
  pool_Name : string;
  pool_Replicas : option Z;
  pool_MatchExpressions : list NodeSelectorRequirement }.

Record YurtAppSetStatus := {
  yst_PoolReplicas : gmap string Z;
  yst_ReadyReplicas : Z;
  yst_Replicas : Z }.

(** appsv1alpha1.YurtAppSet: selector, deployment template and topology. *)
Record YurtAppSet := {
  yas_meta : ObjectMeta;
  yas_Selector : gmap string string;
  yas_TemplateLabels : gmap string string;
  yas_TemplateSpec : option DeploymentSpec;
  yas_Pools : list Pool;
  yas_Status : YurtAppSetStatus }.

#[global] Instance ConfigMap_eq_dec : EqDecision ConfigMap.
Proof. solve_decision. Defined.
#[global] Instance Service_eq_dec : EqDecision Service.
Proof. solve_decision. Defined.
#[global] Instance NodeSelectorRequirement_eq_dec : EqDecision NodeSelectorRequirement.
Proof. solve_decision. Defined.
#[global] Instance Pool_eq_dec : EqDecision Pool.
Proof. solve_decision. Defined.
#[global] Instance YurtAppSetStatus_eq_dec : EqDecision YurtAppSetStatus.
Proof. solve_decision. Defined.
#[global] Instance YurtAppSet_eq_dec : EqDecision YurtAppSet.
Proof. solve_decision. Defined.

(** ** The parent object *)

Record PlatformAdminSpec := {
  spec_Version : string;
  spec_Security : bool;
  spec_PoolName : string }.

Record PlatformAdminCondition := {
  cond_Type : string;
  cond_Status : string;
  cond_Reason : string;
  cond_Message : string }.

Record PlatformAdminStatus := {
  st_Ready : bool;
  st_Initialized : bool;
  st_ReadyComponentNum : Z;
  st_UnreadyComponentNum : Z;
  st_Conditions : list PlatformAdminCondition }.

Record PlatformAdmin := {
  pa_meta : ObjectMeta;
  pa_Spec : PlatformAdminSpec;
  pa_Status : PlatformAdminStatus }.

#[global] Instance PlatformAdminSpec_eq_dec : EqDecision PlatformAdminSpec.
Proof. solve_decision. Defined.
#[global] Instance PlatformAdminCondition_eq_dec : EqDecision PlatformAdminCondition.
Proof. solve_decision. Defined.
#[global] Instance PlatformAdminStatus_eq_dec : EqDecision PlatformAdminStatus.
Proof. solve_decision. Defined.
#[global] Instance PlatformAdmin_eq_dec : EqDecision PlatformAdmin.
Proof. solve_decision. Defined.

(** ** Components and the catalog *)

(** Modelled from the spec: config.Component, declared in
    pkg/controller/platformadmin/config.  "Component: name, optional
    network-exposure definition, optional scaled-workload definition";
    the Go fields are pointers, [None] is the nil pointer. *)
Record Component := {
  comp_Name : string;
  comp_Service : option ServiceSpec;
  comp_Deployment : option DeploymentSpec }.

#[global] Instance Component_eq_dec : EqDecision Component.
Proof. solve_decision. Defined.

(** Modelled from the spec: config.PlatformAdminControllerConfiguration,
    "two disjoint catalogs, one for security-enabled and one for
    security-disabled deployments, each keyed by version string", for
    components and for config maps. *)
Record PlatformAdminControllerConfiguration := {
  SecurityComponents : gmap string (list Component);
  NoSectyComponents : gmap string (list Component);
  SecurityConfigMaps : gmap string (list ConfigMap);
  NoSectyConfigMaps : gmap string (list ConfigMap) }.

(** Constants of the source file. *)
Definition ControllerName := "PlatformAdmin".
Definition LabelConfigmap := "Configmap".
Definition LabelService := "Service".
Definition LabelDeployment := "Deployment".
Definition AnnotationServiceTopologyKey := "openyurt.io/topologyKeys".
Definition AnnotationServiceTopologyValueNodePool := "openyurt.io/nodepool".

(** Modelled from the spec: constants of pkg/apis (label key marking an
    object as generated by this controller, the finalizer, the node-pool
    label, the parent's group/version/kind, condition types and reasons). *)
Definition LabelPlatformAdminGenerate := "iot.openyurt.io/generate".
Definition PlatformAdminFinalizer := "iot.openyurt.io".
Definition LabelCurrentNodePool := "apps.openyurt.io/nodepool".
Definition PlatformAdminGroup := "iot.openyurt.io".
Definition PlatformAdminVersion := "v1alpha2".
Definition PlatformAdminKind := "PlatformAdmin".
Definition ConfigmapAvailableCondition := "ConfigmapAvailable".
Definition ComponentAvailableCondition := "ComponentAvailable".
Definition ConfigmapProvisioningReason := "ConfigmapProvisioning".
Definition ConfigmapProvisioningFailedReason := "ConfigmapProvisioningFailed".
Definition ComponentProvisioningReason := "ComponentProvisioning".
Definition ConditionTrue := "True".
Definition ConditionFalse := "False".

(** A Go map indexed at a missing key yields the zero value: the nil slice. *)
Definition index {A} (m : gmap string (list A)) (k : string) : list A :=
  default [] (m !! k).

(** int32 conversion (two's complement wrap-around). *)
Definition int32 (z : Z) : Z := (z + 2^31) mod 2^32 - 2^31.

(** ** Errors *)

(** Go [error] values the controller can see.  [ErrInjected] is any failure of
    an API call other than not-found / already-exists (conflict, timeout,
    ...); [ErrWrapf] is errors.Wrapf; [ErrAggregate] is
    kerrors.NewAggregate([]error{reterr, err}) with both entries non-nil
    (with reterr nil the aggregate holds err alone: [ErrAggregate1]). *)
Inductive error :=
| ErrNotFound
| ErrAlreadyExists
| ErrAlreadyOwned
| ErrCrossNamespace
| ErrInjected (msg : string)
| ErrDecode (msg : string)
| ErrWrapf (context : string) (cause : error)
| ErrAggregate1 (err : error)
| ErrAggregate (reterr err : error).

(** apierrors.IsNotFound *)
Definition IsNotFound (e : error) : bool :=
  match e with ErrNotFound => true | _ => false end.

(** err.Error() *)
Fixpoint errorText (e : error) : string :=
  match e with
  | ErrNotFound => "not found"
  | ErrAlreadyExists => "already exists"
  | ErrAlreadyOwned => "object is already owned by another controller"
  | ErrCrossNamespace => "cross-namespace owner references are disallowed"
  | ErrInjected msg => msg
  | ErrDecode msg => msg
  | ErrWrapf ctx cause => ctx +:+ ": " +:+ errorText cause
  | ErrAggregate1 err => errorText err
  | ErrAggregate reterr err =>
      "[" +:+ errorText reterr +:+ ", " +:+ errorText err +:+ "]"
  end.

(** ** Desired-state resolution *)

(** Lines 343-347 (and 216-220): the catalog list selected by the parent's
    security flag and version. *)
Definition selectComponents (cfg : PlatformAdminControllerConfiguration)
    (platformAdmin : PlatformAdmin) : list Component :=
  if spec_Security (pa_Spec platformAdmin)
  then index (SecurityComponents cfg) (spec_Version (pa_Spec platformAdmin))
  else index (NoSectyComponents cfg) (spec_Version (pa_Spec platformAdmin)).

(** Lines 305-309. *)
Definition selectConfigMaps (cfg : PlatformAdminControllerConfiguration)
    (platformAdmin : PlatformAdmin) : list ConfigMap :=
  if spec_Security (pa_Spec platformAdmin)
  then index (SecurityConfigMaps cfg) (spec_Version (pa_Spec platformAdmin))
  else index (NoSectyConfigMaps cfg) (spec_Version (pa_Spec platformAdmin)).

(** *** annotationToComponent and its two range variables

    The Go code takes the address of a field of the range variable:

      for _, additionalservice := range additionalServices {
          services[additionalservice.Name] = &additionalservice.Spec }
      for _, additionalDeployment := range additionalDeployments {
          ... component.Deployment = &additionalDeployment.Spec ... }

    In the Go of this code base (before Go 1.22; the repository's own tests
    index the slice, [&nodes[i]], where they need a pointer per element) a
    [for range] statement has ONE variable, assigned anew at every
    iteration.  Every pointer stored by the first loop is therefore the
    same address, and so is every pointer stored by the second.  The model
    keeps that store: two cells, one per range variable, and pointers that
    name the cell.  The components handed to the caller are read through
    the pointers after both loops have finished. *)

Inductive servicePtr := AddrAdditionalserviceSpec.
Inductive deploymentPtr := AddrAdditionalDeploymentSpec.

(** The two range variables (zero-valued before the first iteration). *)
Record RangeVars := {
  additionalservice : ServiceTemplateSpec;
  additionalDeployment : DeploymentTemplateSpec }.

Definition zeroRangeVars : RangeVars :=
  {| additionalservice := {| st_Name := ""; st_Spec := {| ss_raw := "" |} |};
     additionalDeployment := {| dt_Name := ""; dt_Spec := {| ds_raw := "" |} |} |}.

(** A config.Component whose pointer fields are still addresses. *)
Record ComponentRef := {
  cr_Name : string;
  cr_Service : option servicePtr;
  cr_Deployment : option deploymentPtr }.

Definition derefService (h : RangeVars) (p : servicePtr) : ServiceSpec :=
  match p with AddrAdditionalserviceSpec => st_Spec (additionalservice h) end.

Definition derefDeployment (h : RangeVars) (p : deploymentPtr) : DeploymentSpec :=
  match p with AddrAdditionalDeploymentSpec => dt_Spec (additionalDeployment h) end.

(** What the caller reads through a component's pointers. *)
Definition loadComponent (h : RangeVars) (c : ComponentRef) : Component :=
  {| comp_Name := cr_Name c;
     comp_Service := derefService h <$> cr_Service c;
     comp_Deployment := derefDeployment h <$> cr_Deployment c |}.

(** Lines 574-576: one iteration assigns the range variable and stores the
    address of its Spec field under the template's name. *)
Definition servicesLoop (additionalServices : list ServiceTemplateSpec)
    (h : RangeVars) : gmap string servicePtr * RangeVars :=
  fold_left
    (fun (acc : gmap string servicePtr * RangeVars) s =>
       let '(services, h) := acc in
       let h' := {| additionalservice := s;
                    additionalDeployment := additionalDeployment h |} in
       (<[st_Name (additionalservice h') := AddrAdditionalserviceSpec]> services, h'))
    additionalServices (∅, h).

(** Lines 577-587. *)
Definition deploymentsLoop (services : gmap string servicePtr)
    (additionalDeployments : list DeploymentTemplateSpec) (h : RangeVars)
  : list ComponentRef * gset string * RangeVars :=
  fold_left
    (fun (acc : list ComponentRef * gset string * RangeVars) d =>
       let '(components, usedServices, h) := acc in
       let h' := {| additionalservice := additionalservice h;
                    additionalDeployment := d |} in
       let name := dt_Name (additionalDeployment h') in
       match services !! name with
       | Some service =>
           (components ++ [{| cr_Name := name; cr_Service := Some service;
                              cr_Deployment := Some AddrAdditionalDeploymentSpec |}],
            {[ name ]} ∪ usedServices, h')
       | None =>
           (components ++ [{| cr_Name := name; cr_Service := None;
                              cr_Deployment := Some AddrAdditionalDeploymentSpec |}],
            usedServices, h')
       end)
    additionalDeployments ([], ∅, h).

(** Lines 588-599.  Go ranges over a map in an unspecified order; the model
    uses the order of [map_to_list], and no statement below depends on it. *)
Definition unusedServices (services : gmap string servicePtr)
    (usedServices : gset string) : list ComponentRef :=
  if decide (size usedServices < size services)%nat
  then omap (fun (entry : string * servicePtr) =>
               let '(name, service) := entry in
               if decide (name ∈ usedServices) then None
               else Some {| cr_Name := name; cr_Service := Some service;
                            cr_Deployment := None |})
            (map_to_list services)
  else [].

Section Resolver.

(** json.Unmarshal at the two element types: the decoded array, or the
    decoding error. *)
Context (unmarshalDeployments : string -> error + list DeploymentTemplateSpec).
Context (unmarshalServices : string -> error + list ServiceTemplateSpec).

(** Lines 553-602. *)
Definition annotationToComponent (annotation : gmap string string)
  : error + list Component :=
  match (match annotation !! "AdditionalDeployments" with
         | Some text => unmarshalDeployments text
         | None => inr []
         end) with
  | inl err => inl err
  | inr additionalDeployments =>
    match (match annotation !! "AdditionalServices" with
           | Some text => unmarshalServices text
           | None => inr []
           end) with
    | inl err => inl err
    | inr additionalServices =>
      if decide (length additionalDeployments = 0%nat ∧
                 length additionalServices = 0%nat)
      then inr []
      else
        let '(services, h1) := servicesLoop additionalServices zeroRangeVars in
        let '(components, usedServices, h2) :=
          deploymentsLoop services additionalDeployments h1 in
        inr (loadComponent h2 <$> (components ++ unusedServices services usedServices))
    end
  end.

(** Lines 339-353 and 215-227: catalog list followed by the components of
    the annotations. *)
Definition desiredComponents (cfg : PlatformAdminControllerConfiguration)
    (platformAdmin : PlatformAdmin) : error + list Component :=
  match annotationToComponent (om_Annotations (pa_meta platformAdmin)) with
  | inl err => inl err
  | inr additionalComponents =>
      inr (selectComponents cfg platformAdmin ++ additionalComponents)
  end.

End Resolver.

(** ** Owner references (controller-runtime's controllerutil)

    The helpers below are not code of this repository; they follow the
    documented behaviour of controllerutil.  SetOwnerReference: "If a
    reference to the same object already exists, it'll be overwritten with
    the newly provided version." *)

Definition referSameObject (a b : OwnerReference) : bool :=
  bool_decide (or_Group a = or_Group b) &&
  bool_decide (or_Kind a = or_Kind b) &&
  bool_decide (or_Name a = or_Name b).

Fixpoint indexOwnerRef (owners : list OwnerReference) (ref : OwnerReference)
  : option nat :=
  match owners with
  | [] => None
  | r :: owners' =>
      if referSameObject r ref then Some 0%nat
      else S <$> indexOwnerRef owners' ref
  end.

Definition upsertOwnerRef (ref : OwnerReference) (owners : list OwnerReference)
  : list OwnerReference :=
  match indexOwnerRef owners ref with
  | None => owners ++ [ref]
  | Some idx => <[idx := ref]> owners
  end.

Definition validateOwner (owner object : ObjectMeta) : option error :=
  if decide (om_Namespace owner = "") then None
  else if decide (om_Namespace object = om_Namespace owner) then None
       else Some ErrCrossNamespace.

(** The reference to the parent that SetOwnerReference writes. *)
Definition ownerRefOf (owner : ObjectMeta) : OwnerReference :=
  {| or_Group := PlatformAdminGroup; or_Version := PlatformAdminVersion;
     or_Kind := PlatformAdminKind; or_Name := om_Name owner;
     or_UID := om_UID owner;
     or_Controller := None; or_BlockOwnerDeletion := None |}.

(** The reference SetControllerReference writes. *)
Definition controllerRefOf (owner : ObjectMeta) : OwnerReference :=
  {| or_Group := PlatformAdminGroup; or_Version := PlatformAdminVersion;
     or_Kind := PlatformAdminKind; or_Name := om_Name owner;
     or_UID := om_UID owner;
     or_Controller := Some true; or_BlockOwnerDeletion := Some true |}.

Definition SetOwnerReference (owner object : ObjectMeta) : error + ObjectMeta :=
  match validateOwner owner object with
  | Some err => inl err
  | None =>
      inr (withOwnerReferences
             (upsertOwnerRef (ownerRefOf owner) (om_OwnerReferences object)) object)
  end.

(** metav1.GetControllerOf *)
Definition GetControllerOf (object : ObjectMeta) : option OwnerReference :=
  List.find (fun r => bool_decide (or_Controller r = Some true))
            (om_OwnerReferences object).

Definition SetControllerReference (owner object : ObjectMeta) : error + ObjectMeta :=
  match validateOwner owner object with
  | Some err => inl err
  | None =>
      let ref := controllerRefOf owner in
      match GetControllerOf object with
      | Some existing =>
          if referSameObject existing ref
          then inr (withOwnerReferences
                      (upsertOwnerRef ref (om_OwnerReferences object)) object)
          else inl ErrAlreadyOwned
      | None =>
          inr (withOwnerReferences
                 (upsertOwnerRef ref (om_OwnerReferences object)) object)
      end
  end.

(** controllerutil.AddFinalizer / RemoveFinalizer *)
Definition AddFinalizer (finalizer : string) (m : ObjectMeta) : ObjectMeta :=
  if decide (finalizer ∈ om_Finalizers m) then m
  else withFinalizers (om_Finalizers m ++ [finalizer]) m.

Definition RemoveFinalizer (finalizer : string) (m : ObjectMeta) : ObjectMeta :=
  withFinalizers (filter (λ f, f ≠ finalizer) (om_Finalizers m)) m.

(** *** removeOwner, lines 533-539: the first reference with the parent's
    UID is overwritten by the last one and the slice is cut by one.  [None]
    when no reference has that UID (the loop ends, nothing is written). *)
Fixpoint findOwner (uid : string) (owners : list OwnerReference) : option nat :=
  match owners with
  | [] => None
  | owner :: owners' =>
      if decide (or_UID owner = uid) then Some 0%nat
      else S <$> findOwner uid owners'
  end.

(** [s[i] = s[len(s)-1]; s = s[:len(s)-1]] on a slice that fills its
    backing array. *)
Definition swapRemove {A} (i : nat) (s : list A) : list A :=
  match s !! (length s - 1)%nat with
  | Some last => take (length s - 1) (<[i := last]> s)
  | None => s
  end.

Definition trimOwners (uid : string) (owners : list OwnerReference)
  : option (list OwnerReference) :=
  match findOwner uid owners with
  | Some i => Some (swapRemove i owners)
  | None => None
  end.

(** ** Pools *)

(** Lines 400-409 and 512-521. *)
Definition newPool (poolName : string) : Pool :=
  {| pool_Name := poolName;
     pool_Replicas := Some 1;
     pool_MatchExpressions :=
       [ {| nsr_Key := LabelCurrentNodePool; nsr_Operator := "In";
            nsr_Values := [poolName] |} ] |}.

(** Lines 410-416: the flag loop. *)
Definition hasPool (poolName : string) (pools : list Pool) : bool :=
  existsb (fun up => bool_decide (pool_Name up = poolName)) pools.

(** Lines 410-419: append the parent's pool unless an entry of that name is
    there. *)
Definition joinPools (poolName : string) (pools : list Pool) : list Pool :=
  if hasPool poolName pools then pools else pools ++ [newPool poolName].

(** Lines 242-247.  [range] evaluates the slice once: the loop runs over the
    indices of the slice as it was, and reads element [i] of the backing
    array when it reaches it.  The body writes the backing array and
    shortens the slice.  [arr] is the backing array, [len] the current
    length of [yas.Spec.Topology.Pools], [i] the index and [todo] the
    number of iterations left.  [None] is the run-time panic "index out of
    range" of [Pools[i]] when the slice has become shorter than [i]. *)
Fixpoint removePoolLoop (poolName : string) (todo i : nat)
    (arr : list Pool) (len : nat) : option (list Pool * nat) :=
  match todo with
  | O => Some (arr, len)
  | S todo' =>
      match arr !! i with
      | None => Some (arr, len)
      | Some pool =>
          if decide (pool_Name pool = poolName) then
            if decide (i < len)%nat then
              match arr !! (len - 1)%nat with
              | Some last =>
                  removePoolLoop poolName todo' (S i) (<[i := last]> arr) (len - 1)
              | None => None
              end
            else None
          else removePoolLoop poolName todo' (S i) arr len
      end
  end.

Definition removePool (poolName : string) (pools : list Pool) : option (list Pool) :=
  match removePoolLoop poolName (length pools) 0 pools (length pools) with
  | Some (arr, len) => Some (take len arr)
  | None => None
  end.

(** ** Status *)

Definition withConditions (cs : list PlatformAdminCondition)
    (s : PlatformAdminStatus) : PlatformAdminStatus :=
  {| st_Ready := st_Ready s; st_Initialized := st_Initialized s;
     st_ReadyComponentNum := st_ReadyComponentNum s;
     st_UnreadyComponentNum := st_UnreadyComponentNum s;
     st_Conditions := cs |}.

Definition withReady (b : bool) (s : PlatformAdminStatus) : PlatformAdminStatus :=
  {| st_Ready := b; st_Initialized := st_Initialized s;
     st_ReadyComponentNum := st_ReadyComponentNum s;
     st_UnreadyComponentNum := st_UnreadyComponentNum s;
     st_Conditions := st_Conditions s |}.

(** Lines 357-360: the deferred assignment of the two counters. *)
Definition withComponentNums (readyComponent : Z) (desired : nat)
    (s : PlatformAdminStatus) : PlatformAdminStatus :=
  {| st_Ready := st_Ready s; st_Initialized := st_Initialized s;
     st_ReadyComponentNum := readyComponent;
     st_UnreadyComponentNum := int32 (int32 (Z.of_nat desired) - readyComponent);
     st_Conditions := st_Conditions s |}.

(** Modelled from the spec: util.NewPlatformAdminCondition, declared in
    pkg/controller/platformadmin/utils: a condition is "(type, boolean,
    reason, message)". *)
Definition NewPlatformAdminCondition (type status reason message : string)
  : PlatformAdminCondition :=
  {| cond_Type := type; cond_Status := status;
     cond_Reason := reason; cond_Message := message |}.

(** Modelled from the spec: util.SetPlatformAdminCondition, declared in
    pkg/controller/platformadmin/utils: "Status conditions are
    monotonically replaced (never appended) per condition type". *)
Definition SetPlatformAdminCondition (condition : PlatformAdminCondition)
    (s : PlatformAdminStatus) : PlatformAdminStatus :=
  withConditions
    (filter (λ c, cond_Type c ≠ cond_Type condition) (st_Conditions s)
       ++ [condition]) s.

(** ** The API server and the client

    The cluster is a store per kind, keyed by (namespace, name).  Every
    client call is recorded in a trace with its outcome.  A call can fail
    for reasons outside the controller (conflict, timeout, ...): the list
    [faults] is consumed one entry per call, and an entry [Some msg] makes
    that call fail with [ErrInjected msg] and leave the store as it is.
    Server-assigned fields (resourceVersion, timestamps, the UID of a
    created object) are not modelled; a Delete removes the object at once,
    and the removal of a parent whose last finalizer is gone is left to
    the external owner. *)

Inductive Kind := KPlatformAdmin | KConfigMap | KService | KYurtAppSet.
Inductive Verb := VGet | VList | VCreate | VUpdate | VPatch | VDelete | VStatusUpdate.

Record Event := {
  ev_Verb : Verb;
  ev_Kind : Kind;
  ev_Key : string * string;
  ev_Err : option error }.

Record Cluster := {
  platformAdmins : gmap (string * string) PlatformAdmin;
  configMaps : gmap (string * string) ConfigMap;
  services : gmap (string * string) Service;
  yurtAppSets : gmap (string * string) YurtAppSet }.

(** [statusCell] is the object the Go variable [platformAdminStatus] points
    to: Reconcile allocates it, reconcileNormal and reconcileComponent
    write it, and the deferred function of Reconcile reads it on every
    exit, also after an error or a panic. *)
Record World := {
  cluster : Cluster;
  faults : list (option string);
  trace : list Event;
  statusCell : PlatformAdminStatus }.

(** Outcome of a Go function: a value, a returned error, or a panic. *)
Inductive Res (A : Type) :=
| Ok (a : A)
| Err (e : error)
| Panic (msg : string).
Arguments Ok {A} a.
Arguments Err {A} e.
Arguments Panic {A} msg.

Definition M (A : Type) : Type := World -> Res A * World.

Definition ret {A} (a : A) : M A := fun w => (Ok a, w).

Definition bind {A B} (m : M A) (f : A -> M B) : M B :=
  fun w =>
    match m w with
    | (Ok a, w') => f a w'
    | (Err e, w') => (Err e, w')
    | (Panic msg, w') => (Panic msg, w')
    end.

Definition throw {A} (e : error) : M A := fun w => (Err e, w).
Definition panic {A} (msg : string) : M A := fun w => (Panic msg, w).

(** [if err := m; err != nil { ... }]: the error of [m] as a value. *)
Definition try {A} (m : M A) : M (error + A) :=
  fun w =>
    match m w with
    | (Ok a, w') => (Ok (inr a), w')
    | (Err e, w') => (Ok (inl e), w')
    | (Panic msg, w') => (Panic msg, w')
    end.

(** Lift a pure step that may return an error. *)
Definition lift {A} (r : error + A) : M A :=
  match r with inl e => throw e | inr a => ret a end.

Declare Scope go_scope.
Delimit Scope go_scope with go.
Notation "x <- c1 ;; c2" := (bind c1 (fun x => c2))
  (at level 100, c1 at next level, right associativity) : go_scope.
Notation "c1 ;; c2" := (bind c1 (fun _ => c2))
  (at level 100, right associativity) : go_scope.
Local Open Scope go_scope.

Definition withStatusCell (s : PlatformAdminStatus) (w : World) : World :=
  {| cluster := cluster w; faults := faults w; trace := trace w; statusCell := s |}.

Definition modifyStatus (f : PlatformAdminStatus -> PlatformAdminStatus) : M unit :=
  fun w => (Ok tt, withStatusCell (f (statusCell w)) w).

(** A deferred function that only writes the status cell: it runs when the
    body returns, returns an error or panics. *)
Definition deferStatus {A} (f : PlatformAdminStatus -> PlatformAdminStatus)
    (m : M A) : M A :=
  fun w => let '(r, w') := m w in (r, withStatusCell (f (statusCell w')) w').

(** The world after a client call: the fault is consumed, the event is
    appended to the trace. *)
Definition logged (w : World) (ev : Event) (c : Cluster) : World :=
  {| cluster := c; faults := tail (faults w); trace := trace w ++ [ev];
     statusCell := statusCell w |}.

(** One client call: consume a fault, run [act] on the store, log. *)
Definition apiCall {A} (verb : Verb) (kind : Kind) (key : string * string)
    (act : Cluster -> error + (A * Cluster)) : M A :=
  fun w =>
    let ev e := {| ev_Verb := verb; ev_Kind := kind; ev_Key := key; ev_Err := e |} in
    match faults w with
    | Some msg :: _ =>
        (Err (ErrInjected msg), logged w (ev (Some (ErrInjected msg))) (cluster w))
    | _ =>
        match act (cluster w) with
        | inl e => (Err e, logged w (ev (Some e)) (cluster w))
        | inr (a, c) => (Ok a, logged w (ev None) c)
        end
    end.

(** client.Object: what the generic client needs of a kind. *)
Class Object (T : Type) := {
  kindOf : Kind;
  metaOf : T -> ObjectMeta;
  setMeta : ObjectMeta -> T -> T;
  storeOf : Cluster -> gmap (string * string) T;
  setStore : gmap (string * string) T -> Cluster -> Cluster;
  (** what an Update or Patch of the main resource persists, given the
      stored object: the status subresource is not written by it *)
  onUpdate : T -> T -> T }.
Arguments kindOf T {_}.

Definition withStatus (s : PlatformAdminStatus) (p : PlatformAdmin) : PlatformAdmin :=
  {| pa_meta := pa_meta p; pa_Spec := pa_Spec p; pa_Status := s |}.

#[global] Instance PlatformAdmin_Object : Object PlatformAdmin := {|
  kindOf := KPlatformAdmin;
  metaOf := pa_meta;
  setMeta m p := {| pa_meta := m; pa_Spec := pa_Spec p; pa_Status := pa_Status p |};
  storeOf := platformAdmins;
  setStore s c := {| platformAdmins := s; configMaps := configMaps c;
                     services := services c; yurtAppSets := yurtAppSets c |};
  onUpdate stored new := withStatus (pa_Status stored) new |}.

#[global] Instance ConfigMap_Object : Object ConfigMap := {|
  kindOf := KConfigMap;
  metaOf := cm_meta;
  setMeta m o := {| cm_meta := m; cm_Data := cm_Data o |};
  storeOf := configMaps;
  setStore s c := {| platformAdmins := platformAdmins c; configMaps := s;
                     services := services c; yurtAppSets := yurtAppSets c |};
  onUpdate stored new := new |}.

#[global] Instance Service_Object : Object Service := {|
  kindOf := KService;
  metaOf := svc_meta;
  setMeta m o := {| svc_meta := m; svc_Spec := svc_Spec o |};
  storeOf := services;
  setStore s c := {| platformAdmins := platformAdmins c; configMaps := configMaps c;
                     services := s; yurtAppSets := yurtAppSets c |};
  onUpdate stored new := new |}.

Definition withYasMeta (m : ObjectMeta) (y : YurtAppSet) : YurtAppSet :=
  {| yas_meta := m; yas_Selector := yas_Selector y;
     yas_TemplateLabels := yas_TemplateLabels y;
     yas_TemplateSpec := yas_TemplateSpec y;
     yas_Pools := yas_Pools y; yas_Status := yas_Status y |}.

Definition withPools (pools : list Pool) (y : YurtAppSet) : YurtAppSet :=
  {| yas_meta := yas_meta y; yas_Selector := yas_Selector y;
     yas_TemplateLabels := yas_TemplateLabels y;
     yas_TemplateSpec := yas_TemplateSpec y;
     yas_Pools := pools; yas_Status := yas_Status y |}.

Definition withYasStatus (s : YurtAppSetStatus) (y : YurtAppSet) : YurtAppSet :=
  {| yas_meta := yas_meta y; yas_Selector := yas_Selector y;
     yas_TemplateLabels := yas_TemplateLabels y;
     yas_TemplateSpec := yas_TemplateSpec y;
     yas_Pools := yas_Pools y; yas_Status := s |}.

#[global] Instance YurtAppSet_Object : Object YurtAppSet := {|
  kindOf := KYurtAppSet;
  metaOf := yas_meta;
  setMeta := withYasMeta;
  storeOf := yurtAppSets;
  setStore s c := {| platformAdmins := platformAdmins c; configMaps := configMaps c;
                     services := services c; yurtAppSets := s |};
  onUpdate stored new := withYasStatus (yas_Status stored) new |}.

Section Client.
Context {T : Type} `{Object T}.

Definition objectKey (obj : T) : string * string :=
  (om_Namespace (metaOf obj), om_Name (metaOf obj)).

(** client.Get *)
Definition Get (key : string * string) : M T :=
  apiCall VGet (kindOf T) key
    (fun c => match storeOf c !! key with
              | Some obj => inr (obj, c)
              | None => inl ErrNotFound
              end).

(** client.Create *)
Definition Create (obj : T) : M unit :=
  apiCall VCreate (kindOf T) (objectKey obj)
    (fun c => match storeOf c !! objectKey obj with
              | Some _ => inl ErrAlreadyExists
              | None => inr (tt, setStore (<[objectKey obj := obj]> (storeOf c)) c)
              end).

(** client.Update *)
Definition Update (obj : T) : M unit :=
  apiCall VUpdate (kindOf T) (objectKey obj)
    (fun c => match storeOf c !! objectKey obj with
              | Some stored =>
                  inr (tt, setStore (<[objectKey obj := onUpdate stored obj]> (storeOf c)) c)
              | None => inl ErrNotFound
              end).

(** client.Patch with client.MergeFrom(old).  Nothing else writes the
    store between the Get that produced [old] and the Patch, so applying
    the difference between [old] and [obj] to the stored object yields
    [obj]. *)
Definition Patch (obj : T) : M unit :=
  apiCall VPatch (kindOf T) (objectKey obj)
    (fun c => match storeOf c !! objectKey obj with
              | Some stored =>
                  inr (tt, setStore (<[objectKey obj := onUpdate stored obj]> (storeOf c)) c)
              | None => inl ErrNotFound
              end).

(** client.Delete *)
Definition Delete (obj : T) : M unit :=
  apiCall VDelete (kindOf T) (objectKey obj)
    (fun c => match storeOf c !! objectKey obj with
              | Some _ => inr (tt, setStore (delete (objectKey obj) (storeOf c)) c)
              | None => inl ErrNotFound
              end).

(** The objects a List with client.InNamespace and client.MatchingLabels
    of one label selects.  The order is the server's; the model uses that
    of [map_to_list]. *)
Definition selected (namespace labelKey labelValue : string) (obj : T) : Prop :=
  om_Namespace (metaOf obj) = namespace ∧
  om_Labels (metaOf obj) !! labelKey = Some labelValue.

#[global] Instance selected_dec namespace labelKey labelValue obj :
  Decision (selected namespace labelKey labelValue obj).
Proof. unfold selected. apply _. Defined.

Definition List (namespace labelKey labelValue : string) : M (list T) :=
  apiCall VList (kindOf T) (namespace, "")
    (fun c => inr (filter (selected namespace labelKey labelValue)
                     (snd <$> map_to_list (storeOf c)), c)).

End Client.

(** client.Status().Update for the parent: only the status is written. *)
Definition StatusUpdate (platformAdmin : PlatformAdmin) : M unit :=
  apiCall VStatusUpdate KPlatformAdmin (objectKey platformAdmin)
    (fun c => match platformAdmins c !! objectKey platformAdmin with
              | Some stored =>
                  inr (tt, setStore (<[objectKey platformAdmin :=
                                         withStatus (pa_Status platformAdmin) stored]>
                                       (platformAdmins c)) c)
              | None => inl ErrNotFound
              end).

(** controllerutil.CreateOrUpdate (controller-runtime): fetch the object by
    key; when it is absent run the mutation on the given object and create
    it; when it is there run the mutation on the fetched object and update
    only if that changed it. *)
Definition CreateOrUpdate {T} `{Object T} `{EqDecision T}
    (obj : T) (mutate : T -> error + T) : M T :=
  r <- try (Get (objectKey obj)) ;;
  match r with
  | inl err =>
      if IsNotFound err then
        obj' <- lift (mutate obj) ;;
        Create obj' ;;
        ret obj'
      else throw err
  | inr existing =>
      obj' <- lift (mutate existing) ;;
      if decide (existing = obj') then ret obj'
      else (Update obj' ;; ret obj')
  end.

(** reconcile.Result; the duration is in nanoseconds. *)
Record Result := { RequeueAfter : Z }.
Definition Second : Z := 1000000000.

(** ** The controller *)

Section Controller.

Context (unmarshalDeployments : string -> error + list DeploymentTemplateSpec).
Context (unmarshalServices : string -> error + list ServiceTemplateSpec).
(** r.Configration *)
Context (Configration : PlatformAdminControllerConfiguration).

(** The mutation of lines 316-318 and 477-479:
    controllerutil.SetOwnerReference(platformAdmin, obj, scheme). *)
Definition ownedBy {T} `{Object T} (platformAdmin : PlatformAdmin) (obj : T)
  : error + T :=
  match SetOwnerReference (pa_meta platformAdmin) (metaOf obj) with
  | inl err => inl err
  | inr m => inr (setMeta m obj)
  end.

(** Lines 532-549. *)
Definition removeOwner {T} `{Object T} (platformAdmin : PlatformAdmin) (obj : T)
  : M unit :=
  match trimOwners (om_UID (pa_meta platformAdmin))
                   (om_OwnerReferences (metaOf obj)) with
  | Some owners =>
      if decide (length owners = 0%nat) then Delete obj
      else Update (setMeta (withOwnerReferences owners (metaOf obj)) obj)
  | None => ret tt
  end.

(** The body of the three collecting loops (lines 328-332, 433-437,
    443-447): the error of removeOwner is dropped. *)
Fixpoint removeOwners {T} `{Object T} (platformAdmin : PlatformAdmin)
    (need : gset string) (items : list T) : M unit :=
  match items with
  | [] => ret tt
  | c :: items' =>
      (if decide (om_Name (metaOf c) ∈ need) then ret tt
       else (_ <- try (removeOwner platformAdmin c) ;; ret tt)) ;;
      removeOwners platformAdmin need items'
  end.

(** Lines 326-333, 431-438, 441-448: list by label in the parent's
    namespace; when the List fails nothing is collected. *)
Definition collect (T : Type) `{Object T} (platformAdmin : PlatformAdmin)
    (label : string) (need : gset string) : M unit :=
  r <- try (List (T:=T) (om_Namespace (pa_meta platformAdmin))
                 LabelPlatformAdminGenerate label) ;;
  match r with
  | inr items => removeOwners platformAdmin need items
  | inl _ => ret tt
  end.

(** Lines 311-314: the runtime information added to a config map of the
    catalog. *)
Definition stampConfigMap (platformAdmin : PlatformAdmin) (configmap : ConfigMap)
  : ConfigMap :=
  setMeta (withLabels {[ LabelPlatformAdminGenerate := LabelConfigmap ]}
             (withNamespace (om_Namespace (pa_meta platformAdmin))
                (cm_meta configmap))) configmap.

(** Lines 310-324. *)
Fixpoint upsertConfigMaps (platformAdmin : PlatformAdmin)
    (configmaps : list ConfigMap) (needConfigMaps : gset string)
  : M (gset string) :=
  match configmaps with
  | [] => ret needConfigMaps
  | configmap :: configmaps' =>
      configmap <- CreateOrUpdate (stampConfigMap platformAdmin configmap)
                     (ownedBy platformAdmin) ;;
      upsertConfigMaps platformAdmin configmaps'
        ({[ om_Name (cm_meta configmap) ]} ∪ needConfigMaps)
  end.

(** Lines 301-336. *)
Definition reconcileConfigmap (platformAdmin : PlatformAdmin) : M bool :=
  needConfigMaps <-
    upsertConfigMaps platformAdmin
      (selectConfigMaps Configration platformAdmin) ∅ ;;
  collect ConfigMap platformAdmin LabelConfigmap needConfigMaps ;;
  ret true.

(** Lines 461-471: the Service built for a component. *)
Definition newService (platformAdmin : PlatformAdmin) (component : Component)
    (spec : ServiceSpec) : Service :=
  {| svc_meta :=
       withAnnotations
         {[ AnnotationServiceTopologyKey := AnnotationServiceTopologyValueNodePool ]}
         (withLabels {[ LabelPlatformAdminGenerate := LabelService ]}
            (emptyMeta (om_Namespace (pa_meta platformAdmin))
                       (comp_Name component)));
     svc_Spec := spec |}.

(** Lines 453-486. *)
Definition handleService (platformAdmin : PlatformAdmin) (component : Component)
  : M (option Service) :=
  match comp_Service component with
  | None => ret None
  | Some spec =>
      service <- CreateOrUpdate (newService platformAdmin component spec)
                   (ownedBy platformAdmin) ;;
      ret (Some service)
  end.

Definition zeroYurtAppSetStatus : YurtAppSetStatus :=
  {| yst_PoolReplicas := ∅; yst_ReadyReplicas := 0; yst_Replicas := 0 |}.

(** Lines 489-522: the YurtAppSet built for a component, with the pool of
    the parent. *)
Definition newYurtAppSet (platformAdmin : PlatformAdmin) (component : Component)
    (spec : DeploymentSpec) : YurtAppSet :=
  {| yas_meta :=
       withLabels {[ LabelPlatformAdminGenerate := LabelDeployment ]}
         (emptyMeta (om_Namespace (pa_meta platformAdmin))
                    (comp_Name component));
     yas_Selector := {[ "app" := comp_Name component ]};
     yas_TemplateLabels := {[ "app" := comp_Name component ]};
     yas_TemplateSpec := Some spec;
     yas_Pools := [] ++ [newPool (spec_PoolName (pa_Spec platformAdmin))];
     yas_Status := zeroYurtAppSetStatus |}.

(** Lines 488-530.  The composite literal dereferences
    [component.Deployment] before anything else happens: a nil pointer
    panics. *)
Definition handleYurtAppSet (platformAdmin : PlatformAdmin) (component : Component)
  : M YurtAppSet :=
  match comp_Deployment component with
  | None => panic "invalid memory address or nil pointer dereference"
  | Some spec =>
      let yas := newYurtAppSet platformAdmin component spec in
      m <- lift (SetControllerReference (pa_meta platformAdmin) (yas_meta yas)) ;;
      let yas := withYasMeta m yas in
      Create yas ;;
      ret yas
  end.

(** Lines 389-426: the workload-set is there.  Returns the new value of
    [readyComponent]. *)
Definition joinYurtAppSet (platformAdmin : PlatformAdmin) (yas : YurtAppSet)
    (readyComponent : Z) : M Z :=
  let poolName := spec_PoolName (pa_Spec platformAdmin) in
  match yst_PoolReplicas (yas_Status yas) !! poolName with
  | Some _ =>
      if decide (yst_ReadyReplicas (yas_Status yas) = yst_Replicas (yas_Status yas))
      then ret (int32 (readyComponent + 1))
      else ret readyComponent
  | None =>
      let yas := withPools (joinPools poolName (yas_Pools yas)) yas in
      yas <- lift (ownedBy platformAdmin yas) ;;
      Patch yas ;;
      ret readyComponent
  end.

(** Lines 363-428: one iteration of the loop over the desired components. *)
Definition syncComponent (platformAdmin : PlatformAdmin)
    (desireComponent : Component) (readyComponent : Z) : M Z :=
  handleService platformAdmin desireComponent ;;
  r <- try (Get (T:=YurtAppSet)
              (om_Namespace (pa_meta platformAdmin), comp_Name desireComponent)) ;;
  match r with
  | inl err =>
      if IsNotFound err then
        handleYurtAppSet platformAdmin desireComponent ;;
        ret readyComponent
      else throw err
  | inr yas => joinYurtAppSet platformAdmin yas readyComponent
  end.

(** The deferred function of reconcileComponent (lines 357-360) reads
    [readyComponent] when the function exits; an exit from inside the loop
    sees the value the loop had reached. *)
Definition onAbort {A} (f : PlatformAdminStatus -> PlatformAdminStatus)
    (m : M A) : M A :=
  fun w =>
    match m w with
    | (Ok a, w') => (Ok a, w')
    | (r, w') => (r, withStatusCell (f (statusCell w')) w')
    end.

Fixpoint syncComponents (platformAdmin : PlatformAdmin) (total : nat)
    (desireComponents : list Component) (readyComponent : Z)
    (needComponents : gset string) : M (Z * gset string) :=
  match desireComponents with
  | [] => ret (readyComponent, needComponents)
  | desireComponent :: rest =>
      readyComponent' <-
        onAbort (withComponentNums readyComponent total)
          (syncComponent platformAdmin desireComponent readyComponent) ;;
      syncComponents platformAdmin total rest readyComponent'
        ({[ comp_Name desireComponent ]} ∪ needComponents)
  end.

(** Lines 338-451. *)
Definition reconcileComponent (platformAdmin : PlatformAdmin) : M bool :=
  desireComponents <-
    lift (desiredComponents unmarshalDeployments unmarshalServices
            Configration platformAdmin) ;;
  let total := length desireComponents in
  st <- syncComponents platformAdmin total desireComponents 0 ∅ ;;
  let '(readyComponent, needComponents) := st in
  deferStatus (withComponentNums readyComponent total)
    (collect Service platformAdmin LabelService needComponents ;;
     collect YurtAppSet platformAdmin LabelDeployment needComponents ;;
     ret (bool_decide (readyComponent = int32 (Z.of_nat total)))).

Definition fullName (platformAdmin : PlatformAdmin) : string :=
  om_Namespace (pa_meta platformAdmin) +:+ "/" +:+ om_Name (pa_meta platformAdmin).

Definition setCondition (type status reason message : string) : M unit :=
  modifyStatus
    (SetPlatformAdminCondition (NewPlatformAdminCondition type status reason message)).

(** Lines 263-299.  [AddFinalizer] and [Status.Initialized = true] change
    the in-memory parent only; it reaches the server with the Update of
    line 293. *)
Definition reconcileNormal (platformAdmin : PlatformAdmin) : M Result :=
  let platformAdmin :=
    setMeta (AddFinalizer PlatformAdminFinalizer (pa_meta platformAdmin))
            platformAdmin in
  let platformAdmin :=
    withStatus {| st_Ready := st_Ready (pa_Status platformAdmin);
                  st_Initialized := true;
                  st_ReadyComponentNum := st_ReadyComponentNum (pa_Status platformAdmin);
                  st_UnreadyComponentNum := st_UnreadyComponentNum (pa_Status platformAdmin);
                  st_Conditions := st_Conditions (pa_Status platformAdmin) |}
               platformAdmin in
  r <- try (reconcileConfigmap platformAdmin) ;;
  match r with
  | inl err =>
      setCondition ConfigmapAvailableCondition ConditionFalse
                   ConfigmapProvisioningFailedReason (errorText err) ;;
      throw (ErrWrapf ("unexpected error while reconciling configmap for "
                         +:+ fullName platformAdmin) err)
  | inr false =>
      setCondition ConfigmapAvailableCondition ConditionFalse
                   ConfigmapProvisioningReason "" ;;
      ret {| RequeueAfter := 10 * Second |}
  | inr true =>
      setCondition ConfigmapAvailableCondition ConditionTrue "" "" ;;
      r <- try (reconcileComponent platformAdmin) ;;
      match r with
      | inl err =>
          setCondition ComponentAvailableCondition ConditionFalse
                       ComponentProvisioningReason (errorText err) ;;
          throw (ErrWrapf ("unexpected error while reconciling component for "
                             +:+ fullName platformAdmin) err)
      | inr false =>
          setCondition ComponentAvailableCondition ConditionFalse
                       ComponentProvisioningReason "" ;;
          ret {| RequeueAfter := 10 * Second |}
      | inr true =>
          setCondition ComponentAvailableCondition ConditionTrue "" "" ;;
          modifyStatus (withReady true) ;;
          Update platformAdmin ;;
          ret {| RequeueAfter := 0 |}
      end
  end.

(** Lines 231-252: the loop of reconcileDelete.  A workload-set that cannot
    be fetched, for whatever reason, is skipped. *)
Fixpoint removeMemberships (platformAdmin : PlatformAdmin)
    (desiredComponents : list Component) : M unit :=
  match desiredComponents with
  | [] => ret tt
  | dc :: rest =>
      r <- try (Get (T:=YurtAppSet)
                  (om_Namespace (pa_meta platformAdmin), comp_Name dc)) ;;
      match r with
      | inl _ => removeMemberships platformAdmin rest
      | inr yas =>
          match removePool (spec_PoolName (pa_Spec platformAdmin)) (yas_Pools yas) with
          | None => panic "index out of range"
          | Some pools =>
              Patch (withPools pools yas) ;;
              removeMemberships platformAdmin rest
          end
      end
  end.

(** Lines 212-261. *)
Definition reconcileDelete (platformAdmin : PlatformAdmin) : M Result :=
  desiredComponents <-
    lift (desiredComponents unmarshalDeployments unmarshalServices
            Configration platformAdmin) ;;
  removeMemberships platformAdmin desiredComponents ;;
  let platformAdmin :=
    setMeta (RemoveFinalizer PlatformAdminFinalizer (pa_meta platformAdmin))
            platformAdmin in
  Update platformAdmin ;;
  ret {| RequeueAfter := 0 |}.

(** Lines 189-202: the deferred function of Reconcile, for [isDeleted]
    false.  It runs after [body] has returned, failed or panicked, writes
    the status cell into the parent and sends it; a failure of that call is
    aggregated with the error of the body.  A panic stays a panic. *)
Definition deferStatusUpdate {A} (platformAdmin : PlatformAdmin) (body : M A) : M A :=
  fun w =>
    let '(r, w1) := body w in
    let '(u, w2) := StatusUpdate (withStatus (statusCell w1) platformAdmin) w1 in
    match r, u with
    | Panic msg, _ => (Panic msg, w2)
    | Ok a, Ok _ => (Ok a, w2)
    | Ok a, Err err => (Err (ErrAggregate1 err), w2)
    | Err reterr, Ok _ => (Err reterr, w2)
    | Err reterr, Err err => (Err (ErrAggregate reterr err), w2)
    | _, Panic msg => (Panic msg, w2)
    end.

(** Lines 171-210. *)
Definition Reconcile (request : string * string) : M Result :=
  r <- try (Get (T:=PlatformAdmin) request) ;;
  match r with
  | inl err =>
      if IsNotFound err then ret {| RequeueAfter := 0 |} else throw err
  | inr platformAdmin =>
      modifyStatus (fun _ => pa_Status platformAdmin) ;;
      match om_DeletionTimestamp (pa_meta platformAdmin) with
      | Some _ => reconcileDelete platformAdmin
      | None => deferStatusUpdate platformAdmin (reconcileNormal platformAdmin)
      end
  end.

End Controller.

(** ** Vocabulary of the statements *)

(** Number of pool entries with a given name. *)
Definition countPool (poolName : string) (pools : list Pool) : nat :=
  length (filter (λ p, pool_Name p = poolName) pools).

(** The entries of the other parents. *)
Definition otherPools (poolName : string) (pools : list Pool) : list Pool :=
  filter (λ p, pool_Name p ≠ poolName) pools.

Definition event (verb : Verb) (kind : Kind) (key : string * string)
    (err : option error) : Event :=
  {| ev_Verb := verb; ev_Kind := kind; ev_Key := key; ev_Err := err |}.

(** Objects are stored under their own namespace and name. *)
Definition wfStore {T} `{Object T} (s : gmap (string * string) T) : Prop :=
  map_Forall (λ k o, objectKey o = k) s.

Definition wfCluster (c : Cluster) : Prop :=
  wfStore (platformAdmins c) ∧ wfStore (configMaps c) ∧
  wfStore (services c) ∧ wfStore (yurtAppSets c).

(** The laws of the four instances of [Object]. *)
Class ObjectLaws (T : Type) `{Object T} := {
  storeOf_setStore s c : storeOf (setStore s c) = s;
  setStore_storeOf c : setStore (storeOf c) c = c;
  setStore_setStore s s' c : setStore s' (setStore s c) = setStore s' c;
  metaOf_setMeta m o : metaOf (setMeta m o) = m;
  onUpdate_meta stored new : metaOf (onUpdate stored new) = metaOf new;
  onUpdate_setMeta stored m : onUpdate stored (setMeta m stored) = setMeta m stored }.

(** A computation that never panics. *)
Definition noPanic {A} (m : M A) : Prop := ∀ w msg, fst (m w) ≠ Panic msg.

(** No workload-set disappears. *)
Definition yasGrows (w w' : World) : Prop :=
  ∀ k, is_Some (yurtAppSets (cluster w) !! k) →
       is_Some (yurtAppSets (cluster w') !! k).

(** The key of the workload-set of a component. *)
Definition yasKey (platformAdmin : PlatformAdmin) (c : Component) : string * string :=
  (om_Namespace (pa_meta platformAdmin), comp_Name c).

(** What an iteration of the membership-removal loop that does not abort
    leaves in the trace: a failed Get (the workload-set is skipped), or a
    Get and a Patch of that workload-set that both succeeded. *)
Definition stepDone (platformAdmin : PlatformAdmin) (dc : Component)
    (evs : list Event) : Prop :=
  (∃ err, evs = [event VGet KYurtAppSet (yasKey platformAdmin dc) (Some err)]) ∨
  evs = [event VGet KYurtAppSet (yasKey platformAdmin dc) None;
         event VPatch KYurtAppSet (yasKey platformAdmin dc) None].

Definition isOk {A} (r : Res A) : Prop :=
  match r with Ok _ => True | _ => False end.

(** The trace is extended by events that satisfy [P]. *)
Definition traceGrows (P : Event → Prop) (w w' : World) : Prop :=
  ∃ new, trace w' = trace w ++ new ∧ Forall P new.

(** What the collection does to one object that is not needed. *)
Definition collected {T} `{Object T} (platformAdmin : PlatformAdmin) (obj : T)
  : option T :=
  match trimOwners (om_UID (pa_meta platformAdmin))
                   (om_OwnerReferences (metaOf obj)) with
  | None => Some obj
  | Some owners =>
      if decide (length owners = 0%nat) then None
      else Some (setMeta (withOwnerReferences owners (metaOf obj)) obj)
  end.

(** What a collection pass does to a stored object. *)
Definition collectOne {T} `{Object T} (platformAdmin : PlatformAdmin)
    (label : string) (need : gset string) (obj : T) : option T :=
  if decide (selected (om_Namespace (pa_meta platformAdmin))
               LabelPlatformAdminGenerate label obj ∧
             om_Name (metaOf obj) ∉ need)
  then collected platformAdmin obj
  else Some obj.

(** A run that keeps the fault-free, well-formed state and leaves alone the
    parents, the config maps, and every service and workload-set whose
    key is not in [K]. *)
Definition frame (K : string * string → Prop) (w w' : World) : Prop :=
  faults w' = [] ∧ wfCluster (cluster w') ∧
  platformAdmins (cluster w') = platformAdmins (cluster w) ∧
  configMaps (cluster w') = configMaps (cluster w) ∧
  ∀ k, ¬ K k →
       services (cluster w') !! k = services (cluster w) !! k ∧
       yurtAppSets (cluster w') !! k = yurtAppSets (cluster w) !! k.

(** The names of a list of components, as the set [needComponents]. *)
Definition componentNames (cs : list Component) : gset string :=
  list_to_set (comp_Name <$> cs).

Definition configMapNames (cms : list ConfigMap) : gset string :=
  list_to_set (om_Name ∘ cm_meta <$> cms).

Definition notStatusUpdate (ev : Event) : Prop := ev_Verb ev ≠ VStatusUpdate.

(** ** Sample inputs

    A decoder pair for a few annotation texts, a small catalog, a parent
    and clusters around it; the closed statements at the end of the file
    run the controller on them. *)

Definition sampleWorkload : DeploymentTemplateSpec :=
  {| dt_Name := "extra-svc"; dt_Spec := {| ds_raw := "replicas: 1" |} |}.
Definition sampleExposure : ServiceTemplateSpec :=
  {| st_Name := "extra-svc"; st_Spec := {| ss_raw := "port: 80" |} |}.
Definition exposureA : ServiceTemplateSpec :=
  {| st_Name := "a"; st_Spec := {| ss_raw := "port: 1" |} |}.
Definition exposureB : ServiceTemplateSpec :=
  {| st_Name := "b"; st_Spec := {| ss_raw := "port: 2" |} |}.

Definition sampleUnmarshalDeployments (text : string)
  : error + list DeploymentTemplateSpec :=
  if decide (text = "[{name: extra-svc, spec: {replicas: 1}}]")
  then inr [sampleWorkload]
  else inl (ErrDecode "invalid character").

Definition sampleUnmarshalServices (text : string)
  : error + list ServiceTemplateSpec :=
  if decide (text = "[{name: extra-svc, spec: {port: 80}}]")
  then inr [sampleExposure]
  else if decide (text = "[{name: a, spec: {port: 1}}, {name: b, spec: {port: 2}}]")
  then inr [exposureA; exposureB]
  else if decide (text = "[{name: a, spec: {port: 1}}]")
  then inr [exposureA]
  else inl (ErrDecode "invalid character").

Definition coreComponent : Component :=
  {| comp_Name := "edgex-core-data";
     comp_Service := Some {| ss_raw := "port: 59880" |};
     comp_Deployment := Some {| ds_raw := "image: core-data" |} |}.

Definition secretComponent : Component :=
  {| comp_Name := "edgex-vault";
     comp_Service := Some {| ss_raw := "port: 8200" |};
     comp_Deployment := Some {| ds_raw := "image: vault" |} |}.

Definition commonVariables : ConfigMap :=
  {| cm_meta := emptyMeta "" "common-variables";
     cm_Data := {[ "EDGEX_SECURITY_SECRET_STORE" := "false" ]} |}.

Definition sampleConfiguration : PlatformAdminControllerConfiguration :=
  {| SecurityComponents := {[ "minnesota" := [secretComponent; coreComponent] ]};
     NoSectyComponents := {[ "minnesota" := [coreComponent] ]};
     SecurityConfigMaps := {[ "minnesota" := [commonVariables] ]};
     NoSectyConfigMaps := {[ "minnesota" := [commonVariables] ]} |}.

Definition zeroStatus : PlatformAdminStatus :=
  {| st_Ready := false; st_Initialized := false; st_ReadyComponentNum := 0;
     st_UnreadyComponentNum := 0; st_Conditions := [] |}.

Definition sampleParentMeta : ObjectMeta :=
  {| om_Name := "edgex"; om_Namespace := "default"; om_UID := "uid-edgex";
     om_Labels := ∅; om_Annotations := ∅; om_OwnerReferences := [];
     om_Finalizers := []; om_DeletionTimestamp := None |}.

Definition sampleSpec (security : bool) : PlatformAdminSpec :=
  {| spec_Version := "minnesota"; spec_Security := security;
     spec_PoolName := "hangzhou" |}.

(** A fresh parent. *)
Definition sampleParent : PlatformAdmin :=
  {| pa_meta := sampleParentMeta; pa_Spec := sampleSpec false;
     pa_Status := zeroStatus |}.

Definition secureParent : PlatformAdmin :=
  {| pa_meta := sampleParentMeta; pa_Spec := sampleSpec true;
     pa_Status := zeroStatus |}.

(** The same parent with the finalizer, marked for deletion. *)
Definition deletingParent : PlatformAdmin :=
  {| pa_meta :=
       {| om_Name := "edgex"; om_Namespace := "default"; om_UID := "uid-edgex";
          om_Labels := ∅; om_Annotations := ∅; om_OwnerReferences := [];
          om_Finalizers := [PlatformAdminFinalizer];
          om_DeletionTimestamp := Some 1700000000 |};
     pa_Spec := sampleSpec false; pa_Status := zeroStatus |}.

(** A parent whose annotations add one exposure-only component. *)
Definition annotatedParent : PlatformAdmin :=
  {| pa_meta :=
       withAnnotations {[ "AdditionalServices" := "[{name: a, spec: {port: 1}}]" ]}
         sampleParentMeta;
     pa_Spec := sampleSpec false; pa_Status := zeroStatus |}.

Definition emptyCluster : Cluster :=
  {| platformAdmins := ∅; configMaps := ∅; services := ∅; yurtAppSets := ∅ |}.

Definition clusterWith (platformAdmin : PlatformAdmin) : Cluster :=
  {| platformAdmins := {[ objectKey platformAdmin := platformAdmin ]};
     configMaps := ∅; services := ∅; yurtAppSets := ∅ |}.

(** A world with the given cluster and fault plan, at the start of a pass. *)
Definition startWorld (c : Cluster) (plan : list (option string)) : World :=
  {| cluster := c; faults := plan; trace := []; statusCell := zeroStatus |}.

(** The next pass starts from the cluster the previous pass left, with no
    external change in between. *)
Definition nextPass (w : World) : World := startWorld (cluster w) [].

(** The workload-set of the core component, shared with another parent's
    pool "beijing" and joined by the sample parent. *)
Definition sharedYurtAppSet : YurtAppSet :=
  {| yas_meta :=
       withOwnerReferences [ownerRefOf sampleParentMeta]
         (withLabels {[ LabelPlatformAdminGenerate := LabelDeployment ]}
            (emptyMeta "default" "edgex-core-data"));
     yas_Selector := {[ "app" := "edgex-core-data" ]};
     yas_TemplateLabels := {[ "app" := "edgex-core-data" ]};
     yas_TemplateSpec := Some {| ds_raw := "image: core-data" |};
     yas_Pools := [newPool "beijing"; newPool "hangzhou"];
     yas_Status := zeroYurtAppSetStatus |}.

Definition deletingCluster : Cluster :=
  {| platformAdmins := {[ objectKey deletingParent := deletingParent ]};
     configMaps := ∅; services := ∅;
     yurtAppSets := {[ objectKey sharedYurtAppSet := sharedYurtAppSet ]} |}.

(** A config map of the catalog, already created and owned by the parent,
    and a left-over service that is no longer desired. *)
Definition ownedConfigMap : ConfigMap :=
  {| cm_meta :=
       withOwnerReferences [ownerRefOf sampleParentMeta]
         (withLabels {[ LabelPlatformAdminGenerate := LabelConfigmap ]}
            (emptyMeta "default" "common-variables"));
     cm_Data := {[ "EDGEX_SECURITY_SECRET_STORE" := "false" ]} |}.

Definition staleService : Service :=
  {| svc_meta :=
       withOwnerReferences [ownerRefOf sampleParentMeta]
         (withLabels {[ LabelPlatformAdminGenerate := LabelService ]}
            (emptyMeta "default" "edgex-old"));
     svc_Spec := {| ss_raw := "port: 1234" |} |}.

Definition settledCluster : Cluster :=
  {| platformAdmins := {[ objectKey sampleParent := sampleParent ]};
     configMaps := {[ objectKey ownedConfigMap := ownedConfigMap ]};
     services := {[ objectKey staleService := staleService ]};
     yurtAppSets := ∅ |}.

(** A parent that asks for a version the catalog does not have. *)
Definition unknownVersionParent : PlatformAdmin :=
  {| pa_meta := sampleParentMeta;
     pa_Spec := {| spec_Version := "nowhere"; spec_Security := true;
                   spec_PoolName := "hangzhou" |};
     pa_Status := zeroStatus |}.

(** The annotations of the override-merge example. *)
Definition mergeAnnotations : gmap string string :=
  {[ "AdditionalDeployments" := "[{name: extra-svc, spec: {replicas: 1}}]";
     "AdditionalServices" := "[{name: extra-svc, spec: {port: 80}}]" ]}.

(** Two exposure templates and no workload template. *)
Definition twoExposures : gmap string string :=
  {[ "AdditionalServices" :=
       "[{name: a, spec: {port: 1}}, {name: b, spec: {port: 2}}]" ]}.

(** The exposure-only component of [annotatedParent]. *)
Definition exposureOnly : Component :=
  {| comp_Name := "a"; comp_Service := Some {| ss_raw := "port: 1" |};
     comp_Deployment := None |}.

(** The controller with the sample decoders and catalog, and three passes
    in a row over a fresh parent. *)
Abbreviation sampleReconcile :=
  (Reconcile sampleUnmarshalDeployments sampleUnmarshalServices sampleConfiguration).

Abbreviation firstPass :=
  (sampleReconcile ("default", "edgex") (startWorld (clusterWith sampleParent) [])).
Abbreviation secondPass :=
  (sampleReconcile ("default", "edgex") (nextPass (snd firstPass))).
Abbreviation thirdPass :=
  (sampleReconcile ("default", "edgex") (nextPass (snd secondPass))).

(** ** Vocabulary of the further properties *)

(** The part [proj] of the cluster is left as it is. *)
Definition keeps {X} (proj : Cluster → X) (w w' : World) : Prop :=
  proj (cluster w') = proj (cluster w).

(** The status cell moves along [P]. *)
Definition cellStep (P : relation PlatformAdminStatus) (w w' : World) : Prop :=
  P (statusCell w) (statusCell w').

(** The component the second loop of annotationToComponent appends for an
    additional workload template (lines 578-586): the exposure pointer is
    the map entry of that name, when there is one. *)
Definition refOf (services : gmap string servicePtr) (d : DeploymentTemplateSpec)
  : ComponentRef :=
  {| cr_Name := dt_Name d; cr_Service := services !! dt_Name d;
     cr_Deployment := Some AddrAdditionalDeploymentSpec |}.

(** The decoded array of an annotation key: an absent key leaves the empty
    slice of lines 555 and 562. *)
Definition decoded {A} (unmarshal : string -> error + list A)
    (annotation : gmap string string) (key : string) : error + list A :=
  match annotation !! key with
  | Some text => unmarshal text
  | None => inr []
  end.

(** Relations on worlds that a call which leaves the store alone, a write
    to the store of kind [T], or the deferred assignment of the two
    counters cannot break. *)
Definition toleratesReads (R : relation World) : Prop :=
  ∀ w ev, R w (logged w ev (cluster w)).

Definition toleratesWrites (T : Type) `{Object T} (R : relation World) : Prop :=
  ∀ w ev s, R w (logged w ev (setStore (T:=T) s (cluster w))).

Definition toleratesCounters (R : relation World) : Prop :=
  ∀ w readyComponent total,
    R w (withStatusCell (withComponentNums readyComponent total (statusCell w)) w).

Definition toleratesStatus (R : relation World) : Prop :=
  ∀ w s, R w (withStatusCell s w).

Definition toleratesConditions (R : relation World) : Prop :=
  ∀ w condition,
    R w (withStatusCell (SetPlatformAdminCondition condition (statusCell w)) w).

Definition toleratesReady (R : relation World) : Prop :=
  ∀ w, R w (withStatusCell (withReady true (statusCell w)) w).

(** The values of a Go int32. *)
Definition inRange32 (z : Z) : Prop := - 2^31 ≤ z < 2^31.

(** Every value the computation returns satisfies [Q]. *)
Definition resultIn {A} (Q : A → Prop) (m : M A) : Prop :=
  ∀ w a w', m w = (Ok a, w') → Q a.

(** The in-memory parent of reconcileNormal after lines 265-267: the
    finalizer is added and Status.Initialized is set. *)
Definition prepared (platformAdmin : PlatformAdmin) : PlatformAdmin :=
  let platformAdmin :=
    setMeta (AddFinalizer PlatformAdminFinalizer (pa_meta platformAdmin))
            platformAdmin in
  withStatus {| st_Ready := st_Ready (pa_Status platformAdmin);
                st_Initialized := true;
                st_ReadyComponentNum := st_ReadyComponentNum (pa_Status platformAdmin);
                st_UnreadyComponentNum := st_UnreadyComponentNum (pa_Status platformAdmin);
                st_Conditions := st_Conditions (pa_Status platformAdmin) |}
             platformAdmin.

(** Ready is not withdrawn and Initialized is not touched. *)
Definition readyKept (s s' : PlatformAdminStatus) : Prop :=
  (st_Ready s = true → st_Ready s' = true) ∧
  st_Initialized s' = st_Initialized s.

(** ** Further sample inputs *)

(** A second decoder, for an array of two workload templates. *)
Definition workloadX : DeploymentTemplateSpec :=
  {| dt_Name := "x"; dt_Spec := {| ds_raw := "replicas: 1" |} |}.
Definition workloadY : DeploymentTemplateSpec :=
  {| dt_Name := "y"; dt_Spec := {| ds_raw := "replicas: 2" |} |}.

Definition pairUnmarshalDeployments (text : string)
  : error + list DeploymentTemplateSpec :=
  if decide (text = "[{name: x, spec: {replicas: 1}}, {name: y, spec: {replicas: 2}}]")
  then inr [workloadX; workloadY]
  else inl (ErrDecode "invalid character").

Definition twoWorkloads : gmap string string :=
  {[ "AdditionalDeployments" :=
       "[{name: x, spec: {replicas: 1}}, {name: y, spec: {replicas: 2}}]" ]}.

(** One workload template and two exposure templates of other names. *)
Definition mixedAnnotations : gmap string string :=
  {[ "AdditionalDeployments" := "[{name: extra-svc, spec: {replicas: 1}}]";
     "AdditionalServices" :=
       "[{name: a, spec: {port: 1}}, {name: b, spec: {port: 2}}]" ]}.

(** A parent marked for deletion whose workload annotation is not an
    array. *)
Definition brokenParent : PlatformAdmin :=
  {| pa_meta :=
       {| om_Name := "edgex"; om_Namespace := "default"; om_UID := "uid-edgex";
          om_Labels := ∅;
          om_Annotations := {[ "AdditionalDeployments" := "{name: extra-svc}" ]};
          om_OwnerReferences := [];
          om_Finalizers := [PlatformAdminFinalizer];
          om_DeletionTimestamp := Some 1700000000 |};
     pa_Spec := sampleSpec false; pa_Status := zeroStatus |}.

(** The workload-set of the core component with the pool of the sample
    parent listed twice, the second time in the last place. *)
Definition duplicatedYurtAppSet : YurtAppSet :=
  withPools [newPool "hangzhou"; newPool "beijing"; newPool "hangzhou"]
            sharedYurtAppSet.

Definition duplicatedCluster : Cluster :=
  {| platformAdmins := {[ objectKey deletingParent := deletingParent ]};
     configMaps := ∅; services := ∅;
     yurtAppSets := {[ objectKey duplicatedYurtAppSet := duplicatedYurtAppSet ]} |}.

(** The workload-set of the core component once its status reports the
    pool of the sample parent with all replicas ready, and the sample
    parent once it has been reported Ready. *)
Definition readyYurtAppSet : YurtAppSet :=
  withYasStatus {| yst_PoolReplicas := {[ "hangzhou" := 1 ]};
                   yst_ReadyReplicas := 1; yst_Replicas := 1 |}
                sharedYurtAppSet.

Definition readyCluster : Cluster :=
  {| platformAdmins := {[ objectKey sampleParent := sampleParent ]};
     configMaps := ∅; services := ∅;
     yurtAppSets := {[ objectKey readyYurtAppSet := readyYurtAppSet ]} |}.

Definition readyParent : PlatformAdmin :=
  withStatus (withReady true zeroStatus) sampleParent.

(** The workload-set lists the pool, or its status already reports it. *)
Definition member (poolName : string) (yas : YurtAppSet) : Prop :=
  hasPool poolName (yas_Pools yas) = true ∨
  is_Some (yst_PoolReplicas (yas_Status yas) !! poolName).

(** The store of kind [T] loses no object and every object it has moves
    along [ρ] ([grows]); it gains no object and every object it has comes
    along [ρ] from one it had ([shrinks]).  Both are stated for
    well-formed stores, which they keep well-formed. *)
Definition grows {T} `{Object T} (ρ : relation T) (w w' : World) : Prop :=
  wfStore (storeOf (T:=T) (cluster w)) →
  wfStore (storeOf (T:=T) (cluster w')) ∧
  ∀ k o, storeOf (cluster w) !! k = Some o →
         ∃ o', storeOf (cluster w') !! k = Some o' ∧ ρ o o'.

Definition shrinks {T} `{Object T} (ρ : relation T) (w w' : World) : Prop :=
  wfStore (storeOf (T:=T) (cluster w)) →
  wfStore (storeOf (T:=T) (cluster w')) ∧
  ∀ k o', storeOf (cluster w') !! k = Some o' →
          ∃ o, storeOf (cluster w) !! k = Some o ∧ ρ o o'.

(** An object apart from its owner references. *)
Definition content {T} `{Object T} (o : T) : T :=
  setMeta (withOwnerReferences [] (metaOf o)) o.

Definition sameContent {T} `{Object T} : relation T :=
  λ o o', content o' = content o.

(** The object keeps the owner reference [ref] when it has it. *)
Definition ownedStill {T} `{Object T} (ref : OwnerReference) : relation T :=
  λ o o', ref ∈ om_OwnerReferences (metaOf o) →
          ref ∈ om_OwnerReferences (metaOf o').

(** A config map under the name of the catalog's, created by hand with
    other data, without the label and without an owner. *)
Definition editedConfigMap : ConfigMap :=
  {| cm_meta := emptyMeta "default" "common-variables";
     cm_Data := {[ "EDGEX_SECURITY_SECRET_STORE" := "true" ]} |}.

Definition editedCluster : Cluster :=
  {| platformAdmins := {[ objectKey sampleParent := sampleParent ]};
     configMaps := {[ objectKey editedConfigMap := editedConfigMap ]};
     services := ∅; yurtAppSets := ∅ |}.

(** Two states of a parent that differ at most in finalizers and status. *)
Definition sameParent (p p' : PlatformAdmin) : Prop :=
  pa_Spec p' = pa_Spec p ∧
  withFinalizers [] (pa_meta p') = withFinalizers [] (pa_meta p).

(** Two stores of parents: none appears or disappears, every parent is
    changed at most in finalizers and status, and only the one under
    [request] is changed at all. *)
Definition parentsTouched (request : string * string)
    (s s' : gmap (string * string) PlatformAdmin) : Prop :=
  ∀ k,
    match s !! k with
    | None => s' !! k = None
    | Some p =>
        ∃ p', s' !! k = Some p' ∧ sameParent p p' ∧ (k ≠ request → p' = p)
    end.

(** A workload-set of the core component that was made by hand: it lists
    the pool of the sample parent once, has no owner reference, and its
    status does not report the pool yet. *)
Definition listedYurtAppSet : YurtAppSet :=
  {| yas_meta := emptyMeta "default" "edgex-core-data";
     yas_Selector := {[ "app" := "edgex-core-data" ]};
     yas_TemplateLabels := {[ "app" := "edgex-core-data" ]};
     yas_TemplateSpec := Some {| ds_raw := "image: core-data" |};
     yas_Pools := [newPool "hangzhou"];
     yas_Status := zeroYurtAppSetStatus |}.

Definition listedCluster : Cluster :=
  {| platformAdmins := {[ objectKey sampleParent := sampleParent ]};
     configMaps := ∅; services := ∅;
     yurtAppSets := {[ objectKey listedYurtAppSet := listedYurtAppSet ]} |}.

(** * Properties *)

(** ** The resolver *)

Section ResolverProperties.

Context (unmarshalDeployments : string -> error + list DeploymentTemplateSpec).
Context (unmarshalServices : string -> error + list ServiceTemplateSpec).

Local Abbreviation annotationToComponent' :=
  (annotationToComponent unmarshalDeployments unmarshalServices).
Local Abbreviation desiredComponents' :=
  (desiredComponents unmarshalDeployments unmarshalServices).

Lemma annotationToComponent_no_keys (annotation : gmap string string) :
  annotation !! "AdditionalDeployments" = None →
  annotation !! "AdditionalServices" = None →
  annotationToComponent' annotation = inr [].
Proof.
  intros HD HS. unfold annotationToComponent. rewrite HD, HS.
  rewrite decide_True; [done | by split].
Qed.


(** C6. One additional workload template and one additional exposure
    template of the same name give exactly one component, of that name,
    with both the workload spec and the exposure spec. *)
Theorem override_merge (annotation : gmap string string)
    (textD textS name : string) (d : DeploymentSpec) (s : ServiceSpec) :
  annotation !! "AdditionalDeployments" = Some textD →
  unmarshalDeployments textD = inr [ {| dt_Name := name; dt_Spec := d |} ] →
  annotation !! "AdditionalServices" = Some textS →
  unmarshalServices textS = inr [ {| st_Name := name; st_Spec := s |} ] →
  annotationToComponent' annotation =
    inr [ {| comp_Name := name; comp_Service := Some s; comp_Deployment := Some d |} ].
Proof.
  intros HD HuD HS HuS. unfold annotationToComponent.
  rewrite HD, HuD, HS, HuS.
  rewrite decide_False by (intros [? _]; done).
  cbn [servicesLoop fold_left st_Name additionalservice].
  cbn [deploymentsLoop fold_left dt_Name additionalDeployment].
  rewrite lookup_insert_eq. cbn [app].
  unfold unusedServices.
  rewrite decide_False; [done |].
  rewrite insert_empty, map_size_singleton, union_empty_r_L, size_singleton. lia.
Qed.

End ResolverProperties.

(** *** Every exposure pointer is the address of the range variable *)

Section Aliasing.

Context (unmarshalDeployments : string -> error + list DeploymentTemplateSpec).
Context (unmarshalServices : string -> error + list ServiceTemplateSpec).

Lemma last_cons_default {A} (l : list A) (x d d' : A) :
  List.last (x :: l) d = List.last (x :: l) d'.
Proof.
  revert x. induction l as [|y l IH]; intros x; [done|].
  change (List.last (y :: l) d = List.last (y :: l) d'). apply IH.
Qed.

Lemma servicesLoop_vars (additionalServices : list ServiceTemplateSpec)
    (services : gmap string servicePtr) (h : RangeVars) :
  snd (fold_left
         (fun (acc : gmap string servicePtr * RangeVars) s =>
            let '(services, h) := acc in
            let h' := {| additionalservice := s;
                         additionalDeployment := additionalDeployment h |} in
            (<[st_Name (additionalservice h') := AddrAdditionalserviceSpec]> services, h'))
         additionalServices (services, h)) =
    {| additionalservice := List.last additionalServices (additionalservice h);
       additionalDeployment := additionalDeployment h |}.
Proof.
  revert services h.
  induction additionalServices as [|s l IH]; intros services h; [by destruct h|].
  cbn [fold_left]. rewrite IH. cbn [additionalservice additionalDeployment].
  f_equal. destruct l as [|y l]; [done|].
  change (List.last (y :: l) s = List.last (y :: l) (additionalservice h)).
  apply last_cons_default.
Qed.

Lemma deploymentsLoop_vars (services : gmap string servicePtr)
    (additionalDeployments : list DeploymentTemplateSpec)
    (acc : list ComponentRef * gset string * RangeVars) :
  additionalservice
    (snd (fold_left
            (fun (acc : list ComponentRef * gset string * RangeVars) d =>
               let '(components, usedServices, h) := acc in
               let h' := {| additionalservice := additionalservice h;
                            additionalDeployment := d |} in
               let name := dt_Name (additionalDeployment h') in
               match services !! name with
               | Some service =>
                   (components ++ [{| cr_Name := name; cr_Service := Some service;
                                      cr_Deployment := Some AddrAdditionalDeploymentSpec |}],
                    {[ name ]} ∪ usedServices, h')
               | None =>
                   (components ++ [{| cr_Name := name; cr_Service := None;
                                      cr_Deployment := Some AddrAdditionalDeploymentSpec |}],
                    usedServices, h')
               end)
            additionalDeployments acc))
  = additionalservice (snd acc).
Proof.
  revert acc. induction additionalDeployments as [|d l IH]; intros acc; [done|].
  cbn [fold_left]. rewrite IH. destruct acc as [[components used] h].
  cbn [dt_Name additionalDeployment]. by destruct (services !! dt_Name d).
Qed.

(** Whatever the annotations hold, every component the resolver derives
    from them that has an exposure spec has the spec of the LAST
    additional exposure template. *)
Lemma annotationToComponent_service_is_last (annotation : gmap string string)
    (text : string) (additionalServices : list ServiceTemplateSpec)
    (components : list Component) :
  annotation !! "AdditionalServices" = Some text →
  unmarshalServices text = inr additionalServices →
  annotationToComponent unmarshalDeployments unmarshalServices annotation
    = inr components →
  ∀ c s, c ∈ components → comp_Service c = Some s →
         s = st_Spec (List.last additionalServices (additionalservice zeroRangeVars)).
Proof.
  intros Htext Hdec. unfold annotationToComponent. rewrite Htext, Hdec.
  destruct (match annotation !! "AdditionalDeployments" with
            | Some t => unmarshalDeployments t
            | None => inr []
            end) as [err|additionalDeployments]; [done|].
  destruct (decide _) as [_|_].
  { intros [= <-] c s Hc. by apply elem_of_nil in Hc. }
  pose proof (servicesLoop_vars additionalServices ∅ zeroRangeVars) as H1.
  unfold servicesLoop.
  destruct (fold_left _ additionalServices _) as [services h1]. cbn [snd] in H1.
  pose proof (deploymentsLoop_vars services additionalDeployments ([], ∅, h1)) as H2.
  unfold deploymentsLoop.
  destruct (fold_left _ additionalDeployments _) as [[crefs used] h2].
  cbn [snd] in H2.
  intros [= <-] c s (cref & -> & _)%list_elem_of_fmap.
  unfold loadComponent. cbn [comp_Service].
  destruct (cr_Service cref) as [[]|]; [|done].
  intros [= <-]. cbn [derefService]. by rewrite H2, H1.
Qed.

End Aliasing.

(** ** Pools *)

Section PoolProperties.

Context (poolName : string).

Lemma countPool_app (l1 l2 : list Pool) :
  countPool poolName (l1 ++ l2) = (countPool poolName l1 + countPool poolName l2)%nat.
Proof. unfold countPool. by rewrite filter_app, length_app. Qed.

Lemma countPool_cons (p : Pool) (l : list Pool) :
  countPool poolName (p :: l) =
    ((if decide (pool_Name p = poolName) then 1 else 0) + countPool poolName l)%nat.
Proof.
  unfold countPool. rewrite filter_cons.
  destruct (decide (pool_Name p = poolName)); done.
Qed.

Lemma countPool_zero (l : list Pool) :
  countPool poolName l = 0%nat ↔ Forall (λ p, pool_Name p ≠ poolName) l.
Proof.
  induction l as [|p l IH]; [by split|].
  rewrite countPool_cons, Forall_cons.
  destruct (decide (pool_Name p = poolName)); simpl.
  - split; [lia | intros [? _]; done].
  - rewrite IH. tauto.
Qed.

Lemma hasPool_false (pools : list Pool) :
  hasPool poolName pools = false ↔ countPool poolName pools = 0%nat.
Proof.
  rewrite countPool_zero. unfold hasPool.
  induction pools as [|p l IH]; simpl; [by split|].
  rewrite orb_false_iff, IH, Forall_cons, bool_decide_eq_false. tauto.
Qed.

Lemma joinPools_present (pools : list Pool) :
  hasPool poolName pools = true → joinPools poolName pools = pools.
Proof. unfold joinPools. by intros ->. Qed.

Lemma hasPool_joinPools (pools : list Pool) :
  hasPool poolName (joinPools poolName pools) = true.
Proof.
  unfold joinPools. destruct (hasPool poolName pools) eqn:E; [done|].
  unfold hasPool. rewrite existsb_app. simpl.
  rewrite bool_decide_eq_true_2 by done. by rewrite orb_true_r.
Qed.

Lemma countPool_joinPools (pools : list Pool) :
  countPool poolName (joinPools poolName pools) =
    Nat.max 1 (countPool poolName pools).
Proof.
  unfold joinPools. destruct (hasPool poolName pools) eqn:E.
  - destruct (countPool poolName pools) eqn:C; [|lia].
    apply hasPool_false in C. congruence.
  - apply hasPool_false in E. rewrite countPool_app, E.
    rewrite countPool_cons. simpl. rewrite decide_True by done. done.
Qed.

Lemma joinPools_iter (n : nat) (pools : list Pool) :
  Nat.iter (S n) (joinPools poolName) pools = joinPools poolName pools.
Proof.
  induction n as [|n IH]; [done|].
  change (Nat.iter (S (S n)) (joinPools poolName) pools)
    with (joinPools poolName (Nat.iter (S n) (joinPools poolName) pools)).
  rewrite IH. apply joinPools_present, hasPool_joinPools.
Qed.

(** *** The swap-with-last removal of reconcileDelete *)

Lemma otherPools_app (l1 l2 : list Pool) :
  otherPools poolName (l1 ++ l2) = otherPools poolName l1 ++ otherPools poolName l2.
Proof. apply filter_app. Qed.

Lemma otherPools_mine (p : Pool) (l : list Pool) :
  pool_Name p = poolName → otherPools poolName (p :: l) = otherPools poolName l.
Proof. intros E. unfold otherPools. by rewrite filter_cons_False by (intros ?; done). Qed.

(** One removal step keeps the other parents' entries. *)
Lemma swap_step_others (arr : list Pool) (i len : nat) (pool last : Pool) :
  (i < len)%nat →
  arr !! i = Some pool → pool_Name pool = poolName →
  arr !! (len - 1)%nat = Some last →
  otherPools poolName (take (len - 1) (<[i := last]> arr))
    ≡ₚ otherPools poolName (take len arr).
Proof.
  intros Hi Hpool Hname Hlast.
  replace len with (S (len - 1)) at 2 by lia.
  rewrite (take_S_r _ _ _ Hlast), otherPools_app.
  destruct (decide (i = len - 1)%nat) as [->|Hne].
  - rewrite take_insert_ge by lia.
    assert (pool = last) as <- by congruence.
    rewrite otherPools_mine by done. by rewrite app_nil_r.
  - rewrite take_insert_lt by lia.
    assert (take (len - 1) arr !! i = Some pool) as Hl
      by (rewrite lookup_take_lt by lia; done).
    apply list_elem_of_split_length in Hl as (l1 & l2 & Hsplit & Hlen).
    rewrite Hsplit. subst i.
    rewrite insert_app_r_alt by lia.
    replace (length l1 - length l1)%nat with 0%nat by lia. simpl.
    rewrite !otherPools_app, (otherPools_mine pool) by done.
    change (last :: l2) with ([last] ++ l2). rewrite otherPools_app.
    rewrite (Permutation_app_comm (otherPools poolName [last])).
    by rewrite (assoc (++)).
Qed.

Lemma removePoolLoop_others (todo i : nat) (arr : list Pool) (len : nat)
    (arr' : list Pool) (len' : nat) :
  removePoolLoop poolName todo i arr len = Some (arr', len') →
  otherPools poolName (take len' arr') ≡ₚ otherPools poolName (take len arr).
Proof.
  revert i arr len. induction todo as [|todo IH]; intros i arr len; simpl.
  - intros [= <- <-]. done.
  - destruct (arr !! i) as [pool|] eqn:Hpool; [|by intros [= <- <-]].
    destruct (decide (pool_Name pool = poolName)) as [Hname|]; [|by apply IH].
    destruct (decide (i < len)%nat) as [Hi|]; [|done].
    destruct (arr !! (len - 1)%nat) as [last|] eqn:Hlast; [|done].
    intros Hloop. rewrite (IH _ _ _ Hloop).
    by eapply swap_step_others.
Qed.

(** Once no entry of the parent is ahead, the loop changes nothing. *)
Lemma removePoolLoop_no_match (todo i : nat) (arr : list Pool) (len : nat) :
  (∀ j p, (i ≤ j)%nat → arr !! j = Some p → pool_Name p ≠ poolName) →
  removePoolLoop poolName todo i arr len = Some (arr, len).
Proof.
  revert i. induction todo as [|todo IH]; intros i Hno; simpl; [done|].
  destruct (arr !! i) as [pool|] eqn:Hpool; [|done].
  rewrite decide_False by (by eapply Hno).
  apply IH. intros j p Hj. apply Hno. lia.
Qed.

Lemma removePoolLoop_unique (todo i : nat) (arr : list Pool) :
  Forall (λ p, pool_Name p ≠ poolName) (take i arr) →
  (countPool poolName (drop i arr) ≤ 1)%nat →
  ∃ arr' len',
    removePoolLoop poolName todo i arr (length arr) = Some (arr', len') ∧
    (todo + i = length arr → countPool poolName (take len' arr') = 0)%nat.
Proof.
  revert i. induction todo as [|todo IH]; intros i Hdone Hcount; simpl.
  { eexists _, _. split; [done|]. intros ->. rewrite firstn_all.
    rewrite firstn_all in Hdone. by apply countPool_zero. }
  destruct (arr !! i) as [pool|] eqn:Hpool.
  2:{ eexists _, _. split; [done|]. intros _.
      apply lookup_ge_None in Hpool. rewrite firstn_all.
      rewrite take_ge in Hdone by done. by apply countPool_zero. }
  assert (i < length arr)%nat as Hi by (by eapply lookup_lt_Some).
  rewrite (drop_S _ _ _ Hpool), countPool_cons in Hcount.
  destruct (decide (pool_Name pool = poolName)) as [Hname|Hname].
  - rewrite decide_True by done.
    destruct (arr !! (length arr - 1)%nat) as [last|] eqn:Hlast.
    2:{ apply lookup_ge_None in Hlast. lia. }
    assert (Forall (λ p, pool_Name p ≠ poolName) (drop (S i) arr)) as Hrest
      by (apply countPool_zero; simpl in Hcount; lia).
    rewrite removePoolLoop_no_match.
    2:{ intros j p Hj Hp. rewrite list_lookup_insert_ne in Hp by lia.
        rewrite Forall_forall in Hrest. apply Hrest.
        apply list_elem_of_lookup. exists (j - S i)%nat.
        rewrite lookup_drop. rewrite <- Hp. f_equal. lia. }
    eexists _, _. split; [done|]. intros _.
    apply countPool_zero, Forall_forall. intros p Hp.
    apply list_elem_of_lookup in Hp as [j Hp].
    apply lookup_take_Some in Hp as [Hp Hj].
    destruct (decide (j = i)) as [->|Hji].
    + rewrite list_lookup_insert_eq in Hp by done.
      assert (last = p) as <- by congruence.
      rewrite Forall_forall in Hrest. apply Hrest.
      apply list_elem_of_lookup. exists (length arr - 1 - S i)%nat.
      rewrite lookup_drop. rewrite <- Hlast. f_equal. lia.
    + rewrite list_lookup_insert_ne in Hp by done.
      destruct (decide (j < i)%nat).
      * rewrite Forall_forall in Hdone. apply Hdone.
        apply list_elem_of_lookup. exists j. by rewrite lookup_take_lt.
      * rewrite Forall_forall in Hrest. apply Hrest.
        apply list_elem_of_lookup. exists (j - S i)%nat.
        rewrite lookup_drop. rewrite <- Hp. f_equal. lia.
  - destruct (IH (S i)) as (arr' & len' & Hloop & Hzero).
    + rewrite (take_S_r _ _ _ Hpool). apply Forall_app. split; [done|].
      by apply Forall_singleton.
    + simpl in Hcount. lia.
    + eexists _, _. split; [done|]. intros E. apply Hzero. lia.
Qed.

End PoolProperties.

(** ** Reasoning about the client monad *)

#[global] Instance PlatformAdmin_laws : ObjectLaws PlatformAdmin.
Proof. split; try done; by intros []. Qed.
#[global] Instance ConfigMap_laws : ObjectLaws ConfigMap.
Proof. split; try done; by intros []. Qed.
#[global] Instance Service_laws : ObjectLaws Service.
Proof. split; try done; by intros []. Qed.
#[global] Instance YurtAppSet_laws : ObjectLaws YurtAppSet.
Proof. split; try done; by intros []. Qed.

Lemma apiCall_cases {A} verb kind key (act : Cluster -> error + (A * Cluster)) w :
  (∃ e, apiCall verb kind key act w
          = (Err e, logged w (event verb kind key (Some e)) (cluster w))) ∨
  (∃ a c, act (cluster w) = inr (a, c) ∧
          apiCall verb kind key act w
          = (Ok a, logged w (event verb kind key None) c)).
Proof.
  unfold apiCall, event.
  destruct (faults w) as [|[msg|] rest]; eauto;
    destruct (act (cluster w)) as [e|[a c]]; eauto.
Qed.

Lemma apiCall_no_fault {A} verb kind key (act : Cluster -> error + (A * Cluster)) w :
  faults w = [] →
  apiCall verb kind key act w =
    match act (cluster w) with
    | inl e => (Err e, logged w (event verb kind key (Some e)) (cluster w))
    | inr (a, c) => (Ok a, logged w (event verb kind key None) c)
    end.
Proof. unfold apiCall, event. by intros ->. Qed.

Lemma faults_logged w ev c : faults w = [] → faults (logged w ev c) = [].
Proof. unfold logged. simpl. by intros ->. Qed.

(** *** Relations every step of a computation keeps *)

Section Preserves.

Context (R : relation World) `{!PreOrder R}.

Definition preserves {A} (m : M A) : Prop := ∀ w, R w (snd (m w)).

Lemma preserves_ret {A} (a : A) : preserves (ret a).
Proof. intros w. reflexivity. Qed.

Lemma preserves_throw {A} e : preserves (throw (A:=A) e).
Proof. intros w. reflexivity. Qed.

Lemma preserves_panic {A} msg : preserves (panic (A:=A) msg).
Proof. intros w. reflexivity. Qed.

Lemma preserves_lift {A} (r : error + A) : preserves (lift r).
Proof. destruct r; intros w; reflexivity. Qed.

Lemma preserves_bind {A B} (m : M A) (f : A -> M B) :
  preserves m → (∀ a, preserves (f a)) → preserves (bind m f).
Proof.
  intros Hm Hf w. unfold bind. specialize (Hm w).
  destruct (m w) as [[a|e|msg] w1]; simpl in *; [|done..].
  etransitivity; [exact Hm | apply Hf].
Qed.

Lemma preserves_try {A} (m : M A) : preserves m → preserves (try m).
Proof.
  intros Hm w. unfold try. specialize (Hm w).
  by destruct (m w) as [[a|e|msg] w1].
Qed.

Lemma preserves_apiCall {A} verb kind key (act : Cluster -> error + (A * Cluster)) :
  (∀ w e, R w (logged w (event verb kind key e) (cluster w))) →
  (∀ w a c, act (cluster w) = inr (a, c) →
            R w (logged w (event verb kind key None) c)) →
  preserves (apiCall verb kind key act).
Proof.
  intros Hfail Hok w.
  destruct (apiCall_cases verb kind key act w) as [[e ->]|(a & c & Hact & ->)];
    simpl; eauto.
Qed.


End Preserves.

(** ** Panics *)

Lemma noPanic_ret {A} (a : A) : noPanic (ret a).
Proof. intros w msg. done. Qed.

Lemma noPanic_throw {A} e : noPanic (throw (A:=A) e).
Proof. intros w msg. done. Qed.

Lemma noPanic_lift {A} (r : error + A) : noPanic (lift r).
Proof. destruct r; intros w msg; done. Qed.

Lemma noPanic_bind {A B} (m : M A) (f : A -> M B) :
  noPanic m → (∀ a, noPanic (f a)) → noPanic (bind m f).
Proof.
  intros Hm Hf w msg. unfold bind. specialize (Hm w).
  destruct (m w) as [[a|e|msg'] w1]; simpl in *; [apply Hf|done|].
  by destruct (Hm msg').
Qed.

Lemma noPanic_try {A} (m : M A) : noPanic m → noPanic (try m).
Proof.
  intros Hm w msg. unfold try. specialize (Hm w).
  destruct (m w) as [[a|e|msg'] w1]; simpl in *; [done..|].
  by destruct (Hm msg').
Qed.

Lemma noPanic_apiCall {A} verb kind key (act : Cluster -> error + (A * Cluster)) :
  noPanic (apiCall verb kind key act).
Proof.
  intros w msg.
  by destruct (apiCall_cases verb kind key act w) as [[e ->]|(a & c & _ & ->)].
Qed.

Lemma noPanic_deferStatus {A} f (m : M A) : noPanic m → noPanic (deferStatus f m).
Proof.
  intros Hm w msg. unfold deferStatus. specialize (Hm w msg).
  by destruct (m w) as [r w1].
Qed.

Lemma noPanic_modifyStatus f : noPanic (modifyStatus f).
Proof. intros w msg. done. Qed.

Create HintDb nopanic.
#[global] Hint Resolve noPanic_ret noPanic_throw noPanic_lift noPanic_try
  noPanic_apiCall noPanic_deferStatus noPanic_modifyStatus : nopanic.

Ltac no_panic :=
  repeat first
    [ progress eauto with nopanic
    | apply noPanic_bind; [|intros ?]
    | match goal with
      | |- noPanic (match ?x with _ => _ end) => destruct x
      | |- noPanic (if ?x then _ else _) => destruct x
      end ].

Lemma noPanic_CreateOrUpdate {T} `{Object T} `{EqDecision T}
    (obj : T) (mutate : T -> error + T) :
  noPanic (CreateOrUpdate obj mutate).
Proof. unfold CreateOrUpdate, Get, Create, Update. no_panic. Qed.

#[global] Hint Resolve noPanic_CreateOrUpdate : nopanic.

Lemma noPanic_handleService platformAdmin component :
  noPanic (handleService platformAdmin component).
Proof. unfold handleService. no_panic. Qed.

Lemma noPanic_joinYurtAppSet platformAdmin yas readyComponent :
  noPanic (joinYurtAppSet platformAdmin yas readyComponent).
Proof. unfold joinYurtAppSet, Patch. no_panic. Qed.

Lemma noPanic_removeOwner {T} `{Object T} platformAdmin (obj : T) :
  noPanic (removeOwner platformAdmin obj).
Proof. unfold removeOwner, Delete, Update. no_panic. Qed.

#[global] Hint Resolve noPanic_handleService noPanic_joinYurtAppSet
  noPanic_removeOwner : nopanic.

Lemma noPanic_removeOwners {T} `{Object T} platformAdmin need (items : list T) :
  noPanic (removeOwners platformAdmin need items).
Proof. induction items as [|c items IH]; simpl; no_panic. Qed.

#[global] Hint Resolve noPanic_removeOwners : nopanic.

Lemma noPanic_collect (T : Type) `{Object T} platformAdmin label need :
  noPanic (collect T platformAdmin label need).
Proof. unfold collect, List. no_panic. Qed.

#[global] Hint Resolve noPanic_collect : nopanic.

(** *** Workload-sets only appear during synchronization *)

#[global] Instance yasGrows_preorder : PreOrder yasGrows.
Proof.
  split; [by intros w k|].
  intros w1 w2 w3 H12 H23 k Hk. by apply H23, H12.
Qed.

Lemma yasGrows_same w ev c :
  yurtAppSets c = yurtAppSets (cluster w) → yasGrows w (logged w ev c).
Proof. intros E k. simpl. by rewrite E. Qed.

Lemma yasGrows_insert w ev k y :
  yasGrows w (logged w ev (setStore (<[k := y]> (yurtAppSets (cluster w))) (cluster w))).
Proof.
  intros k' Hk. simpl. rewrite lookup_insert_is_Some.
  destruct (decide (k = k')); [by left | by right].
Qed.

Ltac preserves_step R :=
  first
    [ apply (preserves_ret R) | apply (preserves_throw R)
    | apply (preserves_panic R) | apply (preserves_lift R)
    | apply (preserves_try R)
    | apply (preserves_bind R); [|intros ?]
    | match goal with
      | |- preserves _ (match ?x with _ => _ end) => destruct x
      | |- preserves _ (if ?x then _ else _) => destruct x
      end ].

Lemma yasGrows_Get {T} `{Object T} key : preserves yasGrows (Get (T:=T) key).
Proof.
  apply (preserves_apiCall yasGrows); [intros; by apply yasGrows_same|].
  intros w a c Hact. destruct (storeOf (cluster w) !! key); simplify_eq.
  by apply yasGrows_same.
Qed.

Lemma yasGrows_CreateOrUpdate_Service obj mutate :
  preserves yasGrows (CreateOrUpdate (T:=Service) obj mutate).
Proof.
  unfold CreateOrUpdate, Create, Update.
  repeat first [ apply yasGrows_Get | preserves_step yasGrows ];
    (apply (preserves_apiCall yasGrows); [intros; by apply yasGrows_same|]);
    intros w1 a1 c1 Hact;
    destruct (storeOf (cluster w1) !! _); simplify_eq; by apply yasGrows_same.
Qed.

Lemma yasGrows_handleService platformAdmin component :
  preserves yasGrows (handleService platformAdmin component).
Proof.
  unfold handleService.
  repeat first [ apply yasGrows_CreateOrUpdate_Service | preserves_step yasGrows ].
Qed.

Lemma yasGrows_Create (yas : YurtAppSet) : preserves yasGrows (Create yas).
Proof.
  apply (preserves_apiCall yasGrows); [intros; by apply yasGrows_same|].
  intros w a c Hact. simpl in Hact.
  destruct (yurtAppSets (cluster w) !! objectKey yas); simplify_eq.
  apply yasGrows_insert.
Qed.

Lemma yasGrows_Patch (yas : YurtAppSet) : preserves yasGrows (Patch yas).
Proof.
  apply (preserves_apiCall yasGrows); [intros; by apply yasGrows_same|].
  intros w a c Hact. simpl in Hact.
  destruct (yurtAppSets (cluster w) !! objectKey yas); simplify_eq.
  apply yasGrows_insert.
Qed.

Lemma yasGrows_syncComponent platformAdmin c readyComponent :
  preserves yasGrows (syncComponent platformAdmin c readyComponent).
Proof.
  unfold syncComponent, handleYurtAppSet, joinYurtAppSet.
  repeat first [ apply yasGrows_handleService | apply yasGrows_Get
               | apply yasGrows_Create | apply yasGrows_Patch
               | preserves_step yasGrows ].
Qed.

Lemma Get_cases {T} `{Object T} (key : string * string) w :
  (∃ msg, Get (T:=T) key w =
            (Err (ErrInjected msg),
             logged w (event VGet (kindOf T) key (Some (ErrInjected msg))) (cluster w))) ∨
  (storeOf (cluster w) !! key = None ∧
   Get (T:=T) key w =
     (Err ErrNotFound, logged w (event VGet (kindOf T) key (Some ErrNotFound)) (cluster w))) ∨
  (∃ obj, storeOf (cluster w) !! key = Some obj ∧
          Get (T:=T) key w =
            (Ok obj, logged w (event VGet (kindOf T) key None) (cluster w))).
Proof.
  unfold Get, apiCall, event.
  destruct (faults w) as [|[msg|] rest]; eauto;
    destruct (storeOf (cluster w) !! key) as [obj|]; eauto.
Qed.

Lemma noPanic_handleYurtAppSet platformAdmin component :
  comp_Deployment component ≠ None →
  noPanic (handleYurtAppSet platformAdmin component).
Proof.
  intros Hd. unfold handleYurtAppSet, Create.
  destruct (comp_Deployment component); [|done]. no_panic.
Qed.

Lemma syncComponent_safe platformAdmin c readyComponent w msg :
  comp_Deployment c ≠ None ∨
    is_Some (yurtAppSets (cluster w) !! yasKey platformAdmin c) →
  fst (syncComponent platformAdmin c readyComponent w) ≠ Panic msg.
Proof.
  intros Hpre. unfold syncComponent, bind at 1.
  pose proof (noPanic_handleService platformAdmin c w) as Hsvc.
  pose proof (yasGrows_handleService platformAdmin c w) as Hgrow.
  destruct (handleService platformAdmin c w) as [[o|e|msg'] w1];
    simpl in *; [|done|by destruct (Hsvc msg')].
  unfold bind, try.
  destruct (Get_cases (T:=YurtAppSet)
              (om_Namespace (pa_meta platformAdmin), comp_Name c) w1)
    as [[m ->]|[[Hnone ->]|(yas & Hsome & ->)]]; simpl.
  - done.
  - destruct Hpre as [Hd|Hex].
    + pose proof (noPanic_handleYurtAppSet platformAdmin c Hd
                    (logged w1 (event VGet KYurtAppSet
                                  (om_Namespace (pa_meta platformAdmin), comp_Name c)
                                  (Some ErrNotFound)) (cluster w1)) msg) as Hy.
      destruct (handleYurtAppSet _ _ _) as [[y|e|msg'] w2]; unfold ret; simpl in *;
        [done|done|by intros [= ->]].
    + apply Hgrow in Hex. unfold yasKey in Hex. simpl in Hnone.
      rewrite Hnone in Hex. by destruct Hex.
  - apply noPanic_joinYurtAppSet.
Qed.

Lemma syncComponents_safe platformAdmin total cs readyComponent need w msg :
  (∀ c, c ∈ cs → comp_Deployment c ≠ None ∨
                 is_Some (yurtAppSets (cluster w) !! yasKey platformAdmin c)) →
  fst (syncComponents platformAdmin total cs readyComponent need w) ≠ Panic msg.
Proof.
  revert readyComponent need w.
  induction cs as [|c cs IH]; intros readyComponent need w Hpre; simpl; [done|].
  unfold bind, onAbort.
  pose proof (syncComponent_safe platformAdmin c readyComponent w) as Hsafe.
  pose proof (yasGrows_syncComponent platformAdmin c readyComponent w) as Hgrow.
  destruct (syncComponent platformAdmin c readyComponent w) as [[r|e|msg'] w1];
    simpl in *.
  - apply IH. intros c' Hc'.
    destruct (Hpre c') as [?|Hex]; [by right|by left|right; by apply Hgrow].
  - done.
  - destruct (Hsafe msg'); [|done]. apply Hpre. by left.
Qed.


(** *** CreateOrUpdate without API failures *)

Lemma ownedBy_ok {T} `{ObjectLaws T} platformAdmin (obj : T) :
  om_Namespace (metaOf obj) = om_Namespace (pa_meta platformAdmin) →
  ownedBy platformAdmin obj =
    inr (setMeta (withOwnerReferences
                    (upsertOwnerRef (ownerRefOf (pa_meta platformAdmin))
                       (om_OwnerReferences (metaOf obj))) (metaOf obj)) obj).
Proof.
  intros Hns. unfold ownedBy, SetOwnerReference, validateOwner.
  destruct (decide (om_Namespace (pa_meta platformAdmin) = "")); [done|].
  by rewrite decide_True.
Qed.

Lemma objectKey_owned {T} `{ObjectLaws T} owners (obj : T) :
  objectKey (setMeta (withOwnerReferences owners (metaOf obj)) obj) = objectKey obj.
Proof. unfold objectKey. by rewrite metaOf_setMeta. Qed.

(** What CreateOrUpdate with the owner-reference mutation does when no
    call fails: the object under the key (the given one when there is
    none) is stored with the parent's reference upserted. *)
Lemma CreateOrUpdate_ok {T} `{ObjectLaws T} `{EqDecision T}
    platformAdmin (obj : T) w :
  (∀ stored new : T, onUpdate stored new = new) →
  faults w = [] →
  wfStore (storeOf (T:=T) (cluster w)) →
  om_Namespace (metaOf obj) = om_Namespace (pa_meta platformAdmin) →
  let base := default obj (storeOf (cluster w) !! objectKey obj) in
  let o := setMeta (withOwnerReferences
                      (upsertOwnerRef (ownerRefOf (pa_meta platformAdmin))
                         (om_OwnerReferences (metaOf base))) (metaOf base)) base in
  ∃ w', CreateOrUpdate obj (ownedBy platformAdmin) w = (Ok o, w') ∧
        cluster w' = setStore (<[objectKey obj := o]> (storeOf (cluster w))) (cluster w) ∧
        faults w' = [] ∧ statusCell w' = statusCell w.
Proof.
  intros Hupd Hf Hwf Hns base o. unfold CreateOrUpdate, bind at 1, try.
  destruct (Get_cases (T:=T) (objectKey obj) w)
    as [[m Hg]|[[Hnone ->]|(stored & Hsome & ->)]].
  { unfold Get in Hg. rewrite apiCall_no_fault in Hg by done.
    destruct (storeOf (cluster w) !! objectKey obj); simplify_eq. }
  - cbn [IsNotFound]. subst base o. rewrite Hnone. cbn [default from_option id].
    rewrite ownedBy_ok by done. unfold lift, bind, ret.
    unfold Create. rewrite apiCall_no_fault by (by apply faults_logged).
    rewrite objectKey_owned. cbn [cluster logged]. rewrite Hnone.
    eexists. split; [done|]. split; [done|]. split; [|done].
    by apply faults_logged, faults_logged.
  - subst base o. rewrite Hsome. cbn [default from_option id].
    assert (objectKey stored = objectKey obj) as Hkey by (by apply Hwf in Hsome).
    assert (om_Namespace (metaOf stored) = om_Namespace (pa_meta platformAdmin)) as Hns'.
    { unfold objectKey in Hkey. simplify_eq. congruence. }
    rewrite ownedBy_ok by done. unfold lift, bind, ret.
    destruct (decide _) as [E|E].
    + eexists. split; [done|]. cbn [cluster logged]. rewrite <- E.
      rewrite insert_id by done. rewrite setStore_storeOf.
      split; [done|]. split; [|done]. by apply faults_logged.
    + unfold Update. rewrite apiCall_no_fault by (by apply faults_logged).
      rewrite objectKey_owned, Hkey. cbn [cluster logged]. rewrite Hsome, Hupd.
      eexists. split; [done|]. split; [done|]. split; [|done].
      by apply faults_logged, faults_logged.
Qed.

Lemma handleService_ok platformAdmin c w :
  faults w = [] → wfStore (services (cluster w)) →
  ∃ o w',
    handleService platformAdmin c w = (Ok o, w') ∧
    faults w' = [] ∧ statusCell w' = statusCell w ∧
    cluster w' =
      match comp_Service c with
      | None => cluster w
      | Some spec =>
          let fresh := newService platformAdmin c spec in
          let base := default fresh (services (cluster w) !! objectKey fresh) in
          setStore (<[objectKey fresh :=
                       setMeta (withOwnerReferences
                                  (upsertOwnerRef (ownerRefOf (pa_meta platformAdmin))
                                     (om_OwnerReferences (metaOf base)))
                                  (metaOf base)) base]>
                      (services (cluster w))) (cluster w)
      end.
Proof.
  intros Hf Hwf. unfold handleService.
  destruct (comp_Service c) as [spec|]; [|by eexists _, _].
  destruct (CreateOrUpdate_ok platformAdmin (newService platformAdmin c spec) w)
    as (w' & Hrun & Hcl & Hf' & Hst); [done..|].
  unfold bind. rewrite Hrun. by eexists _, _.
Qed.

(** C10. A desired component without a workload spec whose workload-set
    does not exist makes the synchronizer panic on the nil pointer (first
    part: in a run without API failures over a well-formed store, the
    iteration for such a component ends in that panic); and the
    synchronizer does not panic when every desired component carries a
    workload spec or its workload-set is already there (second part, for
    every cluster and every pattern of API failures). *)
Theorem workload_spec_required
    (unmarshalDeployments : string -> error + list DeploymentTemplateSpec)
    (unmarshalServices : string -> error + list ServiceTemplateSpec)
    (Configration : PlatformAdminControllerConfiguration)
    (platformAdmin : PlatformAdmin) (w : World) :
  (∀ c readyComponent,
     comp_Deployment c = None →
     yurtAppSets (cluster w) !! yasKey platformAdmin c = None →
     faults w = [] → wfStore (services (cluster w)) →
     ∃ w', syncComponent platformAdmin c readyComponent w =
             (Panic "invalid memory address or nil pointer dereference", w')) ∧
  (∀ desired,
     desiredComponents unmarshalDeployments unmarshalServices
       Configration platformAdmin = inr desired →
     (∀ c, c ∈ desired →
           comp_Deployment c ≠ None ∨
           is_Some (yurtAppSets (cluster w) !! yasKey platformAdmin c)) →
     ∀ msg, fst (reconcileComponent unmarshalDeployments unmarshalServices
                   Configration platformAdmin w) ≠ Panic msg).
Proof.
  split.
  - intros c readyComponent Hd Hnone Hf Hwf. unfold syncComponent, bind at 1.
    destruct (handleService_ok platformAdmin c w Hf Hwf)
      as (o & w1 & -> & Hf1 & _ & Hcl).
    assert (yurtAppSets (cluster w1) = yurtAppSets (cluster w)) as Hyas
      by (rewrite Hcl; by destruct (comp_Service c)).
    unfold bind, try, Get. rewrite apiCall_no_fault by done.
    cbn [storeOf YurtAppSet_Object]. rewrite Hyas.
    unfold yasKey in Hnone. rewrite Hnone. cbn [IsNotFound].
    unfold handleYurtAppSet. rewrite Hd. by eexists.
  - intros desired Hdes Hpre msg. unfold reconcileComponent.
    rewrite Hdes. unfold bind at 1. simpl. unfold bind at 1.
    pose proof (syncComponents_safe platformAdmin (length desired) desired 0 ∅
                  w) as Hsafe.
    destruct (syncComponents _ _ _ _ _ w) as [[[r need]|e|msg'] w1]; simpl in *.
    + apply noPanic_deferStatus. unfold List. no_panic.
    + done.
    + by destruct (Hsafe msg').
Qed.

(** ** Deletion *)

Lemma Patch_cases {T} `{Object T} (obj : T) w :
  (∃ e, Patch obj w =
          (Err e, logged w (event VPatch (kindOf T) (objectKey obj) (Some e)) (cluster w))) ∨
  (∃ stored, storeOf (cluster w) !! objectKey obj = Some stored ∧
             Patch obj w =
               (Ok tt, logged w (event VPatch (kindOf T) (objectKey obj) None)
                         (setStore (<[objectKey obj := onUpdate stored obj]>
                                      (storeOf (cluster w))) (cluster w)))).
Proof.
  unfold Patch.
  destruct (apiCall_cases VPatch (kindOf T) (objectKey obj)
              (λ c, match storeOf c !! objectKey obj with
                    | Some stored =>
                        inr (tt, setStore (<[objectKey obj := onUpdate stored obj]>
                                             (storeOf c)) c)
                    | None => inl ErrNotFound
                    end) w) as [[e ->]|(a & c & Hact & ->)]; [eauto|].
  right. destruct (storeOf (cluster w) !! objectKey obj) as [stored|]; [|done].
  simplify_eq. eauto.
Qed.

Lemma Update_cases {T} `{Object T} (obj : T) w :
  (∃ e, Update obj w =
          (Err e, logged w (event VUpdate (kindOf T) (objectKey obj) (Some e)) (cluster w))) ∨
  (∃ stored, storeOf (cluster w) !! objectKey obj = Some stored ∧
             Update obj w =
               (Ok tt, logged w (event VUpdate (kindOf T) (objectKey obj) None)
                         (setStore (<[objectKey obj := onUpdate stored obj]>
                                      (storeOf (cluster w))) (cluster w)))).
Proof.
  unfold Update.
  destruct (apiCall_cases VUpdate (kindOf T) (objectKey obj)
              (λ c, match storeOf c !! objectKey obj with
                    | Some stored =>
                        inr (tt, setStore (<[objectKey obj := onUpdate stored obj]>
                                             (storeOf c)) c)
                    | None => inl ErrNotFound
                    end) w) as [[e ->]|(a & c & Hact & ->)]; [eauto|].
  right. destruct (storeOf (cluster w) !! objectKey obj) as [stored|]; [|done].
  simplify_eq. eauto.
Qed.

Lemma wfStore_update {T} `{ObjectLaws T} (s : gmap (string * string) T)
    (stored obj : T) :
  wfStore s → wfStore (<[objectKey obj := onUpdate stored obj]> s).
Proof.
  intros Hwf. apply map_Forall_insert_2; [|done].
  unfold objectKey. by rewrite onUpdate_meta.
Qed.

Lemma removeMemberships_trace platformAdmin cs w r w' :
  wfStore (yurtAppSets (cluster w)) →
  removeMemberships platformAdmin cs w = (r, w') →
  ∃ new,
    trace w' = trace w ++ new ∧
    platformAdmins (cluster w') = platformAdmins (cluster w) ∧
    wfStore (yurtAppSets (cluster w')) ∧
    Forall (λ ev, ev_Kind ev = KYurtAppSet ∧
                  (ev_Verb ev = VGet ∨ ev_Verb ev = VPatch)) new ∧
    (∀ ev e, ev ∈ new → ev_Verb ev = VPatch → ev_Err ev = Some e → r = Err e) ∧
    (isOk r → ∃ evss, Forall2 (stepDone platformAdmin) cs evss ∧ new = concat evss).
Proof.
  revert w. induction cs as [|dc cs IH]; intros w Hwf; simpl.
  { intros [= <- <-]. exists []. rewrite app_nil_r.
    repeat split; try done.
    - intros ev e Hev. by apply elem_of_nil in Hev.
    - intros _. exists []. by split. }
  unfold bind at 1, try.
  destruct (Get_cases (T:=YurtAppSet) (yasKey platformAdmin dc) w)
    as [[m Hg]|[[Hnone Hg]|(yas & Hsome & Hg)]];
    unfold yasKey in Hg; rewrite Hg; clear Hg.
  1,2: intros Hrun; apply IH in Hrun as (new & Htr & Hpa & Hwf' & Hall & Hpatch & Hok);
       [|done];
       eexists (_ :: new); cbn [trace logged] in Htr;
       rewrite <- (assoc (++)) in Htr; (split; [exact Htr|]);
       (split; [done|]); (split; [done|]);
       (split; [apply Forall_cons; split; [by split; [|left]|done]|]);
       (split; [intros ev e [->|Hev]%elem_of_cons; [done|by apply Hpatch]|]);
       intros Hr; destruct (Hok Hr) as (evss & Hsteps & ->);
       eexists (_ :: evss); (split; [apply Forall2_cons; split; [left; eauto|done]|done]).
  assert (objectKey yas = yasKey platformAdmin dc) as Hkey by (by apply Hwf in Hsome).
  destruct (removePool _ (yas_Pools yas)) as [pools|].
  2:{ intros [= <- <-]. eexists [_]. cbn [trace logged].
      repeat split; try done.
      - apply Forall_singleton. by split; [|left].
      - intros ev e ->%list_elem_of_singleton. done. }
  unfold bind.
  match goal with
  | |- context [Patch ?o ?w0] =>
      destruct (Patch_cases o w0) as [[e Hp]|(stored & Hst & Hp)]
  end; rewrite Hp; clear Hp.
  - intros [= <- <-].
    eexists [_; _]. cbn [trace logged]. rewrite <- (assoc (++)).
    repeat split; try done.
    + repeat apply Forall_cons; repeat split; eauto.
    + intros ev e' [->|[->|Hev]%elem_of_cons]%elem_of_cons; [done| |].
      * intros _ [= ->]. done.
      * by apply elem_of_nil in Hev.
  - intros Hrun. apply IH in Hrun as (new & Htr & Hpa & Hwf' & Hall & Hpatch & Hok).
    2:{ cbn [cluster logged]. by apply (wfStore_update (T:=YurtAppSet)). }
    eexists (_ :: _ :: new). cbn [trace logged] in Htr.
    rewrite <- !(assoc (++)) in Htr. split; [exact Htr|].
    split; [done|]. split; [done|].
    split; [repeat apply Forall_cons; repeat split; eauto|].
    split.
    + intros ev e [->|[->|Hev]%elem_of_cons]%elem_of_cons; [done|done|].
      by apply Hpatch.
    + intros Hr. destruct (Hok Hr) as (evss & Hsteps & ->).
      change (objectKey (withPools pools yas)) with (objectKey yas).
      rewrite Hkey.
      eexists (_ :: evss).
      split; [apply Forall2_cons; split; [by right|done]|done].
Qed.


(** ** The control loop *)

#[global] Instance traceGrows_preorder P : PreOrder (traceGrows P).
Proof.
  split.
  - intros w. exists []. by rewrite app_nil_r.
  - intros w1 w2 w3 (n1 & E1 & H1) (n2 & E2 & H2). exists (n1 ++ n2).
    rewrite E2, E1, (assoc (++)). split; [done|]. by apply Forall_app.
Qed.

Lemma traceGrows_apiCall {A} (P : Event → Prop) verb kind key
    (act : Cluster -> error + (A * Cluster)) :
  (∀ e, P (event verb kind key e)) →
  preserves (traceGrows P) (apiCall verb kind key act).
Proof.
  intros HP. apply (preserves_apiCall (traceGrows P)).
  - intros w e. exists [event verb kind key e]. split; [done|].
    by apply Forall_singleton.
  - intros w a c _. exists [event verb kind key None]. split; [done|].
    by apply Forall_singleton.
Qed.

Lemma removeMemberships_no_status platformAdmin cs :
  preserves (traceGrows notStatusUpdate) (removeMemberships platformAdmin cs).
Proof.
  induction cs as [|dc cs IH]; simpl; unfold Get, Patch;
    repeat first [ apply IH
                 | apply traceGrows_apiCall; by intros e
                 | preserves_step (traceGrows notStatusUpdate) ].
Qed.

Lemma reconcileDelete_no_status uD uS cfg platformAdmin :
  preserves (traceGrows notStatusUpdate) (reconcileDelete uD uS cfg platformAdmin).
Proof.
  unfold reconcileDelete, Update.
  repeat first [ apply removeMemberships_no_status
               | apply traceGrows_apiCall; by intros e
               | preserves_step (traceGrows notStatusUpdate) ].
Qed.

Lemma Reconcile_fetched uD uS cfg request platformAdmin w w1 :
  Get (T:=PlatformAdmin) request w = (Ok platformAdmin, w1) →
  Reconcile uD uS cfg request w =
    match om_DeletionTimestamp (pa_meta platformAdmin) with
    | Some _ =>
        reconcileDelete uD uS cfg platformAdmin
          (withStatusCell (pa_Status platformAdmin) w1)
    | None =>
        deferStatusUpdate platformAdmin (reconcileNormal uD uS cfg platformAdmin)
          (withStatusCell (pa_Status platformAdmin) w1)
    end.
Proof.
  intros Hget. unfold Reconcile, bind, try, modifyStatus. rewrite Hget.
  by destruct (om_DeletionTimestamp (pa_meta platformAdmin)).
Qed.

Lemma Get_ok_trace {T} `{Object T} key w (obj : T) w1 :
  Get key w = (Ok obj, w1) →
  trace w1 = trace w ++ [event VGet (kindOf T) key None] ∧
  cluster w1 = cluster w ∧ storeOf (cluster w) !! key = Some obj.
Proof.
  destruct (Get_cases (T:=T) key w) as [[m ->]|[[Hnone ->]|(o & Hsome & ->)]];
    [done..|]. by intros [= <- <-].
Qed.

(** C2 (as amended).  When the initial fetch of the parent succeeds and the
    parent is not marked for deletion, the pass ends with a status update
    for the parent, whatever the outcome of the pass (success, requeue,
    error or panic); when that update succeeds the stored status is the
    status the pass computed.  When the parent is marked for deletion the
    pass issues no status update at all. *)
Theorem status_update_on_exit
    (unmarshalDeployments : string -> error + list DeploymentTemplateSpec)
    (unmarshalServices : string -> error + list ServiceTemplateSpec)
    (Configration : PlatformAdminControllerConfiguration)
    (request : string * string) (platformAdmin : PlatformAdmin) (w w1 : World) :
  Get (T:=PlatformAdmin) request w = (Ok platformAdmin, w1) →
  let run := Reconcile unmarshalDeployments unmarshalServices Configration request w in
  (om_DeletionTimestamp (pa_meta platformAdmin) = None →
   ∃ evs err,
     trace (snd run) =
       evs ++ [event VStatusUpdate KPlatformAdmin (objectKey platformAdmin) err] ∧
     (err = None →
      pa_Status <$> platformAdmins (cluster (snd run)) !! objectKey platformAdmin
        = Some (statusCell (snd run)))) ∧
  (om_DeletionTimestamp (pa_meta platformAdmin) ≠ None →
   ∃ new, trace (snd run) = trace w ++ new ∧
          Forall (λ ev, ev_Verb ev ≠ VStatusUpdate) new).
Proof.
  intros Hget run. subst run. rewrite (Reconcile_fetched _ _ _ _ _ _ _ Hget).
  apply Get_ok_trace in Hget as (Htr1 & Hcl1 & Hst1).
  destruct (om_DeletionTimestamp (pa_meta platformAdmin)) as [t|]; split; try done.
  - intros _.
    pose proof (reconcileDelete_no_status unmarshalDeployments unmarshalServices
                  Configration platformAdmin
                  (withStatusCell (pa_Status platformAdmin) w1)) as (new & Htr & Hall).
    exists (event VGet KPlatformAdmin request None :: new).
    rewrite Htr. cbn [trace withStatusCell]. rewrite Htr1, <- (assoc (++)).
    split; [done|]. apply Forall_cons. split; [done|exact Hall].
  - intros _. unfold deferStatusUpdate.
    destruct (reconcileNormal _ _ _ _ _) as [r w2].
    unfold StatusUpdate.
    match goal with
    | |- context [apiCall ?v ?k ?key ?act ?w0] =>
        destruct (apiCall_cases v k key act w0) as [[e Hc]|(a & c & Hact & Hc)]
    end; rewrite Hc; clear Hc.
    + eexists _, _. split; [by destruct r|]. by destruct r.
    + eexists _, None. split; [by destruct r|]. intros _.
      destruct (platformAdmins (cluster w2) !! _) as [stored|] eqn:Hst; [|done].
      injection Hact as _ <-.
      destruct r; cbn [snd cluster logged statusCell setStore PlatformAdmin_Object
                         platformAdmins];
        change (objectKey (withStatus (statusCell w2) platformAdmin))
          with (objectKey platformAdmin);
        by rewrite lookup_insert_eq.
Qed.

(** ** Pool membership in the two passes *)

Lemma SetOwnerReference_key owner object m :
  SetOwnerReference owner object = inr m →
  om_Name m = om_Name object ∧ om_Namespace m = om_Namespace object.
Proof.
  unfold SetOwnerReference. destruct (validateOwner owner object); [done|].
  by intros [= <-].
Qed.

Lemma indexOwnerRef_lt owners ref i :
  indexOwnerRef owners ref = Some i → (i < length owners)%nat.
Proof.
  revert i. induction owners as [|r owners IH]; intros i; simpl; [done|].
  destruct (referSameObject r ref); [intros [= <-]; lia|].
  destruct (indexOwnerRef owners ref) as [j|]; [|done].
  intros [= <-]. specialize (IH j eq_refl). lia.
Qed.

Lemma upsertOwnerRef_elem ref owners : ref ∈ upsertOwnerRef ref owners.
Proof.
  unfold upsertOwnerRef. destruct (indexOwnerRef owners ref) as [i|] eqn:Hidx.
  - apply indexOwnerRef_lt in Hidx.
    apply (list_elem_of_lookup_2 _ i). by apply list_lookup_insert_eq.
  - apply elem_of_app. right. by left.
Qed.

Lemma withPools_same (y : YurtAppSet) : withPools (yas_Pools y) y = y.
Proof. by destruct y. Qed.


Lemma removePool_others (poolName : string) (pools pools' : list Pool) :
  removePool poolName pools = Some pools' →
  otherPools poolName pools' ≡ₚ otherPools poolName pools.
Proof.
  unfold removePool.
  destruct (removePoolLoop _ _ _ _ _) as [[arr len]|] eqn:Hloop; [|done].
  intros [= <-]. rewrite (removePoolLoop_others _ _ _ _ _ _ _ Hloop).
  by rewrite firstn_all.
Qed.

Lemma removeMemberships_others platformAdmin cs w r w' :
  wfStore (yurtAppSets (cluster w)) →
  removeMemberships platformAdmin cs w = (r, w') →
  wfStore (yurtAppSets (cluster w')) ∧
  ∀ key y, yurtAppSets (cluster w) !! key = Some y →
    ∃ pools',
      yurtAppSets (cluster w') !! key = Some (withPools pools' y) ∧
      otherPools (spec_PoolName (pa_Spec platformAdmin)) pools'
        ≡ₚ otherPools (spec_PoolName (pa_Spec platformAdmin)) (yas_Pools y).
Proof.
  revert w. induction cs as [|dc cs IH]; intros w Hwf; simpl.
  { intros [= <- <-]. split; [done|]. intros key y Hy. exists (yas_Pools y).
    by rewrite withPools_same. }
  unfold bind at 1, try.
  destruct (Get_cases (T:=YurtAppSet) (yasKey platformAdmin dc) w)
    as [[m Hg]|[[Hnone Hg]|(yas & Hsome & Hg)]];
    unfold yasKey in Hg; rewrite Hg; clear Hg.
  1,2: intros Hrun; apply IH in Hrun; [exact Hrun | done].
  assert (objectKey yas = yasKey platformAdmin dc) as Hkey by (by apply Hwf in Hsome).
  destruct (removePool _ (yas_Pools yas)) as [pools|] eqn:Hrem.
  2:{ intros [= <- <-]. split; [done|]. intros key y Hy. exists (yas_Pools y).
      by rewrite withPools_same. }
  unfold bind.
  match goal with
  | |- context [Patch ?o ?w0] =>
      destruct (Patch_cases o w0) as [[e Hp]|(stored & Hst & Hp)]
  end; rewrite Hp; clear Hp.
  { intros [= <- <-]. split; [done|]. intros key y Hy. exists (yas_Pools y).
    by rewrite withPools_same. }
  change (objectKey (withPools pools yas)) with (objectKey yas) in *.
  cbn [cluster logged storeOf YurtAppSet_Object] in Hst.
  rewrite Hkey in Hst. rewrite Hkey.
  assert (stored = yas) as -> by (unfold yasKey in *; simpl in *; congruence).
  intros Hrun. apply IH in Hrun as [Hwf' Hkeep].
  2:{ change (wfStore (<[yasKey platformAdmin dc := onUpdate yas (withPools pools yas)]>
                         (yurtAppSets (cluster w)))).
      rewrite <- Hkey.
      exact (wfStore_update (T:=YurtAppSet) _ yas (withPools pools yas) Hwf). }
  split; [done|]. intros key y Hy.
  destruct (decide (key = yasKey platformAdmin dc)) as [->|Hne].
  - assert (y = yas) as -> by (unfold yasKey in *; simpl in *; congruence).
    destruct (Hkeep (yasKey platformAdmin dc) (withPools pools yas))
      as (pools' & Hlook & Hperm).
    { cbn [cluster logged setStore storeOf YurtAppSet_Object yurtAppSets onUpdate].
      rewrite lookup_insert_eq. by destruct yas. }
    exists pools'. split; [exact Hlook|].
    rewrite Hperm. cbn [yas_Pools withPools]. by apply removePool_others.
  - apply Hkeep.
    cbn [cluster logged setStore storeOf YurtAppSet_Object yurtAppSets].
    by rewrite lookup_insert_ne.
Qed.

(** C9.  The swap-with-last removal keeps every entry of the other parents:
    whenever it returns, the entries whose name is not the parent's pool
    name are the same as before, up to their order; under the invariant "at
    most one entry per pool name" it always returns, and no entry of the
    parent is left.  For the whole deletion pass: every workload-set of
    the cluster is still there afterwards, changed at most in its pool
    list, and that list has the entries of the other parents it had. *)
Theorem other_pool_entries_kept (poolName : string) (pools : list Pool) :
  (∀ pools', removePool poolName pools = Some pools' →
             otherPools poolName pools' ≡ₚ otherPools poolName pools) ∧
  ((countPool poolName pools ≤ 1)%nat →
   ∃ pools', removePool poolName pools = Some pools' ∧
             countPool poolName pools' = 0%nat) ∧
  (∀ uD uS cfg platformAdmin w,
     spec_PoolName (pa_Spec platformAdmin) = poolName →
     wfStore (yurtAppSets (cluster w)) →
     ∀ key y, yurtAppSets (cluster w) !! key = Some y →
       ∃ pools',
         yurtAppSets (cluster (snd (reconcileDelete uD uS cfg platformAdmin w)))
           !! key = Some (withPools pools' y) ∧
         otherPools poolName pools' ≡ₚ otherPools poolName (yas_Pools y)).
Proof.
  split; [|split].
  - intros pools'. apply removePool_others.
  - intros Hc. unfold removePool.
    destruct (removePoolLoop_unique poolName (length pools) 0 pools)
      as (arr & len & -> & Hzero); [by apply Forall_nil|done|].
    eexists. split; [done|]. apply Hzero. lia.
  - intros uD uS cfg platformAdmin w <- Hwf key y Hy. unfold reconcileDelete.
    destruct (desiredComponents _ _ _ _) as [err|desired].
    { exists (yas_Pools y). by rewrite withPools_same. }
    unfold lift, bind at 1, ret. unfold bind at 1.
    destruct (removeMemberships platformAdmin desired w) as [r1 w1] eqn:Hloop.
    destruct (removeMemberships_others _ _ _ _ _ Hwf Hloop) as [_ Hkeep].
    destruct (Hkeep key y Hy) as (pools' & Hlook & Hperm).
    destruct r1 as [u|e|msg]; [|by exists pools'..].
    unfold bind.
    match goal with
    | |- context [Update ?o ?w0] =>
        destruct (Update_cases o w0) as [[e Hu]|(stored & Hst & Hu)]
    end; rewrite Hu; clear Hu; by exists pools'.
Qed.

(** ** Garbage collection *)

Section Collection.

Context {T : Type} `{ObjectLaws T}.
Context (platformAdmin : PlatformAdmin).

Lemma Delete_ok (obj stored : T) w :
  faults w = [] →
  storeOf (cluster w) !! objectKey obj = Some stored →
  Delete obj w =
    (Ok tt, logged w (event VDelete (kindOf T) (objectKey obj) None)
              (setStore (delete (objectKey obj) (storeOf (cluster w))) (cluster w))).
Proof.
  intros Hf Hst. unfold Delete. rewrite apiCall_no_fault by done. by rewrite Hst.
Qed.

Lemma Update_ok (obj stored : T) w :
  faults w = [] →
  storeOf (cluster w) !! objectKey obj = Some stored →
  Update obj w =
    (Ok tt, logged w (event VUpdate (kindOf T) (objectKey obj) None)
              (setStore (<[objectKey obj := onUpdate stored obj]>
                           (storeOf (cluster w))) (cluster w))).
Proof.
  intros Hf Hst. unfold Update. rewrite apiCall_no_fault by done. by rewrite Hst.
Qed.

Lemma Patch_ok (obj stored : T) w :
  faults w = [] →
  storeOf (cluster w) !! objectKey obj = Some stored →
  Patch obj w =
    (Ok tt, logged w (event VPatch (kindOf T) (objectKey obj) None)
              (setStore (<[objectKey obj := onUpdate stored obj]>
                           (storeOf (cluster w))) (cluster w))).
Proof.
  intros Hf Hst. unfold Patch. rewrite apiCall_no_fault by done. by rewrite Hst.
Qed.

(** removeOwner on an object as it is stored, when no call fails. *)
Lemma removeOwner_ok (obj : T) w :
  faults w = [] →
  storeOf (cluster w) !! objectKey obj = Some obj →
  ∃ w', removeOwner platformAdmin obj w = (Ok tt, w') ∧
        faults w' = [] ∧ statusCell w' = statusCell w ∧
        cluster w' =
          setStore (partial_alter (λ _, collected platformAdmin obj)
                      (objectKey obj) (storeOf (cluster w))) (cluster w).
Proof.
  intros Hf Hst. unfold removeOwner, collected.
  destruct (trimOwners _ _) as [owners|].
  - destruct (decide (length owners = 0%nat)).
    + rewrite (Delete_ok _ _ _ Hf Hst). eexists. split; [done|].
      split; [by apply faults_logged|]. split; [done|]. done.
    + assert (objectKey (setMeta (withOwnerReferences owners (metaOf obj)) obj)
              = objectKey obj) as Hkey by apply objectKey_owned.
      rewrite (Update_ok _ obj) by (by rewrite ?Hkey).
      eexists. split; [done|]. split; [by apply faults_logged|]. split; [done|].
      cbn [cluster logged]. by rewrite Hkey, onUpdate_setMeta.
  - eexists. split; [done|]. split; [done|]. split; [done|].
    rewrite <- Hst, partial_alter_self. by rewrite setStore_storeOf.
Qed.

Lemma removeOwners_ok (need : gset string) (items : list T) w :
  faults w = [] →
  NoDup (objectKey <$> items) →
  (∀ c, c ∈ items → storeOf (cluster w) !! objectKey c = Some c) →
  ∃ w' s',
    removeOwners platformAdmin need items w = (Ok tt, w') ∧
    faults w' = [] ∧ statusCell w' = statusCell w ∧
    cluster w' = setStore s' (cluster w) ∧
    (∀ key, key ∉ objectKey <$> items → s' !! key = storeOf (cluster w) !! key) ∧
    (∀ c, c ∈ items →
          s' !! objectKey c =
            if decide (om_Name (metaOf c) ∈ need) then Some c
            else collected platformAdmin c).
Proof.
  revert w. induction items as [|c items IH]; intros w Hf Hnd Hstored; simpl.
  { exists w, (storeOf (cluster w)). rewrite setStore_storeOf.
    repeat split; try done. intros c Hc. by apply elem_of_nil in Hc. }
  apply NoDup_cons in Hnd as [Hc Hnd].
  assert (∃ w1,
    (if decide (om_Name (metaOf c) ∈ need) then ret tt
     else (_ <- try (removeOwner platformAdmin c) ;; ret tt)%go) w = (Ok tt, w1) ∧
    faults w1 = [] ∧ statusCell w1 = statusCell w ∧
    cluster w1 =
      setStore (partial_alter
                  (λ _, if decide (om_Name (metaOf c) ∈ need) then Some c
                        else collected platformAdmin c)
                  (objectKey c) (storeOf (cluster w))) (cluster w))
    as (w1 & Hstep & Hf1 & Hcell1 & Hcl1).
  { destruct (decide (om_Name (metaOf c) ∈ need)).
    - exists w. repeat split; try done.
      rewrite <- (Hstored c) by (by left).
      by rewrite partial_alter_self, setStore_storeOf.
    - destruct (removeOwner_ok c w Hf) as (w1 & Hrun & ? & ? & ?);
        [apply Hstored; by left|].
      exists w1. unfold bind, try. rewrite Hrun. done. }
  unfold bind at 1. rewrite Hstep.
  destruct (IH w1 Hf1 Hnd) as (w' & s' & Hrun & Hf' & Hcell' & Hcl' & Hout & Hin).
  { intros c' Hc'. rewrite Hcl1, storeOf_setStore.
    rewrite lookup_partial_alter_ne.
    - apply Hstored. by right.
    - intros E. apply Hc. rewrite E. by apply list_elem_of_fmap_2. }
  exists w', s'. split; [done|]. split; [done|]. split; [congruence|].
  split; [by rewrite Hcl', Hcl1, setStore_setStore|]. split.
  - intros key Hkey. rewrite not_elem_of_cons in Hkey. destruct Hkey as [Hne Hkey].
    rewrite (Hout key Hkey), Hcl1, storeOf_setStore.
    by rewrite lookup_partial_alter_ne.
  - intros c' [->|Hc']%elem_of_cons; [|by apply Hin].
    rewrite (Hout _ Hc), Hcl1, storeOf_setStore.
    by rewrite lookup_partial_alter_eq.
Qed.

Lemma listed_elem (s : gmap (string * string) T) namespace k v (c : T) :
  wfStore s →
  c ∈ filter (selected namespace k v) (snd <$> map_to_list s) ↔
  selected namespace k v c ∧ s !! objectKey c = Some c.
Proof.
  intros Hwf. rewrite list_elem_of_filter, list_elem_of_fmap. split.
  - intros [Hsel ([key c'] & -> & Hin)]. split; [done|].
    apply elem_of_map_to_list in Hin. simpl.
    by rewrite (Hwf _ _ Hin).
  - intros [Hsel Hst]. split; [done|]. exists (objectKey c, c). split; [done|].
    by apply elem_of_map_to_list.
Qed.

Lemma listed_NoDup (s : gmap (string * string) T) namespace k v :
  wfStore s →
  NoDup (objectKey <$> filter (selected namespace k v) (snd <$> map_to_list s)).
Proof.
  intros Hwf.
  eapply sublist_NoDup; [|apply fmap_sublist, sublist_filter].
  rewrite <- list_fmap_compose.
  assert (objectKey ∘ snd <$> map_to_list s = fst <$> map_to_list s) as ->.
  { apply list_fmap_ext. intros i [key c] Hi. simpl.
    apply list_elem_of_lookup_2, elem_of_map_to_list in Hi. by apply Hwf in Hi. }
  apply NoDup_fst_map_to_list.
Qed.

(** A collection pass, when no call fails: every stored object that is
    selected by the label and not needed is replaced by what
    [collected] gives; nothing else changes. *)
Lemma collect_ok (label : string) (need : gset string) w :
  faults w = [] →
  wfStore (storeOf (T:=T) (cluster w)) →
  ∃ w', collect T platformAdmin label need w = (Ok tt, w') ∧
        faults w' = [] ∧ statusCell w' = statusCell w ∧
        cluster w' =
          setStore (omap (collectOne platformAdmin label need)
                      (storeOf (cluster w))) (cluster w).
Proof.
  intros Hf Hwf. unfold collect, bind, try, List.
  rewrite apiCall_no_fault by done.
  match goal with
  | |- context [removeOwners _ _ ?items ?w0] =>
      destruct (removeOwners_ok need items w0)
        as (w' & s' & Hrun & Hf' & Hcell & Hcl & Hout & Hin)
  end.
  - by apply faults_logged.
  - by apply listed_NoDup.
  - intros c Hc. by apply listed_elem in Hc as [_ Hc].
  - exists w'. rewrite Hrun. split; [done|]. split; [done|]. split; [done|].
    rewrite Hcl. cbn [cluster logged]. f_equal.
    apply map_eq. intros key. rewrite lookup_omap.
    cbn [cluster logged] in Hout, Hin.
    destruct (storeOf (cluster w) !! key) as [obj|] eqn:Hst; simpl.
    + assert (objectKey obj = key) as Hkey by (by apply Hwf in Hst).
      unfold collectOne. destruct (decide _) as [[Hsel Hneed]|Hno].
      * rewrite <- Hkey, Hin by (apply listed_elem; [done|]; by rewrite Hkey).
        by rewrite decide_False.
      * destruct (decide (selected (om_Namespace (pa_meta platformAdmin))
                            LabelPlatformAdminGenerate label obj)) as [Hsel|Hsel].
        -- rewrite <- Hkey, Hin by (apply listed_elem; [done|]; by rewrite Hkey).
           rewrite decide_True; [done|].
           destruct (decide (om_Name (metaOf obj) ∈ need)); [done|].
           destruct Hno. done.
        -- rewrite Hout, Hst; [done|].
           intros (c & -> & Hc)%list_elem_of_fmap.
           apply listed_elem in Hc as [Hsel' Hc]; [|done].
           rewrite Hst in Hc. by simplify_eq.
    + rewrite Hout, Hst; [done|].
      intros (c & -> & Hc)%list_elem_of_fmap.
      apply listed_elem in Hc as [Hsel' Hc]; [|done]. by rewrite Hst in Hc.
Qed.

End Collection.

(** *** The synchronization loop only touches the desired names *)

Lemma frame_refl K w : faults w = [] → wfCluster (cluster w) → frame K w w.
Proof. intros Hf Hwf. do 4 (split; [done|]). by intros. Qed.

Lemma frame_same K w w' :
  cluster w' = cluster w → faults w' = [] → wfCluster (cluster w) → frame K w w'.
Proof. intros E Hf Hwf. unfold frame. rewrite E. by do 4 (split; [done|]). Qed.

Lemma frame_trans (K1 K2 K : string * string → Prop) w1 w2 w3 :
  (∀ k, K1 k → K k) → (∀ k, K2 k → K k) →
  frame K1 w1 w2 → frame K2 w2 w3 → frame K w1 w3.
Proof.
  intros H1 H2 (_ & _ & Hp1 & Hc1 & Hk1) (Hf & Hwf & Hp2 & Hc2 & Hk2).
  split; [done|]. split; [done|]. split; [congruence|]. split; [congruence|].
  intros k Hk. destruct (Hk1 k) as [E1 E2]; [by intros ?%H1|].
  destruct (Hk2 k) as [E3 E4]; [by intros ?%H2|]. split; congruence.
Qed.

Lemma handleService_frame platformAdmin c w :
  faults w = [] → wfCluster (cluster w) →
  ∃ o w', handleService platformAdmin c w = (Ok o, w') ∧
          statusCell w' = statusCell w ∧
          frame (λ k, k = yasKey platformAdmin c) w w' ∧
          yurtAppSets (cluster w') = yurtAppSets (cluster w).
Proof.
  intros Hf (Hwp & Hwc & Hws & Hwy).
  destruct (handleService_ok platformAdmin c w Hf Hws)
    as (o & w' & Hrun & Hf' & Hcell & Hcl).
  exists o, w'. split; [done|]. split; [done|]. unfold frame, wfCluster.
  destruct (comp_Service c) as [spec|].
  - cbv zeta in Hcl. rewrite Hcl.
    cbn [setStore Service_Object platformAdmins configMaps services yurtAppSets].
    split; [|done]. split; [done|]. split.
    { split; [done|]. split; [done|]. split; [|done].
      apply map_Forall_insert_2; [|done].
      rewrite objectKey_owned.
      destruct (services (cluster w) !! objectKey (newService platformAdmin c spec))
        as [stored|] eqn:Hst; [|done].
      by apply Hws in Hst. }
    split; [done|]. split; [done|]. intros k Hk. split; [|done].
    apply lookup_insert_ne. intros <-. by apply Hk.
  - rewrite Hcl. split; [|done]. by repeat split.
Qed.

Lemma syncComponent_frame platformAdmin c readyComponent w :
  faults w = [] → wfCluster (cluster w) →
  frame (λ k, k = yasKey platformAdmin c) w
        (snd (syncComponent platformAdmin c readyComponent w)).
Proof.
  intros Hf Hwf. unfold syncComponent, bind at 1.
  destruct (handleService_frame platformAdmin c w Hf Hwf)
    as (o & w1 & -> & _ & Hfr & Hyas).
  eapply (frame_trans (λ k, k = yasKey platformAdmin c)
                      (λ k, k = yasKey platformAdmin c)); [done|done|exact Hfr|].
  destruct Hfr as (Hf1 & (Hwp & Hwc & Hws & Hwy) & _).
  clear Hyas Hf Hwf w. rename w1 into w.
  unfold bind, try, Get. rewrite apiCall_no_fault by done.
  cbn [storeOf YurtAppSet_Object].
  destruct (yurtAppSets (cluster w) !! _) as [yas|] eqn:Hst; cbn [IsNotFound].
  - (* the workload-set exists *)
    apply Hwy in Hst as Hkey.
    unfold joinYurtAppSet.
    destruct (yst_PoolReplicas (yas_Status yas) !! _).
    { destruct (decide _);
        (apply frame_same; [done|by apply faults_logged|done]). }
    rewrite ownedBy_ok.
    2:{ unfold objectKey in Hkey. cbn in *. by simplify_eq. }
    unfold lift, bind, ret.
    match goal with
    | |- context [Patch ?obj ?wx] =>
        assert (objectKey obj = yasKey platformAdmin c) as Hk by exact Hkey;
        rewrite (Patch_ok obj yas wx)
          by (first [by apply faults_logged | by rewrite ?Hk])
    end.
    cbn [snd]. split; [by apply faults_logged, faults_logged|]. rewrite Hk.
    cbn [cluster logged setStore YurtAppSet_Object platformAdmins configMaps
           services yurtAppSets].
    split.
    { repeat split; try done. apply map_Forall_insert_2; [|done]. exact Hkey. }
    split; [done|]. split; [done|]. intros k Hne. split; [done|].
    apply lookup_insert_ne. intros <-. by apply Hne.
  - (* it does not: handleYurtAppSet *)
    unfold handleYurtAppSet.
    destruct (comp_Deployment c) as [spec|];
      [|apply frame_same; [done|by apply faults_logged|done]].
    assert (SetControllerReference (pa_meta platformAdmin)
              (yas_meta (newYurtAppSet platformAdmin c spec))
            = inr (withOwnerReferences [controllerRefOf (pa_meta platformAdmin)]
                     (yas_meta (newYurtAppSet platformAdmin c spec)))) as ->.
    { unfold SetControllerReference, validateOwner. cbn.
      destruct (decide (om_Namespace (pa_meta platformAdmin) = "")); [done|].
      by rewrite decide_True. }
    unfold lift, bind, ret, Create.
    rewrite apiCall_no_fault by (by apply faults_logged).
    cbn [storeOf YurtAppSet_Object cluster logged].
    change (objectKey (withYasMeta _ (newYurtAppSet platformAdmin c spec)))
      with (yasKey platformAdmin c).
    unfold yasKey. rewrite Hst. cbn [snd].
    split; [by apply faults_logged, faults_logged|].
    cbn [cluster logged setStore YurtAppSet_Object platformAdmins configMaps
           services yurtAppSets].
    split.
    { repeat split; try done. by apply map_Forall_insert_2. }
    split; [done|]. split; [done|]. intros k Hne. split; [done|].
    apply lookup_insert_ne. intros <-. by apply Hne.
Qed.

Lemma frame_cell K w w' s : frame K w w' → frame K w (withStatusCell s w').
Proof. done. Qed.

Lemma syncComponents_frame platformAdmin total cs readyComponent need w r w' :
  faults w = [] → wfCluster (cluster w) →
  syncComponents platformAdmin total cs readyComponent need w = (r, w') →
  frame (λ k, ∃ c, c ∈ cs ∧ k = yasKey platformAdmin c) w w' ∧
  (∀ ready' need', r = Ok (ready', need') → need' = componentNames cs ∪ need).
Proof.
  revert readyComponent need w.
  induction cs as [|c cs IH]; intros readyComponent need w Hf Hwf; simpl.
  { intros [= <- <-]. split; [by apply frame_refl|].
    intros ready' need' [= _ <-]. unfold componentNames. simpl.
    by rewrite union_empty_l_L. }
  unfold bind, onAbort.
  pose proof (syncComponent_frame platformAdmin c readyComponent w Hf Hwf) as Hfr.
  destruct (syncComponent platformAdmin c readyComponent w) as [[r1|e|msg] w1];
    cbn [snd] in Hfr.
  - intros Hrun. destruct Hfr as (Hf1 & Hwf1 & Hrest).
    apply IH in Hrun as [Hfr2 Hneed]; [|done..]. split.
    + eapply frame_trans; [| |exact (conj Hf1 (conj Hwf1 Hrest))|exact Hfr2].
      * intros k ->. exists c. split; [by left|done].
      * intros k (c' & Hc' & ->). exists c'. split; [by right|done].
    + intros ready' need' Hr. rewrite (Hneed _ _ Hr).
      unfold componentNames. simpl.
      by rewrite (assoc_L (∪)), (comm_L (∪) (list_to_set _) {[_]}).
  - intros [= <- <-]. split; [|done]. apply frame_cell.
    eapply frame_trans;
      [| |exact Hfr|apply (frame_refl (λ _, False)); by destruct Hfr as (?&?&?)].
    + intros k ->. exists c. split; [by left|done].
    + by intros k [].
  - intros [= <- <-]. split; [|done]. apply frame_cell.
    eapply frame_trans;
      [| |exact Hfr|apply (frame_refl (λ _, False)); by destruct Hfr as (?&?&?)].
    + intros k ->. exists c. split; [by left|done].
    + by intros k [].
Qed.

(** What a pass of reconcileComponent that returns normally has done, when
    no call fails: after the synchronization loop, which leaves alone
    every service and workload-set whose name is not a desired one, the
    two collections have run over the labelled services and
    workload-sets with the set of the desired names. *)
Lemma reconcileComponent_collects uD uS cfg platformAdmin desired w r w' :
  faults w = [] → wfCluster (cluster w) →
  desiredComponents uD uS cfg platformAdmin = inr desired →
  reconcileComponent uD uS cfg platformAdmin w = (r, w') →
  isOk r →
  ∃ w1,
    frame (λ k, ∃ c, c ∈ desired ∧ k = yasKey platformAdmin c) w w1 ∧
    services (cluster w') =
      omap (collectOne platformAdmin LabelService (componentNames desired))
           (services (cluster w1)) ∧
    yurtAppSets (cluster w') =
      omap (collectOne platformAdmin LabelDeployment (componentNames desired))
           (yurtAppSets (cluster w1)).
Proof.
  intros Hf Hwf Hdes. unfold reconcileComponent. rewrite Hdes.
  unfold lift, bind at 1, ret. unfold bind at 1.
  destruct (syncComponents _ _ _ _ _ w) as [r1 w1] eqn:Hsync.
  apply syncComponents_frame in Hsync as [Hfr Hneed]; [|done..].
  destruct r1 as [[ready need]|e|msg]; [|by intros [= <- <-] []..].
  assert (need = componentNames desired) as ->
    by (rewrite (Hneed _ _ eq_refl); apply union_empty_r_L).
  destruct Hfr as (Hf1 & Hwf1 & Hrest).
  unfold deferStatus, bind.
  destruct (collect_ok (T:=Service) platformAdmin LabelService
              (componentNames desired) w1) as (w2 & Hc2 & Hf2 & _ & Hcl2);
    [done|by destruct Hwf1 as (?&?&?&?)|].
  rewrite Hc2. cbv beta iota.
  destruct (collect_ok (T:=YurtAppSet) platformAdmin LabelDeployment
              (componentNames desired) w2) as (w3 & Hc3 & Hf3 & _ & Hcl3);
    [done| |].
  { rewrite Hcl2. by destruct Hwf1 as (?&?&?&?). }
  rewrite Hc3. cbv beta iota. unfold ret.
  intros [= <- <-] _. exists w1. split; [exact (conj Hf1 (conj Hwf1 Hrest))|].
  cbn [cluster withStatusCell]. rewrite Hcl3, Hcl2. done.
Qed.

Lemma upsertConfigMaps_ok platformAdmin cms need w :
  faults w = [] → wfCluster (cluster w) →
  ∃ w1,
    upsertConfigMaps platformAdmin cms need w = (Ok (configMapNames cms ∪ need), w1) ∧
    faults w1 = [] ∧ wfCluster (cluster w1) ∧ statusCell w1 = statusCell w ∧
    platformAdmins (cluster w1) = platformAdmins (cluster w) ∧
    services (cluster w1) = services (cluster w) ∧
    yurtAppSets (cluster w1) = yurtAppSets (cluster w) ∧
    ∀ k, (∀ cm, cm ∈ cms →
                k ≠ (om_Namespace (pa_meta platformAdmin), om_Name (cm_meta cm))) →
         configMaps (cluster w1) !! k = configMaps (cluster w) !! k.
Proof.
  revert need w.
  induction cms as [|cm cms IH]; intros need w Hf Hwf; cbn [upsertConfigMaps].
  { exists w. unfold configMapNames. simpl. rewrite union_empty_l_L.
    by do 7 (split; [done|]). }
  set (obj := stampConfigMap platformAdmin cm).
  assert (objectKey obj
          = (om_Namespace (pa_meta platformAdmin), om_Name (cm_meta cm))) as Hkey
    by done.
  destruct Hwf as (Hwp & Hwc & Hws & Hwy).
  destruct (CreateOrUpdate_ok platformAdmin obj w) as (w1 & Hrun & Hcl & Hf1 & Hcell);
    [done..|].
  unfold bind at 1. rewrite Hrun. cbv zeta in Hcl.
  set (base := default obj (configMaps (cluster w) !! objectKey obj)) in *.
  assert (objectKey base = objectKey obj) as Hbase.
  { subst base. cbn [storeOf ConfigMap_Object].
    destruct (configMaps (cluster w) !! objectKey obj) as [stored|] eqn:Hst; [|done].
    by apply Hwc in Hst. }
  destruct (IH ({[om_Name (cm_meta cm)]} ∪ need) w1 Hf1)
    as (w2 & Hrun2 & Hf2 & Hwf2 & Hcell2 & Hp2 & Hs2 & Hy2 & Hk2).
  { rewrite Hcl. repeat split; try done.
    cbn [setStore ConfigMap_Object configMaps].
    apply map_Forall_insert_2; [|done]. by rewrite objectKey_owned. }
  exists w2.
  replace (om_Name (cm_meta (setMeta _ base))) with (om_Name (cm_meta cm)).
  2:{ rewrite Hkey in Hbase. unfold objectKey in Hbase. cbn in *.
      by simplify_eq. }
  rewrite Hrun2. split.
  { f_equal. f_equal. unfold configMapNames. simpl.
    by rewrite (assoc_L (∪)), (comm_L (∪) (list_to_set _) {[_]}). }
  split; [done|]. split; [done|]. split; [congruence|].
  rewrite Hp2, Hs2, Hy2, Hcl.
  cbn [setStore ConfigMap_Object platformAdmins configMaps services yurtAppSets].
  split; [done|]. split; [done|]. split; [done|].
  intros k Hk. rewrite Hk2 by (intros cm' Hcm'; apply Hk; by right).
  rewrite Hcl. cbn [setStore ConfigMap_Object configMaps].
  apply lookup_insert_ne. rewrite Hkey. intros <-. by apply (Hk cm); [left|].
Qed.

Lemma reconcileConfigmap_collects cfg platformAdmin w :
  faults w = [] → wfCluster (cluster w) →
  ∃ w1 w',
    reconcileConfigmap cfg platformAdmin w = (Ok true, w') ∧
    (∀ k, (∀ cm, cm ∈ selectConfigMaps cfg platformAdmin →
                 k ≠ (om_Namespace (pa_meta platformAdmin), om_Name (cm_meta cm))) →
          configMaps (cluster w1) !! k = configMaps (cluster w) !! k) ∧
    configMaps (cluster w') =
      omap (collectOne platformAdmin LabelConfigmap
              (configMapNames (selectConfigMaps cfg platformAdmin)))
           (configMaps (cluster w1)).
Proof.
  intros Hf Hwf. unfold reconcileConfigmap.
  destruct (upsertConfigMaps_ok platformAdmin (selectConfigMaps cfg platformAdmin)
              ∅ w Hf Hwf) as (w1 & Hrun & Hf1 & Hwf1 & _ & _ & _ & _ & Hk).
  unfold bind at 1. rewrite Hrun, union_empty_r_L.
  destruct (collect_ok (T:=ConfigMap) platformAdmin LabelConfigmap
              (configMapNames (selectConfigMaps cfg platformAdmin)) w1)
    as (w2 & Hc2 & _ & _ & Hcl2); [done|by destruct Hwf1 as (?&?&?&?)|].
  unfold bind. rewrite Hc2. exists w1, w2. split; [done|]. split; [done|].
  by rewrite Hcl2.
Qed.

Lemma swapRemove_perm {A} (i : nat) (l : list A) (x : A) :
  l !! i = Some x → x :: swapRemove i l ≡ₚ l.
Proof.
  intros Hx. unfold swapRemove.
  assert (i < length l)%nat as Hi by (by eapply lookup_lt_Some).
  destruct (l !! (length l - 1)%nat) as [last|] eqn:Hlast.
  2:{ apply lookup_ge_None in Hlast. lia. }
  assert (l = take (length l - 1) l ++ [last]) as Hl.
  { rewrite <- (take_S_r _ _ _ Hlast).
    replace (S (length l - 1)) with (length l) by lia. by rewrite firstn_all. }
  remember (length l - 1)%nat as n eqn:Hn.
  trans (take n l ++ [last]); [|by rewrite <- Hl].
  destruct (decide (i = n)) as [->|Hne].
  - rewrite take_insert_ge by lia. assert (x = last) as <- by congruence.
    by rewrite Permutation_cons_append.
  - rewrite take_insert_lt by lia.
    assert (take n l !! i = Some x) as Hi'
      by (rewrite lookup_take_lt by lia; done).
    apply list_elem_of_split_length in Hi' as (l1 & l2 & Hsplit & Hlen).
    rewrite Hsplit. subst i. rewrite insert_app_r_alt by lia.
    replace (length l1 - length l1)%nat with 0%nat by lia. simpl.
    rewrite <- !Permutation_middle, app_nil_r. apply perm_swap.
Qed.

Lemma findOwner_Some uid owners i :
  findOwner uid owners = Some i →
  ∃ r, owners !! i = Some r ∧ or_UID r = uid.
Proof.
  revert i. induction owners as [|r owners IH]; intros i; simpl; [done|].
  destruct (decide (or_UID r = uid)); [intros [= <-]; eauto|].
  destruct (findOwner uid owners) as [j|]; [|done].
  intros [= <-]. by apply IH.
Qed.

Lemma findOwner_None uid owners :
  findOwner uid owners = None → Forall (λ r, or_UID r ≠ uid) owners.
Proof.
  induction owners as [|r owners IH]; simpl; [done|].
  destruct (decide (or_UID r = uid)); [done|].
  destruct (findOwner uid owners); [done|]. intros _.
  apply Forall_cons. split; [done|by apply IH].
Qed.

(** The owner list after the removal: one reference with the parent's UID
    is gone, the others are kept (in another order). *)
Lemma trimOwners_spec uid owners :
  match trimOwners uid owners with
  | None => Forall (λ r, or_UID r ≠ uid) owners
  | Some owners' => ∃ r, or_UID r = uid ∧ owners ≡ₚ r :: owners'
  end.
Proof.
  unfold trimOwners. destruct (findOwner uid owners) as [i|] eqn:Hfind.
  - apply findOwner_Some in Hfind as (r & Hr & Huid). exists r.
    split; [done|]. symmetry. by apply swapRemove_perm.
  - by apply findOwner_None.
Qed.

Lemma not_in_componentNames name desired c :
  name ∉ componentNames desired → c ∈ desired → comp_Name c ≠ name.
Proof.
  unfold componentNames. rewrite elem_of_list_to_set. intros Hn Hc <-.
  apply Hn. by apply list_elem_of_fmap_2.
Qed.

(** C8 (as amended).  In a pass without API failures over a well-formed
    store: when reconcileComponent returns normally, every service and
    every workload-set that carries the generated-by label of its kind in
    the parent's namespace and whose name is not the name of a desired
    component has been collected; reconcileConfigmap does the same for
    the labelled config maps, but against the names of the desired config
    maps (the catalog's config maps for the version), not against the
    component names.  Collecting an object removes one ownership
    reference with the parent's UID (found: the others are kept, in
    another order): the object is deleted when the remaining list is
    empty and stored with the remaining list otherwise; an object without
    such a reference is left as it is. *)
Theorem collection_releases_ownership
    (unmarshalDeployments : string -> error + list DeploymentTemplateSpec)
    (unmarshalServices : string -> error + list ServiceTemplateSpec)
    (Configration : PlatformAdminControllerConfiguration)
    (platformAdmin : PlatformAdmin) (w : World) :
  faults w = [] → wfCluster (cluster w) →
  let namespace := om_Namespace (pa_meta platformAdmin) in
  (∀ desired r w',
     desiredComponents unmarshalDeployments unmarshalServices
       Configration platformAdmin = inr desired →
     reconcileComponent unmarshalDeployments unmarshalServices
       Configration platformAdmin w = (r, w') →
     isOk r →
     (∀ key svc,
        services (cluster w) !! key = Some svc →
        selected namespace LabelPlatformAdminGenerate LabelService svc →
        om_Name (svc_meta svc) ∉ componentNames desired →
        services (cluster w') !! key = collected platformAdmin svc) ∧
     (∀ key yas,
        yurtAppSets (cluster w) !! key = Some yas →
        selected namespace LabelPlatformAdminGenerate LabelDeployment yas →
        om_Name (yas_meta yas) ∉ componentNames desired →
        yurtAppSets (cluster w') !! key = collected platformAdmin yas)) ∧
  (∃ w',
     reconcileConfigmap Configration platformAdmin w = (Ok true, w') ∧
     ∀ key cm,
       configMaps (cluster w) !! key = Some cm →
       selected namespace LabelPlatformAdminGenerate LabelConfigmap cm →
       om_Name (cm_meta cm) ∉
         configMapNames (selectConfigMaps Configration platformAdmin) →
       configMaps (cluster w') !! key = collected platformAdmin cm) ∧
  (∀ (T : Type) `(Object T) (obj : T),
     match trimOwners (om_UID (pa_meta platformAdmin))
                      (om_OwnerReferences (metaOf obj)) with
     | None =>
         Forall (λ r, or_UID r ≠ om_UID (pa_meta platformAdmin))
                (om_OwnerReferences (metaOf obj)) ∧
         collected platformAdmin obj = Some obj
     | Some owners =>
         (∃ r, or_UID r = om_UID (pa_meta platformAdmin) ∧
               om_OwnerReferences (metaOf obj) ≡ₚ r :: owners) ∧
         collected platformAdmin obj =
           if decide (owners = []) then None
           else Some (setMeta (withOwnerReferences owners (metaOf obj)) obj)
     end).
Proof.
  intros Hf Hwf namespace. split; [|split].
  - intros desired r w' Hdes Hrun Hok.
    destruct (reconcileComponent_collects _ _ _ _ _ _ _ _ Hf Hwf Hdes Hrun Hok)
      as (w1 & (_ & _ & _ & _ & Hk) & Hsvc & Hyas).
    destruct Hwf as (_ & _ & Hws & Hwy).
    split.
    + intros key svc Hst Hsel Hname. rewrite Hsvc, lookup_omap.
      destruct (Hk key) as [-> _].
      { intros (c & Hc & ->). apply Hws in Hst.
        apply (not_in_componentNames _ _ _ Hname Hc).
        unfold objectKey, yasKey in Hst. by simplify_eq. }
      rewrite Hst. simpl. unfold collectOne. by rewrite decide_True.
    + intros key yas Hst Hsel Hname. rewrite Hyas, lookup_omap.
      destruct (Hk key) as [_ ->].
      { intros (c & Hc & ->). apply Hwy in Hst.
        apply (not_in_componentNames _ _ _ Hname Hc).
        unfold objectKey, yasKey in Hst. by simplify_eq. }
      rewrite Hst. simpl. unfold collectOne. by rewrite decide_True.
  - destruct (reconcileConfigmap_collects Configration platformAdmin w Hf Hwf)
      as (w1 & w' & Hrun & Hk & Hcm).
    exists w'. split; [done|]. intros key cm Hst Hsel Hname.
    rewrite Hcm, lookup_omap, Hk.
    + rewrite Hst. simpl. unfold collectOne. by rewrite decide_True.
    + intros cm' Hcm' ->. destruct Hwf as (_ & Hwc & _). apply Hwc in Hst.
      apply Hname. unfold configMapNames. rewrite elem_of_list_to_set.
      apply list_elem_of_fmap. exists cm'. split; [|done].
      unfold objectKey in Hst. cbn in *. by simplify_eq.
  - intros T HT obj. unfold collected.
    pose proof (trimOwners_spec (om_UID (pa_meta platformAdmin))
                  (om_OwnerReferences (metaOf obj))) as Hspec.
    destruct (trimOwners _ _) as [owners|]; [|done].
    split; [done|]. destruct owners; done.
Qed.

(** * Closed instances

    The controller run on the sample inputs. *)

(** C1.  Two passes in a row over a fresh parent, with no external change
    in between.  The first pass creates the workload-set of the component
    with a controller reference to the parent (handleYurtAppSet); the
    second pass finds it, takes the join path and overwrites that
    reference with a plain owner reference (SetOwnerReference), so the
    cluster after two passes is not the cluster after one.  Config maps,
    services, the pools of the workload-set and the parent (its status
    included) are the same after both, and a third pass changes nothing
    more. *)
Theorem second_pass_rewrites_owner_reference :
  let key := ("default", "edgex-core-data") in
  let owners (run : Res Result * World) :=
    om_OwnerReferences ∘ yas_meta <$> yurtAppSets (cluster (snd run)) !! key in
  fst firstPass = Ok {| RequeueAfter := 10 * Second |} ∧
  fst secondPass = Ok {| RequeueAfter := 10 * Second |} ∧
  owners firstPass = Some [controllerRefOf sampleParentMeta] ∧
  owners secondPass = Some [ownerRefOf sampleParentMeta] ∧
  cluster (snd secondPass) ≠ cluster (snd firstPass) ∧
  configMaps (cluster (snd secondPass)) = configMaps (cluster (snd firstPass)) ∧
  services (cluster (snd secondPass)) = services (cluster (snd firstPass)) ∧
  platformAdmins (cluster (snd secondPass)) = platformAdmins (cluster (snd firstPass)) ∧
  (yas_Pools <$> yurtAppSets (cluster (snd secondPass)) !! key)
    = (yas_Pools <$> yurtAppSets (cluster (snd firstPass)) !! key) ∧
  cluster (snd thirdPass) = cluster (snd secondPass).
Proof.
  cbv zeta.
  split; [vm_compute; reflexivity|]. split; [vm_compute; reflexivity|].
  split; [vm_compute; reflexivity|]. split; [vm_compute; reflexivity|].
  split.
  { intros E.
    apply (f_equal (λ c, om_OwnerReferences ∘ yas_meta <$>
                           yurtAppSets c !! ("default", "edgex-core-data"))) in E.
    vm_compute in E. discriminate E. }
  split; [apply map_to_list_inj; vm_compute; reflexivity|].
  split; [apply map_to_list_inj; vm_compute; reflexivity|].
  split; [apply map_to_list_inj; vm_compute; reflexivity|].
  split; [vm_compute; reflexivity|].
  vm_compute; reflexivity.
Qed.

(** C7.  Two additional exposure templates "a" and "b" with different
    specs and no workload template: the resolver yields a component for
    each name, but both carry the spec of "b", the last template, because
    both hold the address of the one range variable.  The component "a"
    does not carry the exposure spec of its own template. *)
Theorem exposure_specs_alias_the_range_variable :
  sampleUnmarshalServices "[{name: a, spec: {port: 1}}, {name: b, spec: {port: 2}}]"
    = inr [exposureA; exposureB] ∧
  ∃ components,
    annotationToComponent sampleUnmarshalDeployments sampleUnmarshalServices
      twoExposures = inr components ∧
    components ≡ₚ
      [ {| comp_Name := "a"; comp_Service := Some (st_Spec exposureB);
           comp_Deployment := None |};
        {| comp_Name := "b"; comp_Service := Some (st_Spec exposureB);
           comp_Deployment := None |} ] ∧
    {| comp_Name := "a"; comp_Service := Some (st_Spec exposureA);
       comp_Deployment := None |} ∉ components.
Proof.
  split; [reflexivity|]. eexists. split; [vm_compute; reflexivity|].
  split.
  - first [reflexivity | apply perm_swap].
  - intros Hin. repeat (apply elem_of_cons in Hin as [Hin|Hin]; [discriminate Hin|]).
    by apply elem_of_nil in Hin.
Qed.

(** C2, the claim as stated fails: the parent is fetched, it is marked for
    deletion, the pass returns normally, and no status update is issued
    (the four calls of the pass are listed). *)
Lemma deletion_pass_issues_no_status_update :
  let w := startWorld deletingCluster [] in
  let run := sampleReconcile ("default", "edgex") w in
  fst (Get (T:=PlatformAdmin) ("default", "edgex") w) = Ok deletingParent ∧
  fst run = Ok {| RequeueAfter := 0 |} ∧
  trace (snd run) =
    [ event VGet KPlatformAdmin ("default", "edgex") None;
      event VGet KYurtAppSet ("default", "edgex-core-data") None;
      event VPatch KYurtAppSet ("default", "edgex-core-data") None;
      event VUpdate KPlatformAdmin ("default", "edgex") None ] ∧
  ¬ ∃ ev, ev ∈ trace (snd run) ∧ ev_Verb ev = VStatusUpdate.
Proof.
  cbv zeta.
  assert (trace (snd (sampleReconcile ("default", "edgex")
                        (startWorld deletingCluster []))) =
          [ event VGet KPlatformAdmin ("default", "edgex") None;
            event VGet KYurtAppSet ("default", "edgex-core-data") None;
            event VPatch KYurtAppSet ("default", "edgex-core-data") None;
            event VUpdate KPlatformAdmin ("default", "edgex") None ]) as Htr
    by (vm_compute; reflexivity).
  split; [vm_compute; reflexivity|]. split; [vm_compute; reflexivity|].
  split; [exact Htr|]. rewrite Htr. intros (ev & Hin & Hv).
  repeat (apply elem_of_cons in Hin as [->|Hin]; [discriminate Hv|]).
  by apply elem_of_nil in Hin.
Qed.


(** C8, the claim as stated fails: the config map "common-variables" is
    labelled as generated by the controller and its name is not the name
    of a desired component (the only one is "edgex-core-data"), yet after
    the pass it is still there with the parent in its owner list: config
    maps are compared with the names of the desired config maps.  The
    left-over service "edgex-old" of the same cluster is collected. *)
Lemma config_map_kept_though_not_a_component_name :
  let w := startWorld settledCluster [] in
  let run := sampleReconcile ("default", "edgex") w in
  desiredComponents sampleUnmarshalDeployments sampleUnmarshalServices
    sampleConfiguration sampleParent = inr [coreComponent] ∧
  (om_Name (cm_meta ownedConfigMap) ∉ componentNames [coreComponent]) ∧
  selected "default" LabelPlatformAdminGenerate LabelConfigmap ownedConfigMap ∧
  configMaps (cluster w) !! ("default", "common-variables") = Some ownedConfigMap ∧
  fst run = Ok {| RequeueAfter := 10 * Second |} ∧
  configMaps (cluster (snd run)) !! ("default", "common-variables")
    = Some ownedConfigMap ∧
  om_OwnerReferences (cm_meta ownedConfigMap) = [ownerRefOf (pa_meta sampleParent)] ∧
  services (cluster w) !! ("default", "edgex-old") = Some staleService ∧
  services (cluster (snd run)) !! ("default", "edgex-old") = None.
Proof.
  cbv zeta. split; [vm_compute; reflexivity|]. split.
  { unfold componentNames. simpl. rewrite elem_of_union, elem_of_singleton.
    intros [E|E]; [discriminate E|]. by apply elem_of_empty in E. }
  split; [by split|].
  repeat split; vm_compute; reflexivity.
Qed.

(** ** The theorems at the sample inputs *)

Lemma wfStore_singleton {T} `{Object T} (obj : T) :
  wfStore ({[ objectKey obj := obj ]} : gmap (string * string) T).
Proof. by apply map_Forall_singleton. Defined.

Lemma wfStore_empty {T} `{Object T} : wfStore (∅ : gmap (string * string) T).
Proof. apply map_Forall_empty. Defined.


Lemma override_merge_witness :
  annotationToComponent sampleUnmarshalDeployments sampleUnmarshalServices
    mergeAnnotations =
    inr [ {| comp_Name := "extra-svc";
             comp_Service := Some {| ss_raw := "port: 80" |};
             comp_Deployment := Some {| ds_raw := "replicas: 1" |} |} ].
Proof.
  apply (override_merge sampleUnmarshalDeployments sampleUnmarshalServices
           mergeAnnotations
           "[{name: extra-svc, spec: {replicas: 1}}]"
           "[{name: extra-svc, spec: {port: 80}}]"); vm_compute; reflexivity.
Defined.



Lemma other_pool_entries_kept_witness :
  removePool "hangzhou" [newPool "hangzhou"; newPool "beijing"; newPool "shanghai"]
    = Some [newPool "shanghai"; newPool "beijing"] ∧
  otherPools "hangzhou" [newPool "shanghai"; newPool "beijing"]
    ≡ₚ otherPools "hangzhou"
         [newPool "hangzhou"; newPool "beijing"; newPool "shanghai"] ∧
  (countPool "hangzhou"
     [newPool "hangzhou"; newPool "beijing"; newPool "shanghai"] ≤ 1)%nat ∧
  (∃ pools',
     removePool "hangzhou" [newPool "hangzhou"; newPool "beijing"; newPool "shanghai"]
       = Some pools' ∧
     countPool "hangzhou" pools' = 0%nat) ∧
  wfStore (yurtAppSets (cluster (startWorld deletingCluster []))) ∧
  ∃ pools',
    yurtAppSets
      (cluster (snd (reconcileDelete sampleUnmarshalDeployments
                       sampleUnmarshalServices sampleConfiguration deletingParent
                       (startWorld deletingCluster []))))
      !! objectKey sharedYurtAppSet = Some (withPools pools' sharedYurtAppSet) ∧
    otherPools "hangzhou" pools'
      ≡ₚ otherPools "hangzhou" (yas_Pools sharedYurtAppSet).
Proof.
  assert (removePool "hangzhou"
            [newPool "hangzhou"; newPool "beijing"; newPool "shanghai"]
          = Some [newPool "shanghai"; newPool "beijing"]) as Hrem
    by (vm_compute; reflexivity).
  assert ((countPool "hangzhou"
             [newPool "hangzhou"; newPool "beijing"; newPool "shanghai"] ≤ 1)%nat)
    as Hc by (vm_compute; lia).
  split; [exact Hrem|]. split; [|split; [exact Hc|split; [|split]]].
  - destruct (other_pool_entries_kept "hangzhou"
                [newPool "hangzhou"; newPool "beijing"; newPool "shanghai"])
      as (Hothers & _).
    apply Hothers. exact Hrem.
  - destruct (other_pool_entries_kept "hangzhou"
                [newPool "hangzhou"; newPool "beijing"; newPool "shanghai"])
      as (_ & Htotal & _).
    apply Htotal. exact Hc.
  - apply (wfStore_singleton sharedYurtAppSet).
  - destruct (other_pool_entries_kept "hangzhou" []) as (_ & _ & Hpass).
    apply Hpass.
    + reflexivity.
    + apply (wfStore_singleton sharedYurtAppSet).
    + vm_compute; reflexivity.
Defined.

Lemma workload_spec_required_witness :
  let w := startWorld (clusterWith annotatedParent) [] in
  desiredComponents sampleUnmarshalDeployments sampleUnmarshalServices
    sampleConfiguration annotatedParent = inr [coreComponent; exposureOnly] ∧
  comp_Deployment exposureOnly = None ∧
  yurtAppSets (cluster w) !! yasKey annotatedParent exposureOnly = None ∧
  (∃ w', syncComponent annotatedParent exposureOnly 0 w =
           (Panic "invalid memory address or nil pointer dereference", w')) ∧
  fst (sampleReconcile ("default", "edgex") w) =
    Panic "invalid memory address or nil pointer dereference" ∧
  (∀ msg, fst (reconcileComponent sampleUnmarshalDeployments sampleUnmarshalServices
                 sampleConfiguration sampleParent
                 (startWorld (clusterWith sampleParent) [])) ≠ Panic msg).
Proof.
  cbv zeta. split; [vm_compute; reflexivity|]. split; [reflexivity|].
  split; [reflexivity|]. split.
  - destruct (workload_spec_required sampleUnmarshalDeployments
                sampleUnmarshalServices sampleConfiguration annotatedParent
                (startWorld (clusterWith annotatedParent) [])) as (Hpanic & _).
    apply Hpanic.
    + reflexivity.
    + reflexivity.
    + reflexivity.
    + apply (wfStore_empty (T:=Service)).
  - split; [vm_compute; reflexivity|].
    destruct (workload_spec_required sampleUnmarshalDeployments
                sampleUnmarshalServices sampleConfiguration sampleParent
                (startWorld (clusterWith sampleParent) [])) as (_ & Hsafe).
    apply (Hsafe [coreComponent]).
    + vm_compute; reflexivity.
    + intros c Hc. left. apply list_elem_of_singleton in Hc. rewrite Hc.
      discriminate.
Defined.


Lemma status_update_on_exit_witness :
  let w := startWorld (clusterWith sampleParent) [] in
  let wd := startWorld deletingCluster [] in
  fst (Get (T:=PlatformAdmin) ("default", "edgex") w) = Ok sampleParent ∧
  om_DeletionTimestamp (pa_meta sampleParent) = None ∧
  (∃ evs err,
     trace (snd (sampleReconcile ("default", "edgex") w)) =
       evs ++ [event VStatusUpdate KPlatformAdmin (objectKey sampleParent) err]) ∧
  fst (Get (T:=PlatformAdmin) ("default", "edgex") wd) = Ok deletingParent ∧
  om_DeletionTimestamp (pa_meta deletingParent) ≠ None ∧
  (∃ new,
     trace (snd (sampleReconcile ("default", "edgex") wd)) = trace wd ++ new ∧
     Forall (λ ev, ev_Verb ev ≠ VStatusUpdate) new).
Proof.
  cbv zeta. split; [reflexivity|]. split; [reflexivity|]. split.
  - destruct (status_update_on_exit sampleUnmarshalDeployments
                sampleUnmarshalServices sampleConfiguration ("default", "edgex")
                sampleParent (startWorld (clusterWith sampleParent) []) _
                (surjective_pairing _)) as (Hnormal & _).
    destruct (Hnormal eq_refl) as (evs & err & Htr & _).
    exists evs, err. exact Htr.
  - split; [reflexivity|]. split; [discriminate|].
    destruct (status_update_on_exit sampleUnmarshalDeployments
                sampleUnmarshalServices sampleConfiguration ("default", "edgex")
                deletingParent (startWorld deletingCluster []) _
                (surjective_pairing _)) as (_ & Hdel).
    apply Hdel. discriminate.
Defined.

Lemma wfCluster_settled : wfCluster settledCluster.
Proof.
  split; [apply (wfStore_singleton sampleParent)|].
  split; [apply (wfStore_singleton ownedConfigMap)|].
  split; [apply (wfStore_singleton staleService)|].
  apply (wfStore_empty (T:=YurtAppSet)).
Defined.

Lemma collection_releases_ownership_witness :
  let w := startWorld settledCluster [] in
  let run := reconcileComponent sampleUnmarshalDeployments sampleUnmarshalServices
               sampleConfiguration sampleParent w in
  faults w = [] ∧ wfCluster (cluster w) ∧
  services (cluster w) !! objectKey staleService = Some staleService ∧
  selected "default" LabelPlatformAdminGenerate LabelService staleService ∧
  (om_Name (svc_meta staleService) ∉ componentNames [coreComponent]) ∧
  collected sampleParent staleService = None ∧
  services (cluster (snd run)) !! objectKey staleService = None.
Proof.
  cbv zeta.
  assert (om_Name (svc_meta staleService) ∉ componentNames [coreComponent]) as Hname.
  { unfold componentNames. simpl. rewrite elem_of_union, elem_of_singleton.
    intros [E|E]; [discriminate E|]. by apply elem_of_empty in E. }
  split; [reflexivity|]. split; [exact wfCluster_settled|].
  split; [reflexivity|]. split; [by split|]. split; [exact Hname|].
  split; [reflexivity|].
  destruct (collection_releases_ownership sampleUnmarshalDeployments
              sampleUnmarshalServices sampleConfiguration sampleParent
              (startWorld settledCluster []) eq_refl wfCluster_settled)
    as (Hcomp & _).
  destruct (Hcomp [coreComponent] _ _ ltac:(vm_compute; reflexivity)
              (surjective_pairing _)) as (Hsvc & _).
  { vm_compute. exact I. }
  rewrite (Hsvc (objectKey staleService) staleService);
    [reflexivity|reflexivity|by split|exact Hname].
Defined.

(** * Further properties

    ** The swap-with-last removal, without the uniqueness invariant *)

Section PoolRemoval.

Context (poolName : string).

(** An entry of the parent that lies ahead of the loop and beyond the
    current length of the slice makes the loop panic when it gets there:
    the loop only writes below the current length. *)
Lemma removePoolLoop_doomed (todo i : nat) (arr : list Pool) (len j : nat) (p : Pool) :
  arr !! j = Some p → pool_Name p = poolName →
  (i ≤ j)%nat → (j < i + todo)%nat → (len ≤ j)%nat →
  removePoolLoop poolName todo i arr len = None.
Proof.
  revert i arr len.
  induction todo as [|todo IH]; intros i arr len Hp Hname Hij Hj Hlen; [lia|].
  simpl. destruct (arr !! i) as [pool|] eqn:Hpool.
  2:{ apply lookup_ge_None in Hpool. apply lookup_lt_Some in Hp. lia. }
  destruct (decide (pool_Name pool = poolName)) as [Hmine|Hother].
  - destruct (decide (i < len)%nat) as [Hi|]; [|done].
    destruct (arr !! (len - 1)%nat) as [last|]; [|done].
    apply IH; [|done|lia..].
    by rewrite list_lookup_insert_ne by lia.
  - apply IH; [done|done| |lia|done].
    destruct (decide (i = j)) as [->|]; [|lia]. congruence.
Qed.

(** Whenever the loop returns, no entry of the parent is left among those
    it has passed and kept. *)
Lemma removePoolLoop_clean (todo i : nat) (arr : list Pool) (len : nat)
    (arr' : list Pool) (len' : nat) :
  (i + todo = length arr)%nat → (len ≤ length arr)%nat →
  (∀ j q, (j < len)%nat → (j < i)%nat → arr !! j = Some q → pool_Name q ≠ poolName) →
  removePoolLoop poolName todo i arr len = Some (arr', len') →
  ∀ j q, (j < len')%nat → arr' !! j = Some q → pool_Name q ≠ poolName.
Proof.
  revert i arr len.
  induction todo as [|todo IH]; intros i arr len Hn Hlen Hinv; simpl.
  { intros [= <- <-] j q Hj. apply Hinv; lia. }
  destruct (arr !! i) as [pool|] eqn:Hpool.
  2:{ apply lookup_ge_None in Hpool. lia. }
  destruct (decide (pool_Name pool = poolName)) as [Hmine|Hother].
  - destruct (decide (i < len)%nat) as [Hi|]; [|done].
    destruct (arr !! (len - 1)%nat) as [last|] eqn:Hlast; [|done].
    destruct (decide (pool_Name last = poolName ∧ i < len - 1)%nat) as [[Hl Hi']|Hok].
    { rewrite (removePoolLoop_doomed todo (S i) _ (len - 1) (len - 1) last); [done| |done|lia..].
      by rewrite list_lookup_insert_ne by lia. }
    apply IH; [by rewrite length_insert; lia|rewrite length_insert; lia|].
    intros j q Hj Hji. destruct (decide (j = i)) as [->|Hne].
    + rewrite list_lookup_insert_eq by lia. intros [= <-] Hl.
      apply Hok. split; [done|lia].
    + rewrite list_lookup_insert_ne by done. apply Hinv; lia.
  - apply IH; [lia|done|].
    intros j q Hj Hji. destruct (decide (j = i)) as [->|Hne].
    + congruence.
    + apply Hinv; lia.
Qed.

(** Two entries of the parent, the second one in the last place: the
    first removal shortens the slice, and the loop then reaches the last
    place of the backing array. *)
Lemma removePoolLoop_trailing (todo i : nat) (arr : list Pool) (j0 : nat) (p q : Pool) :
  (i + todo = length arr)%nat →
  arr !! j0 = Some p → pool_Name p = poolName →
  (i ≤ j0)%nat → (j0 < length arr - 1)%nat →
  arr !! (length arr - 1)%nat = Some q → pool_Name q = poolName →
  removePoolLoop poolName todo i arr (length arr) = None.
Proof.
  revert i. induction todo as [|todo IH]; intros i Hn Hp Hpn Hij Hj Hq Hqn; [lia|].
  simpl. destruct (arr !! i) as [pool|] eqn:Hpool.
  2:{ apply lookup_ge_None in Hpool. lia. }
  destruct (decide (pool_Name pool = poolName)) as [Hmine|Hother].
  - rewrite decide_True by lia. rewrite Hq.
    apply (removePoolLoop_doomed todo (S i) _ _ (length arr - 1) q); [|done|lia..].
    by rewrite list_lookup_insert_ne by lia.
  - apply IH; [lia|done|done| |done..].
    destruct (decide (i = j0)) as [->|]; [|lia]. congruence.
Qed.

Lemma otherPools_all (l : list Pool) :
  Forall (λ p, pool_Name p ≠ poolName) l → otherPools poolName l = l.
Proof.
  unfold otherPools. induction 1 as [|p l Hp _ IH]; [done|].
  by rewrite filter_cons_True, IH.
Qed.

End PoolRemoval.

Lemma removePool_clean (poolName : string) (pools pools' : list Pool) :
  removePool poolName pools = Some pools' → countPool poolName pools' = 0%nat.
Proof.
  unfold removePool.
  destruct (removePoolLoop _ _ _ _ _) as [[arr len]|] eqn:Hloop; [|done].
  intros [= <-]. apply countPool_zero, Forall_forall. intros q Hq.
  apply list_elem_of_lookup in Hq as [j Hq].
  apply lookup_take_Some in Hq as [Hq Hj].
  eapply (removePoolLoop_clean poolName (length pools) 0 pools (length pools));
    [done|done|intros; lia|exact Hloop|exact Hj|exact Hq].
Qed.

(** X1.  Whenever the removal of lines 242-247 returns, also on a list that
    holds several entries of the parent's pool, no entry of that name is
    left and the result is the list of the other entries, up to order. *)
Theorem removePool_leaves_no_entry (poolName : string) (pools pools' : list Pool) :
  removePool poolName pools = Some pools' →
  countPool poolName pools' = 0%nat ∧ pools' ≡ₚ otherPools poolName pools.
Proof.
  intros Hrem. pose proof (removePool_clean _ _ _ Hrem) as Hzero.
  split; [done|].
  rewrite <- (removePool_others _ _ _ Hrem).
  rewrite otherPools_all; [done|]. by apply countPool_zero.
Qed.

(** X2.  A pool list that holds the parent's pool twice, the second time
    in the last place, makes the removal loop of lines 242-247 index the
    shortened slice out of range; the deletion handler then panics at the
    first desired workload-set with such a list, before it patches it. *)
Theorem trailing_duplicate_panics (poolName : string) (l1 l2 : list Pool) (p q : Pool) :
  pool_Name p = poolName → pool_Name q = poolName →
  removePool poolName (l1 ++ p :: l2 ++ [q]) = None ∧
  ∀ platformAdmin dc rest yas w w1,
    spec_PoolName (pa_Spec platformAdmin) = poolName →
    Get (T:=YurtAppSet) (yasKey platformAdmin dc) w = (Ok yas, w1) →
    yas_Pools yas = l1 ++ p :: l2 ++ [q] →
    removeMemberships platformAdmin (dc :: rest) w = (Panic "index out of range", w1).
Proof.
  intros Hp Hq.
  assert (removePool poolName (l1 ++ p :: l2 ++ [q]) = None) as Hrem.
  { unfold removePool.
    rewrite (removePoolLoop_trailing poolName _ 0 _ (length l1) p q); [done|done| |done|lia| | |done].
    - by rewrite list_lookup_middle.
    - rewrite length_app. simpl. rewrite length_app. simpl. lia.
    - rewrite length_app. simpl. rewrite length_app. simpl.
      rewrite lookup_app_r by lia.
      replace (length l1 + S (length l2 + 1) - 1 - length l1)%nat
        with (S (length l2)) by lia.
      simpl. rewrite lookup_app_r by lia.
      by replace (length l2 - length l2)%nat with 0%nat by lia. }
  split; [done|].
  intros platformAdmin dc rest yas w w1 <- Hget Hpools.
  cbn [removeMemberships]. unfold bind, try.
  unfold yasKey in Hget. rewrite Hget, Hpools, Hrem. done.
Qed.

(** ** The components of the annotations *)

Section AnnotationComponents.

Context (unmarshalDeployments : string -> error + list DeploymentTemplateSpec).
Context (unmarshalServices : string -> error + list ServiceTemplateSpec).

Lemma servicesLoop_snoc l s h :
  servicesLoop (l ++ [s]) h =
    (<[st_Name s := AddrAdditionalserviceSpec]> (fst (servicesLoop l h)),
     {| additionalservice := s;
        additionalDeployment := additionalDeployment (snd (servicesLoop l h)) |}).
Proof.
  unfold servicesLoop. rewrite fold_left_app. cbn [fold_left].
  by destruct (fold_left _ l _).
Qed.

Lemma servicesLoop_lookup ss h name :
  is_Some (fst (servicesLoop ss h) !! name) ↔ name ∈ st_Name <$> ss.
Proof.
  induction ss as [|s ss IH] using rev_ind.
  - cbn. rewrite lookup_empty, elem_of_nil. split; [by intros [? ?]|done].
  - rewrite servicesLoop_snoc, fmap_app. cbn [fst].
    rewrite lookup_insert_is_Some, elem_of_app, IH. simpl.
    rewrite list_elem_of_singleton. split.
    + intros [->|[_ ?]]; [by right|by left].
    + intros [?| ->]; [|by left].
      destruct (decide (st_Name s = name)); [by left|by right].
Qed.

Lemma servicesLoop_deployment ss h :
  additionalDeployment (snd (servicesLoop ss h)) = additionalDeployment h.
Proof.
  induction ss as [|s ss IH] using rev_ind; [done|].
  rewrite servicesLoop_snoc. cbn. exact IH.
Qed.

Lemma deploymentsLoop_snoc services l d h :
  deploymentsLoop services (l ++ [d]) h =
    let '(cs, used, h') := deploymentsLoop services l h in
    (cs ++ [refOf services d],
     match services !! dt_Name d with
     | Some _ => {[ dt_Name d ]} ∪ used
     | None => used
     end,
     {| additionalservice := additionalservice h'; additionalDeployment := d |}).
Proof.
  unfold deploymentsLoop. rewrite fold_left_app. cbn [fold_left].
  destruct (fold_left _ l _) as [[cs used] h']. unfold refOf.
  cbn [dt_Name additionalDeployment].
  by destruct (services !! dt_Name d) as [[]|].
Qed.

(** The second loop: one component per additional workload template, in
    order; the names it has found in the map; and the template its range
    variable holds in the end. *)
Lemma deploymentsLoop_spec services ds h :
  let '(cs, used, h') := deploymentsLoop services ds h in
  cs = refOf services <$> ds ∧
  (∀ name, name ∈ used ↔ name ∈ dt_Name <$> ds ∧ is_Some (services !! name)) ∧
  additionalDeployment h' = List.last ds (additionalDeployment h).
Proof.
  induction ds as [|d ds IH] using rev_ind.
  - cbn. split; [done|]. split; [|done]. intros name.
    rewrite elem_of_empty, elem_of_nil. tauto.
  - rewrite deploymentsLoop_snoc.
    destruct (deploymentsLoop services ds h) as [[cs used] h'].
    destruct IH as (-> & Hused & _). rewrite !fmap_app. split; [done|].
    split; [|by rewrite last_last]. intros name.
    rewrite elem_of_app. simpl. rewrite list_elem_of_singleton.
    destruct (services !! dt_Name d) as [ptr|] eqn:Hd.
    + rewrite elem_of_union, elem_of_singleton, Hused. split.
      * intros [->|[? ?]]; [by split; [right|rewrite Hd]|by split; [left|]].
      * intros [[?|?] ?]; [right; done|left; done].
    + rewrite Hused. split.
      * intros [? ?]. by split; [left|].
      * intros [[?| ->] Hs]; [done|]. rewrite Hd in Hs. by destruct Hs.
Qed.

Lemma unused_names (used : gset string) (l : list (string * servicePtr)) :
  NoDup l.*1 →
  let crs :=
    omap (fun (entry : string * servicePtr) =>
            let '(name, service) := entry in
            if decide (name ∈ used) then None
            else Some {| cr_Name := name; cr_Service := Some service;
                         cr_Deployment := None |}) l in
  NoDup (cr_Name <$> crs) ∧
  (∀ name, name ∈ cr_Name <$> crs ↔ name ∈ l.*1 ∧ name ∉ used) ∧
  Forall (λ c, cr_Deployment c = None ∧ cr_Service c ≠ None) crs.
Proof.
  induction l as [|[name service] l IH]; intros Hnd; cbn.
  { split; [constructor|]. split; [|done]. intros name.
    rewrite elem_of_nil. tauto. }
  apply NoDup_cons in Hnd as [Hname Hnd].
  destruct (IH Hnd) as (IH1 & IH2 & IH3).
  destruct (decide (name ∈ used)) as [Hu|Hu]; cbn.
  - split; [done|]. split; [|done]. intros name'.
    rewrite IH2, elem_of_cons. split; [tauto|].
    intros [[->|?] ?]; [done|tauto].
  - split; [|split].
    + apply NoDup_cons. split; [|done]. rewrite IH2. tauto.
    + intros name'. rewrite !elem_of_cons, IH2. split.
      * intros [->|[? ?]]; [by split; [left|]|by split; [right|]].
      * intros [[->|?] ?]; [by left|by right].
    + apply Forall_cons. split; [done|done].
Qed.

Lemma unusedServices_spec (services : gmap string servicePtr) (used : gset string) :
  (∀ name, name ∈ used → is_Some (services !! name)) →
  NoDup (cr_Name <$> unusedServices services used) ∧
  (∀ name, name ∈ cr_Name <$> unusedServices services used
           ↔ is_Some (services !! name) ∧ name ∉ used) ∧
  Forall (λ c, cr_Deployment c = None ∧ cr_Service c ≠ None)
         (unusedServices services used).
Proof.
  intros Hsub. unfold unusedServices.
  destruct (decide (size used < size services)%nat) as [_|Hsize].
  - destruct (unused_names used (map_to_list services)) as (H1 & H2 & H3);
      [apply NoDup_fst_map_to_list|].
    split; [done|]. split; [|done]. intros name. rewrite H2.
    rewrite list_elem_of_fmap. split.
    + intros [([name' ptr] & Heq & Hin) Hu]. simpl in Heq. subst name'.
      split; [|done]. apply elem_of_map_to_list in Hin. by rewrite Hin.
    + intros [[ptr Hs] Hu]. split; [|done]. exists (name, ptr).
      split; [done|]. by apply elem_of_map_to_list.
  - split; [constructor|]. split; [|done]. intros name.
    rewrite fmap_nil, elem_of_nil. split; [done|]. intros [Hs Hu]. apply Hu.
    assert (used = dom services) as ->.
    { apply set_subseteq_size_eq.
      - intros n Hn. apply elem_of_dom. by apply Hsub.
      - rewrite size_dom. lia. }
    by apply elem_of_dom.
Qed.

(** X3.  When both arrays decode, annotationToComponent (lines 553-602)
    returns one component per additional workload template, in the order
    of the array and under the template's name (a name that occurs twice
    gives two components), each with a workload spec, and with an exposure
    spec exactly when an exposure template has that name; after them
    comes one component per exposure-template name that no workload
    template has, each name once, with an exposure spec and no workload
    spec. *)
Theorem annotation_components_by_name (annotation : gmap string string)
    (ds : list DeploymentTemplateSpec) (ss : list ServiceTemplateSpec) :
  decoded unmarshalDeployments annotation "AdditionalDeployments" = inr ds →
  decoded unmarshalServices annotation "AdditionalServices" = inr ss →
  ∃ components extra,
    annotationToComponent unmarshalDeployments unmarshalServices annotation
      = inr components ∧
    comp_Name <$> components = (dt_Name <$> ds) ++ extra ∧
    NoDup extra ∧
    (∀ name, name ∈ extra ↔ name ∈ st_Name <$> ss ∧ name ∉ dt_Name <$> ds) ∧
    Forall (λ c, is_Some (comp_Deployment c) ∧
                 (is_Some (comp_Service c) ↔ comp_Name c ∈ st_Name <$> ss))
           (take (length ds) components) ∧
    Forall (λ c, comp_Deployment c = None ∧ is_Some (comp_Service c))
           (drop (length ds) components).
Proof.
  unfold decoded, annotationToComponent. intros -> ->.
  destruct (decide _) as [[Hd Hs]|_].
  { apply nil_length_inv in Hd, Hs. subst. exists [], [].
    split; [done|]. split; [done|]. split; [constructor|].
    split; [|by split]. intros name. rewrite !elem_of_nil. tauto. }
  pose proof (servicesLoop_lookup ss zeroRangeVars) as Hdom.
  destruct (servicesLoop ss zeroRangeVars) as [services h1]. cbn [fst] in Hdom.
  pose proof (deploymentsLoop_spec services ds h1) as Hloop.
  destruct (deploymentsLoop services ds h1) as [[crefs used] h2].
  destruct Hloop as (-> & Hused & _).
  destruct (unusedServices_spec services used) as (Hnd & Hin & Hall).
  { intros name. rewrite Hused. tauto. }
  eexists _, (cr_Name <$> unusedServices services used). split; [done|].
  split; [|split; [done|split; [|split]]].
  - rewrite <- list_fmap_compose, fmap_app, <- list_fmap_compose. done.
  - intros name. rewrite Hin, Hused, Hdom. tauto.
  - rewrite fmap_app, take_app_length' by (by rewrite !length_fmap).
    rewrite Forall_fmap. apply Forall_fmap, Forall_true.
    intros d. cbn. split; [by eexists|].
    rewrite <- Hdom. unfold is_Some.
    destruct (services !! dt_Name d) as [ptr|]; cbn; split; eauto.
    + intros [? ?]. done.
    + intros [? ?]. done.
  - rewrite fmap_app, drop_app_length' by (by rewrite !length_fmap).
    rewrite Forall_fmap. eapply Forall_impl; [exact Hall|].
    intros c [Hdep Hsvc]. cbn. rewrite Hdep. split; [done|].
    destruct (cr_Service c); [by eexists|done].
Qed.

(** X4.  Every component the resolver derives from the annotations that
    has a workload spec has the spec of the LAST additional workload
    template: line 580 stores the address of a field of the range
    variable of the loop of lines 577-587. *)
Theorem workload_specs_alias_the_range_variable (annotation : gmap string string)
    (ds : list DeploymentTemplateSpec) (components : list Component) :
  decoded unmarshalDeployments annotation "AdditionalDeployments" = inr ds →
  annotationToComponent unmarshalDeployments unmarshalServices annotation
    = inr components →
  ∀ c d, c ∈ components → comp_Deployment c = Some d →
         d = dt_Spec (List.last ds (additionalDeployment zeroRangeVars)).
Proof.
  unfold decoded, annotationToComponent. intros ->.
  destruct (match annotation !! "AdditionalServices" with
            | Some t => unmarshalServices t
            | None => inr []
            end) as [err|ss]; [done|].
  destruct (decide _) as [_|_].
  { intros [= <-] c d Hc. by apply elem_of_nil in Hc. }
  pose proof (servicesLoop_deployment ss zeroRangeVars) as H1.
  destruct (servicesLoop ss zeroRangeVars) as [services h1]. cbn [snd] in H1.
  pose proof (deploymentsLoop_spec services ds h1) as Hloop.
  destruct (deploymentsLoop services ds h1) as [[crefs used] h2].
  destruct Hloop as (_ & _ & H2).
  intros [= <-] c d (cref & -> & _)%list_elem_of_fmap.
  unfold loadComponent. cbn [comp_Deployment].
  destruct (cr_Deployment cref) as [[]|]; [|done].
  intros [= <-]. cbn [derefDeployment]. by rewrite H2, H1.
Qed.

End AnnotationComponents.

(** ** What a pass leaves alone, whatever calls fail *)

#[global] Instance keeps_preorder {X} (proj : Cluster → X) : PreOrder (keeps proj).
Proof.
  split; [by intros w|]. intros w1 w2 w3 H12 H23. unfold keeps in *. congruence.
Qed.

#[global] Instance cellStep_preorder P `{!PreOrder P} : PreOrder (cellStep P).
Proof.
  split; [intros w; unfold cellStep; reflexivity|].
  intros w1 w2 w3 H12 H23. unfold cellStep in *. by etransitivity.
Qed.

Section Tolerant.

Context (R : relation World) `{!PreOrder R}.
Context (Hread : toleratesReads R).

Section Kind.

Context {T : Type} `{Object T}.

Lemma tolerant_Get key : preserves R (Get (T:=T) key).
Proof.
  apply (preserves_apiCall R); [intros; apply Hread|].
  intros w a c Hact. destruct (storeOf (cluster w) !! key); simplify_eq.
  apply Hread.
Qed.

Lemma tolerant_List namespace k v : preserves R (List (T:=T) namespace k v).
Proof.
  apply (preserves_apiCall R); [intros; apply Hread|].
  intros w a c [= _ <-]. apply Hread.
Qed.

Context (Hwrite : toleratesWrites T R).

Lemma tolerant_Create (obj : T) : preserves R (Create obj).
Proof.
  apply (preserves_apiCall R); [intros; apply Hread|].
  intros w a c Hact. destruct (storeOf (cluster w) !! objectKey obj); simplify_eq.
  apply Hwrite.
Qed.

Lemma tolerant_Update (obj : T) : preserves R (Update obj).
Proof.
  apply (preserves_apiCall R); [intros; apply Hread|].
  intros w a c Hact. destruct (storeOf (cluster w) !! objectKey obj); simplify_eq.
  apply Hwrite.
Qed.

Lemma tolerant_Patch (obj : T) : preserves R (Patch obj).
Proof.
  apply (preserves_apiCall R); [intros; apply Hread|].
  intros w a c Hact. destruct (storeOf (cluster w) !! objectKey obj); simplify_eq.
  apply Hwrite.
Qed.

Lemma tolerant_Delete (obj : T) : preserves R (Delete obj).
Proof.
  apply (preserves_apiCall R); [intros; apply Hread|].
  intros w a c Hact. destruct (storeOf (cluster w) !! objectKey obj); simplify_eq.
  apply Hwrite.
Qed.

Lemma tolerant_CreateOrUpdate `{EqDecision T} (obj : T) mutate :
  preserves R (CreateOrUpdate obj mutate).
Proof.
  unfold CreateOrUpdate.
  repeat first [ apply tolerant_Get | apply tolerant_Create | apply tolerant_Update
               | preserves_step R ].
Qed.

Lemma tolerant_removeOwner platformAdmin (obj : T) :
  preserves R (removeOwner platformAdmin obj).
Proof.
  unfold removeOwner.
  repeat first [ apply tolerant_Delete | apply tolerant_Update | preserves_step R ].
Qed.

Lemma tolerant_removeOwners platformAdmin need (items : list T) :
  preserves R (removeOwners platformAdmin need items).
Proof.
  induction items as [|c items IH]; simpl;
    repeat first [ apply IH | apply tolerant_removeOwner | preserves_step R ].
Qed.

Lemma tolerant_collect platformAdmin label need :
  preserves R (collect T platformAdmin label need).
Proof.
  unfold collect.
  repeat first [ apply tolerant_List | apply tolerant_removeOwners
               | preserves_step R ].
Qed.

End Kind.

Lemma tolerant_upsertConfigMaps platformAdmin cms need :
  toleratesWrites ConfigMap R →
  preserves R (upsertConfigMaps platformAdmin cms need).
Proof.
  intros Hcm. revert need. induction cms as [|cm cms IH]; intros need;
    cbn [upsertConfigMaps];
    repeat first [ apply IH | apply tolerant_CreateOrUpdate; exact Hcm
                 | preserves_step R ].
Qed.

Lemma tolerant_reconcileConfigmap cfg platformAdmin :
  toleratesWrites ConfigMap R →
  preserves R (reconcileConfigmap cfg platformAdmin).
Proof.
  intros Hcm. unfold reconcileConfigmap.
  repeat first [ apply tolerant_upsertConfigMaps; exact Hcm
               | apply tolerant_collect; exact Hcm
               | preserves_step R ].
Qed.

Lemma tolerant_handleService platformAdmin c :
  toleratesWrites Service R →
  preserves R (handleService platformAdmin c).
Proof.
  intros Hsvc. unfold handleService.
  repeat first [ apply tolerant_CreateOrUpdate; exact Hsvc | preserves_step R ].
Qed.

Lemma tolerant_syncComponent platformAdmin c readyComponent :
  toleratesWrites Service R → toleratesWrites YurtAppSet R →
  preserves R (syncComponent platformAdmin c readyComponent).
Proof.
  intros Hsvc Hyas. unfold syncComponent, handleYurtAppSet, joinYurtAppSet.
  repeat first [ apply tolerant_handleService; exact Hsvc
               | apply tolerant_Get
               | apply tolerant_Create; exact Hyas
               | apply tolerant_Patch; exact Hyas
               | preserves_step R ].
Qed.

Lemma tolerant_onAbort {A} readyComponent total (m : M A) :
  toleratesCounters R → preserves R m →
  preserves R (onAbort (withComponentNums readyComponent total) m).
Proof.
  intros Hc Hm w. unfold onAbort. specialize (Hm w).
  destruct (m w) as [[a|e|msg] w1]; cbn [snd] in *; [done|..];
    (etransitivity; [exact Hm|apply Hc]).
Qed.

Lemma tolerant_deferStatus {A} readyComponent total (m : M A) :
  toleratesCounters R → preserves R m →
  preserves R (deferStatus (withComponentNums readyComponent total) m).
Proof.
  intros Hc Hm w. unfold deferStatus. specialize (Hm w).
  destruct (m w) as [r w1]; cbn [snd] in *.
  etransitivity; [exact Hm|apply Hc].
Qed.

Lemma tolerant_syncComponents platformAdmin total cs readyComponent need :
  toleratesWrites Service R → toleratesWrites YurtAppSet R →
  toleratesCounters R →
  preserves R (syncComponents platformAdmin total cs readyComponent need).
Proof.
  intros Hsvc Hyas Hc. revert readyComponent need.
  induction cs as [|c cs IH]; intros readyComponent need; cbn [syncComponents];
    repeat first [ apply IH
                 | apply tolerant_onAbort; [exact Hc|]
                 | apply tolerant_syncComponent; [exact Hsvc|exact Hyas]
                 | preserves_step R ].
Qed.

Lemma tolerant_reconcileComponent uD uS cfg platformAdmin :
  toleratesWrites Service R → toleratesWrites YurtAppSet R →
  toleratesCounters R →
  preserves R (reconcileComponent uD uS cfg platformAdmin).
Proof.
  intros Hsvc Hyas Hc. unfold reconcileComponent.
  repeat first [ apply tolerant_syncComponents; [exact Hsvc|exact Hyas|exact Hc]
               | apply tolerant_deferStatus; [exact Hc|]
               | apply tolerant_collect; first [exact Hsvc|exact Hyas]
               | preserves_step R ].
Qed.

Lemma tolerant_removeMemberships platformAdmin cs :
  toleratesWrites YurtAppSet R →
  preserves R (removeMemberships platformAdmin cs).
Proof.
  intros Hyas. induction cs as [|dc cs IH]; cbn [removeMemberships];
    repeat first [ apply IH | apply tolerant_Get
                 | apply tolerant_Patch; exact Hyas
                 | preserves_step R ].
Qed.

Lemma tolerant_reconcileDelete uD uS cfg platformAdmin :
  toleratesWrites YurtAppSet R → toleratesWrites PlatformAdmin R →
  preserves R (reconcileDelete uD uS cfg platformAdmin).
Proof.
  intros Hyas Hpa. unfold reconcileDelete.
  repeat first [ apply tolerant_removeMemberships; exact Hyas
               | apply tolerant_Update; exact Hpa
               | preserves_step R ].
Qed.

End Tolerant.

(** X5.  The deletion handler (lines 212-261) touches the workload-sets
    and the parent only: whatever calls fail, it deletes or changes no
    config map and no service, its own objects included, and it does not
    write the status the pass carries. *)
Theorem deletion_leaves_config_maps_and_services
    (unmarshalDeployments : string -> error + list DeploymentTemplateSpec)
    (unmarshalServices : string -> error + list ServiceTemplateSpec)
    (Configration : PlatformAdminControllerConfiguration)
    (platformAdmin : PlatformAdmin) (w : World) :
  let w' := snd (reconcileDelete unmarshalDeployments unmarshalServices
                   Configration platformAdmin w) in
  configMaps (cluster w') = configMaps (cluster w) ∧
  services (cluster w') = services (cluster w) ∧
  statusCell w' = statusCell w.
Proof.
  repeat split.
  - by apply (tolerant_reconcileDelete (keeps configMaps)).
  - by apply (tolerant_reconcileDelete (keeps services)).
  - symmetry. by apply (tolerant_reconcileDelete (cellStep eq)).
Qed.

(** ** The two counters of reconcileComponent *)

Lemma int32_range z : inRange32 (int32 z).
Proof.
  unfold inRange32, int32.
  pose proof (Z.mod_pos_bound (z + 2^31) (2^32)). lia.
Qed.

Lemma int32_id z : inRange32 z → int32 z = z.
Proof.
  unfold inRange32, int32. intros Hz.
  rewrite Z.mod_small by lia. lia.
Qed.

Lemma int32_zero z : - 2^32 < z < 2^32 → int32 z = 0 → z = 0.
Proof.
  unfold int32. intros Hz E.
  assert ((z + 2^31) mod 2^32 = 2^31) as Hm by lia.
  destruct (Z.le_gt_cases 0 (z + 2^31)) as [Hpos|Hneg].
  - destruct (Z.lt_ge_cases (z + 2^31) (2^32)) as [Hlt|Hge].
    + rewrite Z.mod_small in Hm by lia. lia.
    + replace (z + 2^31) with ((z + 2^31 - 2^32) + 1 * 2^32) in Hm by lia.
      rewrite Z.mod_add in Hm by lia. rewrite Z.mod_small in Hm by lia. lia.
  - replace (z + 2^31) with ((z + 2^31 + 2^32) + (-1) * 2^32) in Hm by lia.
    rewrite Z.mod_add in Hm by lia. rewrite Z.mod_small in Hm by lia. lia.
Qed.

Lemma resultIn_bind {A B} (Q : B → Prop) (m : M A) (f : A -> M B) :
  (∀ a, resultIn Q (f a)) → resultIn Q (bind m f).
Proof.
  intros Hf w b w'. unfold bind.
  destruct (m w) as [[a|e|msg] w1]; [apply Hf|done..].
Qed.

Lemma resultIn_ret {A} (Q : A → Prop) (a : A) : Q a → resultIn Q (ret a).
Proof. intros Ha w a' w' [= <- _]. done. Qed.

Lemma resultIn_throw {A} (Q : A → Prop) e : resultIn Q (throw e).
Proof. intros w a w'. done. Qed.

Lemma resultIn_panic {A} (Q : A → Prop) msg : resultIn Q (panic msg).
Proof. intros w a w'. done. Qed.

(** An iteration of the loop counts its component or not. *)
Lemma syncComponent_ready platformAdmin c readyComponent :
  resultIn (λ r, r = readyComponent ∨ r = int32 (readyComponent + 1))
           (syncComponent platformAdmin c readyComponent).
Proof.
  unfold syncComponent, joinYurtAppSet.
  repeat first [ apply resultIn_ret; auto; fail
               | apply resultIn_throw | apply resultIn_panic
               | apply resultIn_bind; intros ?
               | match goal with
                 | |- resultIn _ (match ?x with _ => _ end) => destruct x
                 | |- resultIn _ (if ?x then _ else _) => destruct x
                 end ].
Qed.

Lemma cell_syncComponent platformAdmin c readyComponent w :
  statusCell (snd (syncComponent platformAdmin c readyComponent w)) = statusCell w.
Proof. symmetry. by apply (tolerant_syncComponent (cellStep eq)). Qed.

Lemma cell_collect (T : Type) `{Object T} platformAdmin label need w :
  statusCell (snd (collect T platformAdmin label need w)) = statusCell w.
Proof. symmetry. by apply (tolerant_collect (cellStep eq)). Qed.

Lemma syncComponents_counts platformAdmin total cs readyComponent need w res w' :
  syncComponents platformAdmin total cs readyComponent need w = (res, w') →
  inRange32 readyComponent →
  ∃ ready,
    inRange32 ready ∧
    (0 ≤ readyComponent →
     readyComponent + Z.of_nat (length cs) < 2^31 →
     readyComponent ≤ ready ≤ readyComponent + Z.of_nat (length cs)) ∧
    match res with
    | Ok (ready', _) => ready' = ready ∧ statusCell w' = statusCell w
    | _ => statusCell w' = withComponentNums ready total (statusCell w)
    end.
Proof.
  revert readyComponent need w.
  induction cs as [|c cs IH]; intros readyComponent need w; cbn [syncComponents].
  { intros [= <- <-] Hr. exists readyComponent. simpl.
    split; [done|]. split; [intros; lia|done]. }
  unfold bind at 1, onAbort.
  pose proof (syncComponent_ready platformAdmin c readyComponent w) as Hready.
  pose proof (cell_syncComponent platformAdmin c readyComponent w) as Hcell.
  destruct (syncComponent platformAdmin c readyComponent w) as [[r1|e|msg] w1];
    cbn [snd] in Hcell.
  - intros Hrun Hr. specialize (Hready r1 w1 eq_refl).
    assert (inRange32 r1) as Hr1
      by (destruct Hready as [->| ->]; [done|apply int32_range]).
    destruct (IH _ _ _ Hrun Hr1) as (ready & Hin & Hbound & Hres).
    exists ready. split; [done|]. split.
    + intros H0 Hlen. rewrite length_cons, Nat2Z.inj_succ in Hlen |- *.
      assert (r1 = readyComponent ∨ r1 = readyComponent + 1) as Hr1'.
      { destruct Hready as [->| ->]; [by left|right].
        apply int32_id. unfold inRange32. lia. }
      assert (readyComponent ≤ r1 ≤ readyComponent + 1) as Hb1 by lia.
      specialize (Hbound ltac:(lia) ltac:(lia)). lia.
    + destruct res as [[ready' need']|e|msg]; by rewrite <- Hcell.
  - intros [= <- <-] Hr. exists readyComponent. split; [done|].
    split; [intros; lia|]. cbn. by rewrite Hcell.
  - intros [= <- <-] Hr. exists readyComponent. split; [done|].
    split; [intros; lia|]. cbn. by rewrite Hcell.
Qed.

(** What every exit of reconcileComponent leaves in the status cell, once
    the desired components are resolved. *)
Lemma reconcileComponent_counts uD uS cfg platformAdmin desired w res w' :
  desiredComponents uD uS cfg platformAdmin = inr desired →
  reconcileComponent uD uS cfg platformAdmin w = (res, w') →
  ∃ ready,
    inRange32 ready ∧
    (Z.of_nat (length desired) < 2^31 → 0 ≤ ready ≤ Z.of_nat (length desired)) ∧
    statusCell w' = withComponentNums ready (length desired) (statusCell w) ∧
    (∀ b, res = Ok b →
          b = bool_decide (ready = int32 (Z.of_nat (length desired)))).
Proof.
  intros Hdes. unfold reconcileComponent. rewrite Hdes.
  unfold lift, bind at 1, ret. unfold bind at 1.
  destruct (syncComponents _ _ _ _ _ w) as [r1 w1] eqn:Hsync.
  apply syncComponents_counts in Hsync as (ready & Hin & Hbound & Hres);
    [|unfold inRange32; lia].
  intros Hrun. exists ready. split; [done|].
  split; [intros; apply Hbound; lia|]. revert Hrun.
  destruct r1 as [[ready' need]|e|msg].
  - destruct Hres as [-> Hcell]. unfold deferStatus, bind.
    pose proof (cell_collect Service platformAdmin LabelService need w1) as Hc1.
    destruct (collect Service _ _ _ w1) as [[[]|e|msg] w2]; cbn [snd] in Hc1.
    + pose proof (cell_collect YurtAppSet platformAdmin LabelDeployment need w2) as Hc2.
      destruct (collect YurtAppSet _ _ _ w2) as [[[]|e|msg] w3]; cbn [snd] in Hc2;
        unfold ret; intros [= <- <-]; cbn [statusCell withStatusCell];
        (split; [congruence|]); by intros b [= <-].
    + intros [= <- <-]. cbn [statusCell withStatusCell]. split; [congruence|done].
    + intros [= <- <-]. cbn [statusCell withStatusCell]. split; [congruence|done].
  - intros [= <- <-]. split; [done|]. done.
  - intros [= <- <-]. split; [done|]. done.
Qed.

(** X6.  The two counters of the status are assigned by the deferred
    function of lines 357-360 on every exit of reconcileComponent, an
    error or a panic included, once the desired components are resolved:
    with fewer than 2^31 desired components, both are non-negative and
    add up to the number of desired components, the rest of the status is
    as it was, and the function reports true exactly when the unready
    count is zero. *)
Theorem component_counters_add_up
    (unmarshalDeployments : string -> error + list DeploymentTemplateSpec)
    (unmarshalServices : string -> error + list ServiceTemplateSpec)
    (Configration : PlatformAdminControllerConfiguration)
    (platformAdmin : PlatformAdmin) (desired : list Component) (w : World) :
  desiredComponents unmarshalDeployments unmarshalServices Configration
    platformAdmin = inr desired →
  Z.of_nat (length desired) < 2^31 →
  let run := reconcileComponent unmarshalDeployments unmarshalServices
               Configration platformAdmin w in
  let s := statusCell (snd run) in
  0 ≤ st_ReadyComponentNum s ∧ 0 ≤ st_UnreadyComponentNum s ∧
  st_ReadyComponentNum s + st_UnreadyComponentNum s = Z.of_nat (length desired) ∧
  (∀ b, fst run = Ok b → (b = true ↔ st_UnreadyComponentNum s = 0)) ∧
  st_Ready s = st_Ready (statusCell w) ∧
  st_Initialized s = st_Initialized (statusCell w) ∧
  st_Conditions s = st_Conditions (statusCell w).
Proof.
  intros Hdes Hlen run s. subst s run.
  destruct (reconcileComponent _ _ _ _ w) as [res w'] eqn:Hrun.
  destruct (reconcileComponent_counts _ _ _ _ _ _ _ _ Hdes Hrun)
    as (ready & Hin & Hbound & Hcell & Hres).
  specialize (Hbound Hlen). cbn [fst snd]. rewrite Hcell. cbn.
  assert (int32 (Z.of_nat (length desired)) = Z.of_nat (length desired)) as Hn
    by (apply int32_id; unfold inRange32; lia).
  rewrite Hn.
  assert (int32 (Z.of_nat (length desired) - ready)
          = Z.of_nat (length desired) - ready) as ->
    by (apply int32_id; unfold inRange32; lia).
  split; [lia|]. split; [lia|]. split; [lia|]. split; [|done].
  intros b Hb. rewrite (Hres b Hb), Hn, bool_decide_eq_true. lia.
Qed.

(** ** The outcomes of reconcileNormal *)

(** The collection is best-effort: it returns no error, whatever calls
    fail. *)
Lemma removeOwners_returns {T} `{Object T} platformAdmin need (items : list T) w :
  fst (removeOwners platformAdmin need items w) = Ok tt.
Proof.
  revert w. induction items as [|c items IH]; intros w; [done|].
  cbn [removeOwners]. unfold bind at 1.
  destruct (decide (om_Name (metaOf c) ∈ need)); [apply IH|].
  unfold bind, try.
  pose proof (noPanic_removeOwner platformAdmin c w) as Hnp.
  destruct (removeOwner platformAdmin c w) as [[[]|e|msg] w1]; cbn in *;
    [apply IH..|by destruct (Hnp msg)].
Qed.

Lemma collect_returns (T : Type) `{Object T} platformAdmin label need w :
  fst (collect T platformAdmin label need w) = Ok tt.
Proof.
  unfold collect, bind, try.
  pose proof (noPanic_apiCall VList (kindOf T)
                (om_Namespace (pa_meta platformAdmin), "")
                (λ c, inr (filter (selected (om_Namespace (pa_meta platformAdmin))
                                     LabelPlatformAdminGenerate label)
                             (snd <$> map_to_list (storeOf c)), c)) w) as Hnp.
  unfold List.
  destruct (apiCall _ _ _ _ w) as [[items|e|msg] w1]; cbn in *;
    [apply removeOwners_returns|done|by destruct (Hnp msg)].
Qed.

Lemma reconcileConfigmap_not_false cfg platformAdmin w :
  fst (reconcileConfigmap cfg platformAdmin w) ≠ Ok false.
Proof.
  unfold reconcileConfigmap, bind.
  destruct (upsertConfigMaps _ _ _ w) as [[need|e|msg] w1]; [|done..].
  destruct (collect ConfigMap _ _ _ w1) as [[[]|e|msg] w2]; done.
Qed.

Lemma reconcileNormal_phases (R : relation World) `{!PreOrder R}
    uD uS cfg platformAdmin w :
  toleratesReads R → toleratesWrites ConfigMap R → toleratesWrites Service R →
  toleratesWrites YurtAppSet R → toleratesCounters R →
  toleratesConditions R → toleratesReady R →
  ∃ w1, R w w1 ∧
    ((∃ r, reconcileNormal uD uS cfg platformAdmin w = (r, w1) ∧
           ∀ res, r = Ok res →
                  res = {| RequeueAfter := 10 * Second |} ∧
                  st_UnreadyComponentNum (statusCell w1) ≠ 0) ∨
     (reconcileNormal uD uS cfg platformAdmin w =
        (Update (prepared platformAdmin) ;; ret {| RequeueAfter := 0 |})%go w1 ∧
      st_Ready (statusCell w1) = true ∧
      st_UnreadyComponentNum (statusCell w1) = 0)).
Proof.
  intros Hread Hcm Hsvc Hyas Hcount Hcond Hrdy.
  remember (reconcileNormal uD uS cfg platformAdmin w) as run eqn:Hrun0.
  unfold reconcileNormal in Hrun0. cbv zeta in Hrun0.
  fold (prepared platformAdmin) in Hrun0.
  unfold bind at 1, try in Hrun0.
  pose proof (tolerant_reconcileConfigmap R Hread cfg (prepared platformAdmin)
                Hcm w) as H1.
  pose proof (reconcileConfigmap_not_false cfg (prepared platformAdmin) w) as Hnf.
  destruct (reconcileConfigmap cfg (prepared platformAdmin) w) as [[[]|e|msg] w1];
    cbn [fst snd] in *.
  - unfold setCondition, modifyStatus, bind at 1 in Hrun0.
    set (w2 := withStatusCell _ w1) in Hrun0.
    assert (R w w2) as H2 by (etransitivity; [exact H1|apply Hcond]).
    unfold bind at 1, try in Hrun0.
    pose proof (tolerant_reconcileComponent R Hread uD uS cfg
                  (prepared platformAdmin) Hsvc Hyas Hcount w2) as H3.
    destruct (reconcileComponent uD uS cfg (prepared platformAdmin) w2)
      as [res w3] eqn:Hrun.
    cbn [snd] in H3.
    assert (R w w3) as H4 by (etransitivity; [exact H2|exact H3]).
    set (w4 := withStatusCell
                 (SetPlatformAdminCondition
                    (NewPlatformAdminCondition ComponentAvailableCondition
                       ConditionTrue "" "") (statusCell w3)) w3).
    assert (R w w4) as H5 by (etransitivity; [exact H4|apply Hcond]).
    destruct res as [b|e|msg].
    + destruct (desiredComponents uD uS cfg (prepared platformAdmin))
        as [err|desired] eqn:Hdes.
      { unfold reconcileComponent in Hrun. rewrite Hdes in Hrun. done. }
      destruct (reconcileComponent_counts _ _ _ _ _ _ _ _ Hdes Hrun)
        as (ready & Hin & _ & Hcell & Hres).
      specialize (Hres b eq_refl).
      destruct b.
      * exists (withStatusCell (withReady true (statusCell w4)) w4).
        split; [etransitivity; [exact H5|apply Hrdy]|].
        right. split; [exact Hrun0|].
        cbn. rewrite Hcell. cbn. split; [done|].
        symmetry in Hres. apply bool_decide_eq_true in Hres. rewrite Hres.
        by rewrite Z.sub_diag.
      * eexists. split; [|left; eexists; split; [exact Hrun0|]].
        { etransitivity; [exact H4|apply Hcond]. }
        intros res [= <-]. split; [done|]. cbn. rewrite Hcell. cbn.
        symmetry in Hres. apply bool_decide_eq_false in Hres.
        intros Hz. apply int32_zero in Hz.
        -- apply Hres. lia.
        -- pose proof (int32_range (Z.of_nat (length desired))) as Hl.
           unfold inRange32 in *. lia.
    + eexists. split; [|left; eexists; split; [exact Hrun0|done]].
      etransitivity; [exact H4|apply Hcond].
    + eexists. split; [exact H4|]. left. eexists. split; [exact Hrun0|done].
  - done.
  - eexists. split; [|left; eexists; split; [exact Hrun0|done]].
    etransitivity; [exact H1|apply Hcond].
  - eexists. split; [exact H1|]. left. eexists. split; [exact Hrun0|done].
Qed.

Lemma AddFinalizer_key finalizer m :
  om_Namespace (AddFinalizer finalizer m) = om_Namespace m ∧
  om_Name (AddFinalizer finalizer m) = om_Name m ∧
  finalizer ∈ om_Finalizers (AddFinalizer finalizer m).
Proof.
  unfold AddFinalizer. destruct (decide (finalizer ∈ om_Finalizers m)); [done|].
  cbn. split; [done|]. split; [done|]. apply elem_of_app. right. by left.
Qed.

Lemma objectKey_prepared platformAdmin :
  objectKey (prepared platformAdmin) = objectKey platformAdmin.
Proof.
  unfold objectKey, prepared. cbn.
  by destruct (AddFinalizer_key PlatformAdminFinalizer (pa_meta platformAdmin))
    as (-> & -> & _).
Qed.

(** X7.  reconcileNormal (lines 263-299) returns without error in two ways
    only: with no requeue, and then the status it leaves is Ready with no
    unready component; or with a requeue after ten seconds, and then the
    unready count it leaves is not zero.  The requeue of lines 276-277 for
    config maps never happens: reconcileConfigmap returns true or an
    error. *)
Theorem requeue_exactly_when_unready
    (unmarshalDeployments : string -> error + list DeploymentTemplateSpec)
    (unmarshalServices : string -> error + list ServiceTemplateSpec)
    (Configration : PlatformAdminControllerConfiguration)
    (platformAdmin : PlatformAdmin) (w : World) (res : Result) :
  let run := reconcileNormal unmarshalDeployments unmarshalServices
               Configration platformAdmin w in
  fst run = Ok res →
  (res = {| RequeueAfter := 0 |} ∧
   st_Ready (statusCell (snd run)) = true ∧
   st_UnreadyComponentNum (statusCell (snd run)) = 0) ∨
  (res = {| RequeueAfter := 10 * Second |} ∧
   st_UnreadyComponentNum (statusCell (snd run)) ≠ 0).
Proof.
  intros run. subst run.
  destruct (reconcileNormal_phases (keeps (λ _, tt)) unmarshalDeployments
              unmarshalServices Configration platformAdmin w)
    as (w1 & _ & [(r & -> & Hres)|(-> & Hready & Hzero)]); try done.
  - cbn [fst snd]. intros ->. right. by apply Hres.
  - unfold bind.
    destruct (Update_cases (prepared platformAdmin) w1)
      as [[e ->]|(stored & _ & ->)]; [done|].
    unfold ret. cbn [fst snd]. intros [= <-]. left. done.
Qed.

(** X8.  reconcileNormal writes the parent in its last call only (line
    293): unless it returns without requeue, the stored parent is as it
    was, so the finalizer added in memory by line 265 is not stored while
    a config map or a component is not ready; when it returns without
    requeue the stored parent has the finalizer and its stored status is
    untouched by that call. *)
Theorem finalizer_stored_only_when_ready
    (unmarshalDeployments : string -> error + list DeploymentTemplateSpec)
    (unmarshalServices : string -> error + list ServiceTemplateSpec)
    (Configration : PlatformAdminControllerConfiguration)
    (platformAdmin : PlatformAdmin) (w : World) :
  let run := reconcileNormal unmarshalDeployments unmarshalServices
               Configration platformAdmin w in
  (fst run ≠ Ok {| RequeueAfter := 0 |} →
   platformAdmins (cluster (snd run)) = platformAdmins (cluster w)) ∧
  (fst run = Ok {| RequeueAfter := 0 |} →
   ∃ stored,
     platformAdmins (cluster w) !! objectKey platformAdmin = Some stored ∧
     platformAdmins (cluster (snd run)) =
       <[objectKey platformAdmin :=
           withStatus (pa_Status stored)
             (setMeta (AddFinalizer PlatformAdminFinalizer (pa_meta platformAdmin))
                      platformAdmin)]> (platformAdmins (cluster w)) ∧
     PlatformAdminFinalizer ∈
       om_Finalizers (AddFinalizer PlatformAdminFinalizer (pa_meta platformAdmin))).
Proof.
  intros run. subst run.
  destruct (reconcileNormal_phases (keeps platformAdmins) unmarshalDeployments
              unmarshalServices Configration platformAdmin w)
    as (w1 & Hkeep & [(r & -> & Hres)|(-> & _)]); try done.
  - cbn [fst snd]. split; [done|]. intros ->.
    by destruct (Hres _ eq_refl) as [? _].
  - unfold bind.
    destruct (Update_cases (prepared platformAdmin) w1)
      as [[e ->]|(stored & Hst & ->)]; unfold ret; cbn [fst snd].
    + split; [done|done].
    + split; [done|]. intros _. exists stored.
      rewrite objectKey_prepared in *. unfold keeps in Hkeep.
      cbn [storeOf PlatformAdmin_Object] in Hst. rewrite Hkeep in Hst.
      split; [done|]. split.
      * cbn [cluster logged setStore storeOf PlatformAdmin_Object platformAdmins].
        by rewrite Hkeep.
      * apply AddFinalizer_key.
Qed.

#[global] Instance readyKept_preorder : PreOrder readyKept.
Proof.
  split; [by intros s|].
  intros s1 s2 s3 [H1 E1] [H2 E2]. split; [by intros ?%H1%H2|congruence].
Qed.

Lemma reconcileNormal_readyKept uD uS cfg platformAdmin w :
  readyKept (statusCell w)
            (statusCell (snd (reconcileNormal uD uS cfg platformAdmin w))).
Proof.
  destruct (reconcileNormal_phases (cellStep readyKept) uD uS cfg platformAdmin w)
    as (w1 & Hkeep & [(r & -> & _)|(-> & _)]); try done.
  unfold bind.
  destruct (Update_cases (prepared platformAdmin) w1)
    as [[e ->]|(stored & _ & ->)]; done.
Qed.

(** X9.  A pass over a parent that is not marked for deletion never
    withdraws Ready: the only assignment is that of line 292, so the
    status the pass ends with (the one its deferred function sends) is
    Ready whenever the fetched status was, also when the pass requeues or
    fails; and it has Initialized as fetched, the assignment of line 267
    being made to the in-memory parent whose status line 191 overwrites. *)
Theorem ready_is_never_withdrawn
    (unmarshalDeployments : string -> error + list DeploymentTemplateSpec)
    (unmarshalServices : string -> error + list ServiceTemplateSpec)
    (Configration : PlatformAdminControllerConfiguration)
    (request : string * string) (platformAdmin : PlatformAdmin) (w w1 : World) :
  Get (T:=PlatformAdmin) request w = (Ok platformAdmin, w1) →
  om_DeletionTimestamp (pa_meta platformAdmin) = None →
  let s := statusCell (snd (Reconcile unmarshalDeployments unmarshalServices
                              Configration request w)) in
  (st_Ready (pa_Status platformAdmin) = true → st_Ready s = true) ∧
  st_Initialized s = st_Initialized (pa_Status platformAdmin).
Proof.
  intros Hget Hdel s. subst s.
  rewrite (Reconcile_fetched _ _ _ _ _ _ _ Hget), Hdel.
  unfold deferStatusUpdate.
  pose proof (reconcileNormal_readyKept unmarshalDeployments unmarshalServices
                Configration platformAdmin
                (withStatusCell (pa_Status platformAdmin) w1)) as Hkept.
  destruct (reconcileNormal _ _ _ _ _) as [r w2]. cbn [snd statusCell withStatusCell] in Hkept.
  unfold StatusUpdate.
  match goal with
  | |- context [apiCall ?v ?k ?key ?act ?w0] =>
      destruct (apiCall_cases v k key act w0) as [[e ->]|(a & c & _ & ->)]
  end; by destruct r.
Qed.


(** ** Entering the pass *)

(** X11.  A request for a parent that is not stored (lines 176-182) ends
    the pass after the one Get: nothing is written, the status is not
    touched, and the pass returns no error and no requeue, unless the Get
    itself fails for another reason, in which case that error is
    returned. *)
Theorem missing_parent_is_not_an_error
    (unmarshalDeployments : string -> error + list DeploymentTemplateSpec)
    (unmarshalServices : string -> error + list ServiceTemplateSpec)
    (Configration : PlatformAdminControllerConfiguration)
    (request : string * string) (w : World) :
  platformAdmins (cluster w) !! request = None →
  let run := Reconcile unmarshalDeployments unmarshalServices Configration
               request w in
  cluster (snd run) = cluster w ∧ statusCell (snd run) = statusCell w ∧
  (∃ err, trace (snd run)
          = trace w ++ [event VGet KPlatformAdmin request (Some err)]) ∧
  (∀ msg, head (faults w) = Some (Some msg) → fst run = Err (ErrInjected msg)) ∧
  ((∀ msg, head (faults w) ≠ Some (Some msg)) →
   fst run = Ok {| RequeueAfter := 0 |}).
Proof.
  intros Hnone run. subst run. unfold Reconcile, bind, try.
  destruct (Get_cases (T:=PlatformAdmin) request w)
    as [[m Hg]|[[_ Hg]|(obj & Hsome & _)]].
  - rewrite Hg. cbn. split; [done|]. split; [done|]. split; [by eexists|].
    unfold Get, apiCall in Hg.
    destruct (faults w) as [|[msg|] rest]; cbn [storeOf PlatformAdmin_Object] in Hg;
      rewrite ?Hnone in Hg; [done| |done].
    simplify_eq. split.
    + by intros msg' [= ->].
    + intros Hno. by destruct (Hno m).
  - rewrite Hg. cbn. split; [done|]. split; [done|]. split; [by eexists|].
    unfold Get, apiCall in Hg. split; [|done].
    intros msg Hhead. destruct (faults w) as [|[msg'|] rest]; [done| |done].
    done.
  - cbn [storeOf PlatformAdmin_Object] in Hsome. congruence.
Qed.

Section Undecodable.

Context (unmarshalDeployments : string -> error + list DeploymentTemplateSpec).
Context (unmarshalServices : string -> error + list ServiceTemplateSpec).
Context (Configration : PlatformAdminControllerConfiguration).

(** X12.  An annotation array that cannot be decoded is an error of the
    resolver (the workload array is decoded first).  reconcileComponent
    and the deletion handler then return that error before any call: the
    two counters are not assigned, and a parent that is marked for
    deletion keeps its finalizer, pass after pass, until the annotation is
    repaired. *)
Theorem undecodable_annotation_blocks_the_pass
    (platformAdmin : PlatformAdmin) (err : error) :
  let annotation := om_Annotations (pa_meta platformAdmin) in
  match decoded unmarshalDeployments annotation "AdditionalDeployments" with
  | inl e => e = err
  | inr _ => decoded unmarshalServices annotation "AdditionalServices" = inl err
  end →
  annotationToComponent unmarshalDeployments unmarshalServices annotation
    = inl err ∧
  (∀ w, reconcileComponent unmarshalDeployments unmarshalServices Configration
          platformAdmin w = (Err err, w)) ∧
  (∀ w, reconcileDelete unmarshalDeployments unmarshalServices Configration
          platformAdmin w = (Err err, w)) ∧
  (∀ request w w1,
     Get (T:=PlatformAdmin) request w = (Ok platformAdmin, w1) →
     om_DeletionTimestamp (pa_meta platformAdmin) ≠ None →
     let run := Reconcile unmarshalDeployments unmarshalServices Configration
                  request w in
     fst run = Err err ∧ cluster (snd run) = cluster w ∧
     trace (snd run) = trace w ++ [event VGet KPlatformAdmin request None]).
Proof.
  intros annotation Hdec.
  assert (annotationToComponent unmarshalDeployments unmarshalServices annotation
          = inl err) as Hres.
  { unfold annotationToComponent. unfold decoded in Hdec.
    destruct (match annotation !! "AdditionalDeployments" with
              | Some text => unmarshalDeployments text
              | None => inr []
              end) as [e|ds]; [by subst|].
    by rewrite Hdec. }
  assert (desiredComponents unmarshalDeployments unmarshalServices Configration
            platformAdmin = inl err) as Hdes.
  { unfold desiredComponents. fold annotation. by rewrite Hres. }
  split; [done|]. split; [|split].
  - intros w. unfold reconcileComponent. by rewrite Hdes.
  - intros w. unfold reconcileDelete. by rewrite Hdes.
  - intros request w w1 Hget Hdel run. subst run.
    rewrite (Reconcile_fetched _ _ _ _ _ _ _ Hget).
    destruct (om_DeletionTimestamp (pa_meta platformAdmin)); [|done].
    unfold reconcileDelete. rewrite Hdes. cbn.
    apply Get_ok_trace in Hget as (Htr & Hcl & _). done.
Qed.

End Undecodable.

(** ** The collection, whatever calls fail *)

Lemma Delete_cases {T} `{Object T} (obj : T) w :
  (∃ e, Delete obj w =
          (Err e, logged w (event VDelete (kindOf T) (objectKey obj) (Some e)) (cluster w))) ∨
  (∃ stored, storeOf (cluster w) !! objectKey obj = Some stored ∧
             Delete obj w =
               (Ok tt, logged w (event VDelete (kindOf T) (objectKey obj) None)
                         (setStore (delete (objectKey obj) (storeOf (cluster w)))
                                   (cluster w)))).
Proof.
  unfold Delete.
  destruct (apiCall_cases VDelete (kindOf T) (objectKey obj)
              (λ c, match storeOf c !! objectKey obj with
                    | Some _ =>
                        inr (tt, setStore (delete (objectKey obj) (storeOf c)) c)
                    | None => inl ErrNotFound
                    end) w) as [[e ->]|(a & c & Hact & ->)]; [eauto|].
  right. destruct (storeOf (cluster w) !! objectKey obj) as [stored|]; [|done].
  simplify_eq. eauto.
Qed.

Lemma Create_cases {T} `{Object T} (obj : T) w :
  (∃ e, Create obj w =
          (Err e, logged w (event VCreate (kindOf T) (objectKey obj) (Some e)) (cluster w))) ∨
  (storeOf (cluster w) !! objectKey obj = None ∧
   Create obj w =
     (Ok tt, logged w (event VCreate (kindOf T) (objectKey obj) None)
               (setStore (<[objectKey obj := obj]> (storeOf (cluster w)))
                         (cluster w)))).
Proof.
  unfold Create.
  destruct (apiCall_cases VCreate (kindOf T) (objectKey obj)
              (λ c, match storeOf c !! objectKey obj with
                    | Some _ => inl ErrAlreadyExists
                    | None => inr (tt, setStore (<[objectKey obj := obj]> (storeOf c)) c)
                    end) w) as [[e ->]|(a & c & Hact & ->)]; [eauto|].
  right. destruct (storeOf (cluster w) !! objectKey obj) as [stored|]; [done|].
  simplify_eq. eauto.
Qed.

Section CollectionAnyFault.

Context {T : Type} `{ObjectLaws T}.
Context (platformAdmin : PlatformAdmin).

(** removeOwner on an object as it is stored: the object is left as it
    is, or replaced by what [collected] gives. *)
Lemma removeOwner_any (obj : T) w :
  storeOf (cluster w) !! objectKey obj = Some obj →
  ∃ s', cluster (snd (removeOwner platformAdmin obj w)) = setStore s' (cluster w) ∧
        (s' = storeOf (cluster w) ∨
         s' = partial_alter (λ _, collected platformAdmin obj) (objectKey obj)
                (storeOf (cluster w))).
Proof.
  intros Hst. unfold removeOwner, collected.
  destruct (trimOwners _ _) as [owners|].
  - destruct (decide (length owners = 0%nat)) as [Hlen|Hlen].
    + destruct (Delete_cases obj w) as [[err ->]|(stored & _ & ->)];
        cbn [snd cluster logged].
      * exists (storeOf (cluster w)). by rewrite setStore_storeOf; split; [|left].
      * eexists. split; [done|]. by right.
    + match goal with
      | |- context [Update ?o ?w0] =>
          destruct (Update_cases o w0) as [[err ->]|(stored & Hs & ->)]
      end; cbn [snd cluster logged].
      * exists (storeOf (cluster w)). by rewrite setStore_storeOf; split; [|left].
      * rewrite objectKey_owned in *. eexists. split; [done|]. right.
        assert (stored = obj) as -> by congruence.
        by rewrite onUpdate_setMeta.
  - exists (storeOf (cluster w)). cbn. by rewrite setStore_storeOf; split; [|left].
Qed.

Lemma removeOwners_any (need : gset string) (items : list T) w :
  NoDup (objectKey <$> items) →
  (∀ c, c ∈ items → storeOf (cluster w) !! objectKey c = Some c) →
  ∃ s',
    cluster (snd (removeOwners platformAdmin need items w)) = setStore s' (cluster w) ∧
    (∀ key, key ∉ objectKey <$> items → s' !! key = storeOf (cluster w) !! key) ∧
    (∀ c, c ∈ items →
          s' !! objectKey c = Some c ∨
          ((om_Name (metaOf c) ∉ need) ∧
           s' !! objectKey c = collected platformAdmin c)).
Proof.
  revert w. induction items as [|c items IH]; intros w Hnd Hstored; simpl.
  { exists (storeOf (cluster w)). rewrite setStore_storeOf.
    split; [done|]. split; [done|]. intros c Hc. by apply elem_of_nil in Hc. }
  apply NoDup_cons in Hnd as [Hc Hnd].
  assert (∃ s1 w1 r,
    (if decide (om_Name (metaOf c) ∈ need) then ret tt
     else (_ <- try (removeOwner platformAdmin c) ;; ret tt)%go) w = (r, w1) ∧
    (r = Ok tt ∨ ∃ msg, r = Panic msg ∧ False) ∧
    cluster w1 = setStore s1 (cluster w) ∧
    (∀ key, key ≠ objectKey c → s1 !! key = storeOf (cluster w) !! key) ∧
    (s1 !! objectKey c = Some c ∨
     ((om_Name (metaOf c) ∉ need) ∧ s1 !! objectKey c = collected platformAdmin c)))
    as (s1 & w1 & r & Hstep & Hr & Hcl1 & Hout1 & Hin1).
  { destruct (decide (om_Name (metaOf c) ∈ need)) as [Hn|Hn].
    - exists (storeOf (cluster w)), w, (Ok tt). rewrite setStore_storeOf.
      split; [done|]. split; [by left|]. split; [done|]. split; [done|].
      left. apply Hstored. by left.
    - destruct (removeOwner_any c w) as (s1 & Hcl & Hs1); [apply Hstored; by left|].
      pose proof (noPanic_removeOwner platformAdmin c w) as Hnp.
      unfold bind, try.
      destruct (removeOwner platformAdmin c w) as [[[]|e|msg] w1];
        cbn [snd] in Hcl; [| |by destruct (Hnp msg)];
        (exists s1, w1, (Ok tt); split; [done|]; split; [by left|];
         split; [done|];
         destruct Hs1 as [->| ->];
         [split; [done|]; left; apply Hstored; by left
         |split; [intros key Hk; by rewrite lookup_partial_alter_ne
                 |right; split; [done|]; by rewrite lookup_partial_alter_eq]]). }
  destruct Hr as [->|(msg & _ & [])].
  unfold bind at 1. rewrite Hstep.
  destruct (IH w1 Hnd) as (s' & Hcl' & Hout & Hin).
  { intros c' Hc'. rewrite Hcl1, storeOf_setStore.
    rewrite Hout1.
    - apply Hstored. by right.
    - intros E. apply Hc. rewrite <- E. by apply list_elem_of_fmap_2. }
  exists s'. split; [by rewrite Hcl', Hcl1, setStore_setStore|]. split.
  - intros key Hkey. rewrite not_elem_of_cons in Hkey. destruct Hkey as [Hne Hkey].
    rewrite (Hout key Hkey), Hcl1, storeOf_setStore. by apply Hout1.
  - intros c' [->|Hc']%elem_of_cons; [|by apply Hin].
    rewrite (Hout _ Hc), Hcl1, storeOf_setStore. exact Hin1.
Qed.

Lemma collected_key (obj obj' : T) :
  collected platformAdmin obj = Some obj' → objectKey obj' = objectKey obj.
Proof.
  unfold collected. destruct (trimOwners _ _) as [owners|]; [|by intros [= <-]].
  destruct (decide _) as [Hlen|Hlen]; [done|]. intros [= <-]. apply objectKey_owned.
Qed.

Lemma collect_any (label : string) (need : gset string) w :
  wfStore (storeOf (T:=T) (cluster w)) →
  ∃ s',
    cluster (snd (collect T platformAdmin label need w)) = setStore s' (cluster w) ∧
    wfStore s' ∧
    ∀ key,
      s' !! key = storeOf (cluster w) !! key ∨
      ∃ obj, storeOf (cluster w) !! key = Some obj ∧
             selected (om_Namespace (pa_meta platformAdmin))
               LabelPlatformAdminGenerate label obj ∧
             (om_Name (metaOf obj) ∉ need) ∧
             s' !! key = collected platformAdmin obj.
Proof.
  intros Hwf. unfold collect, bind, try, List.
  match goal with
  | |- context [apiCall ?v ?k ?key ?act w] =>
      destruct (apiCall_cases v k key act w) as [[e ->]|(items & c & Hact & ->)]
  end.
  { exists (storeOf (cluster w)). cbn. rewrite setStore_storeOf.
    split; [done|]. split; [done|]. by left. }
  injection Hact as <- <-.
  match goal with
  | |- context [removeOwners _ _ ?items ?w0] =>
      destruct (removeOwners_any need items w0) as (s' & Hcl & Hout & Hin)
  end.
  - by apply listed_NoDup.
  - intros c Hc. by apply listed_elem in Hc as [_ Hc].
  - cbn [cluster logged] in *. exists s'. split; [exact Hcl|].
    assert (∀ key,
      s' !! key = storeOf (cluster w) !! key ∨
      ∃ obj, storeOf (cluster w) !! key = Some obj ∧
             selected (om_Namespace (pa_meta platformAdmin))
               LabelPlatformAdminGenerate label obj ∧
             (om_Name (metaOf obj) ∉ need) ∧
             s' !! key = collected platformAdmin obj) as Hall.
    { intros key.
      destruct (decide (key ∈ objectKey <$>
                  filter (selected (om_Namespace (pa_meta platformAdmin))
                            LabelPlatformAdminGenerate label)
                         (snd <$> map_to_list (storeOf (cluster w))))) as [Hk|Hk].
      - apply list_elem_of_fmap in Hk as (c & -> & Hc).
        pose proof Hc as Hc'. apply listed_elem in Hc' as [Hsel Hst]; [|done].
        destruct (Hin c Hc) as [E|[Hn E]]; [left; congruence|].
        right. exists c. done.
      - left. by apply Hout. }
    split; [|exact Hall].
    intros key obj' Hobj'. destruct (Hall key) as [E|(obj & Hst & _ & _ & E)].
    + rewrite E in Hobj'. by apply Hwf in Hobj'.
    + rewrite E in Hobj'. apply collected_key in Hobj'. rewrite Hobj'.
      by apply Hwf in Hst.
Qed.

End CollectionAnyFault.

(** X13.  Whatever calls fail, a collection pass (lines 326-333, 431-438,
    441-448 with removeOwner, lines 532-549) creates nothing and leaves
    every stored object either as it is or released: an object is touched
    only if it carries the generated-by label of the kind in the parent's
    namespace, its name is not needed and one of its owner references has
    the parent's UID; such an object is then deleted when that was its
    only reference and stored with the remaining references otherwise.
    The other stores of the cluster are untouched. *)
Theorem collection_touches_only_released_objects {T : Type} `{ObjectLaws T}
    (platformAdmin : PlatformAdmin) (label : string) (need : gset string)
    (w : World) :
  wfStore (storeOf (T:=T) (cluster w)) →
  let w' := snd (collect T platformAdmin label need w) in
  cluster w' = setStore (storeOf (cluster w')) (cluster w) ∧
  wfStore (storeOf (T:=T) (cluster w')) ∧
  ∀ key,
    match storeOf (cluster w) !! key with
    | None => storeOf (T:=T) (cluster w') !! key = None
    | Some obj =>
        storeOf (cluster w') !! key = Some obj ∨
        (selected (om_Namespace (pa_meta platformAdmin))
           LabelPlatformAdminGenerate label obj ∧
         (om_Name (metaOf obj) ∉ need) ∧
         (∃ r, r ∈ om_OwnerReferences (metaOf obj) ∧
               or_UID r = om_UID (pa_meta platformAdmin)) ∧
         storeOf (cluster w') !! key = collected platformAdmin obj)
    end.
Proof.
  intros Hwf w'. subst w'.
  destruct (collect_any platformAdmin label need w Hwf) as (s' & -> & Hwf' & Hall).
  rewrite storeOf_setStore. split; [done|]. split; [done|].
  intros key. destruct (Hall key) as [E|(obj & Hst & Hsel & Hn & E)].
  - rewrite E. destruct (storeOf (cluster w) !! key); [by left|done].
  - rewrite Hst.
    pose proof (trimOwners_spec (om_UID (pa_meta platformAdmin))
                  (om_OwnerReferences (metaOf obj))) as Hspec.
    destruct (trimOwners _ _) as [owners|] eqn:Htrim.
    + right. split; [done|]. split; [done|]. split; [|done].
      destruct Hspec as (r & Huid & Hperm). exists r. split; [|done].
      rewrite Hperm. by left.
    + left. rewrite E. unfold collected. by rewrite Htrim.
Qed.

(** ** What a pass of reconcileComponent that returns has established *)

Lemma SetControllerReference_key owner object m :
  SetControllerReference owner object = inr m →
  om_Name m = om_Name object ∧ om_Namespace m = om_Namespace object.
Proof.
  unfold SetControllerReference. destruct (validateOwner owner object); [done|].
  destruct (GetControllerOf object) as [existing|].
  - destruct (referSameObject existing _); [|done]. by intros [= <-].
  - by intros [= <-].
Qed.

Lemma syncComponents_need platformAdmin total cs readyComponent need :
  resultIn (λ st, snd st = componentNames cs ∪ need)
           (syncComponents platformAdmin total cs readyComponent need).
Proof.
  revert readyComponent need.
  induction cs as [|c cs IH]; intros readyComponent need; cbn [syncComponents].
  { apply resultIn_ret. unfold componentNames. simpl. by rewrite union_empty_l_L. }
  apply resultIn_bind. intros ready' w st w' Hrun.
  rewrite (IH _ _ _ _ _ Hrun). unfold componentNames. simpl.
  by rewrite (assoc_L (∪)), (comm_L (∪) (list_to_set _) {[_]}).
Qed.

Section Membership.

Context (platformAdmin : PlatformAdmin).

Local Abbreviation poolName := (spec_PoolName (pa_Spec platformAdmin)).

(** One iteration of the loop of lines 363-428: no workload-set leaves the
    pool, and when the iteration returns the workload-set of its
    component is stored and in the pool. *)
Lemma syncComponent_member c readyComponent w res w' :
  syncComponent platformAdmin c readyComponent w = (res, w') →
  wfStore (yurtAppSets (cluster w)) →
  wfStore (yurtAppSets (cluster w')) ∧
  (∀ k y, yurtAppSets (cluster w) !! k = Some y → member poolName y →
          ∃ y', yurtAppSets (cluster w') !! k = Some y' ∧ member poolName y') ∧
  (isOk res →
   ∃ y, yurtAppSets (cluster w') !! yasKey platformAdmin c = Some y ∧
        member poolName y).
Proof.
  unfold syncComponent, bind at 1.
  pose proof (tolerant_handleService (keeps yurtAppSets) ltac:(done)
                platformAdmin c ltac:(done) w) as Hk.
  destruct (handleService platformAdmin c w) as [[o|e|msg] w1];
    cbn [snd] in Hk; unfold keeps in Hk.
  2,3: intros [= <- <-] Hwf; rewrite Hk;
       (split; [done|split; [eauto|by intros []]]).
  unfold bind, try.
  destruct (Get_cases (T:=YurtAppSet) (yasKey platformAdmin c) w1)
    as [[m Hg]|[[Hnone Hg]|(yas & Hsome & Hg)]];
    unfold yasKey in Hg; rewrite Hg; clear Hg; cbn [IsNotFound].
  - intros [= <- <-] Hwf. cbn [cluster logged]. rewrite Hk.
    split; [done|]. split; [eauto|]. by intros [].
  - unfold handleYurtAppSet. destruct (comp_Deployment c) as [spec|].
    2:{ intros [= <- <-] Hwf. cbn [cluster logged]. rewrite Hk.
        split; [done|]. split; [eauto|]. by intros []. }
    destruct (SetControllerReference _ _) as [err|m] eqn:Hctl; unfold lift.
    { intros [= <- <-] Hwf. cbn [cluster logged]. rewrite Hk.
      split; [done|]. split; [eauto|]. by intros []. }
    apply SetControllerReference_key in Hctl as [Hname Hns].
    unfold bind, ret.
    match goal with
    | |- context [Create ?o ?w0] =>
        assert (objectKey o = yasKey platformAdmin c) as Hkey
          by (unfold objectKey, yasKey; cbn; by rewrite Hname, Hns);
        destruct (Create_cases o w0) as [[e ->]|(Hfree & ->)]
    end.
    { intros [= <- <-] Hwf. cbn [cluster logged]. rewrite Hk.
      split; [done|]. split; [eauto|]. by intros []. }
    intros [= <- <-] Hwf. rewrite Hkey in *.
    cbn [cluster logged setStore storeOf YurtAppSet_Object yurtAppSets] in *.
    rewrite Hk in *. split; [|split].
    + apply map_Forall_insert_2; [exact Hkey|done].
    + intros k y Hy Hm. exists y. split; [|done].
      rewrite lookup_insert_ne; [done|]. intros <-. congruence.
    + intros _. eexists. split; [apply lookup_insert_eq|].
      left. cbn. by rewrite bool_decide_eq_true_2.
  - cbn [storeOf YurtAppSet_Object] in Hsome. rewrite Hk in Hsome.
    unfold joinYurtAppSet.
    destruct (yst_PoolReplicas (yas_Status yas) !! poolName) as [z|] eqn:Hst.
    { assert (member poolName yas) as Hm by (right; by rewrite Hst).
      destruct (decide _); intros [= <- <-] Hwf; cbn [cluster logged];
        rewrite Hk; (split; [done|]); (split; [eauto|]); intros _;
        by exists yas. }
    unfold ownedBy, lift.
    destruct (SetOwnerReference _ _) as [err|m] eqn:Hown.
    { intros [= <- <-] Hwf. cbn [cluster logged]. rewrite Hk.
      split; [done|]. split; [eauto|]. by intros []. }
    apply SetOwnerReference_key in Hown as [Hname Hns].
    unfold bind, ret.
    match goal with
    | |- context [Patch ?o ?w0] =>
        destruct (Patch_cases o w0) as [[e ->]|(stored & Hstored & ->)]
    end.
    { intros [= <- <-] Hwf. cbn [cluster logged]. rewrite Hk.
      split; [done|]. split; [eauto|]. by intros []. }
    intros [= <- <-] Hwf.
    assert (objectKey yas = yasKey platformAdmin c) as Hyas by (by apply Hwf in Hsome).
    assert (objectKey (setMeta m (withPools (joinPools poolName (yas_Pools yas)) yas))
            = yasKey platformAdmin c) as Hkey
      by (rewrite <- Hyas; unfold objectKey; cbn in *; by rewrite Hname, Hns).
    pose proof Hkey as Hkey'. change (setMeta m ?y) with (withYasMeta m y) in Hkey'.
    cbn [cluster logged setStore storeOf YurtAppSet_Object yurtAppSets] in *.
    rewrite ?Hkey, ?Hkey', Hk in *.
    assert (member poolName
              (onUpdate stored
                 (setMeta m (withPools (joinPools poolName (yas_Pools yas)) yas))))
      as Hnew by (left; cbn; apply hasPool_joinPools).
    split; [|split].
    + apply map_Forall_insert_2; [|done]. first [exact Hkey'|done].
    + intros k y Hy Hm. destruct (decide (k = yasKey platformAdmin c)) as [->|Hne].
      * eexists. split; [apply lookup_insert_eq|exact Hnew].
      * exists y. by rewrite lookup_insert_ne.
    + intros _. eexists. split; [apply lookup_insert_eq|exact Hnew].
Qed.

Lemma syncComponents_member total cs readyComponent need w res w' :
  syncComponents platformAdmin total cs readyComponent need w = (res, w') →
  wfStore (yurtAppSets (cluster w)) →
  wfStore (yurtAppSets (cluster w')) ∧
  (∀ k y, yurtAppSets (cluster w) !! k = Some y → member poolName y →
          ∃ y', yurtAppSets (cluster w') !! k = Some y' ∧ member poolName y') ∧
  (isOk res →
   ∀ c, c ∈ cs →
        ∃ y, yurtAppSets (cluster w') !! yasKey platformAdmin c = Some y ∧
             member poolName y).
Proof.
  revert readyComponent need w.
  induction cs as [|c cs IH]; intros readyComponent need w; cbn [syncComponents].
  { intros [= <- <-] Hwf. split; [done|]. split; [eauto|].
    intros _ c Hc. by apply elem_of_nil in Hc. }
  unfold bind, onAbort.
  destruct (syncComponent platformAdmin c readyComponent w) as [r1 w1] eqn:Hstep.
  intros Hrun Hwf.
  destruct (syncComponent_member _ _ _ _ _ Hstep Hwf) as (Hwf1 & Hkept1 & Hnew1).
  destruct r1 as [ready'|e|msg].
  - destruct (IH _ _ _ Hrun Hwf1) as (Hwf' & Hkept & Hall).
    split; [done|]. split.
    + intros k y Hy Hm. destruct (Hkept1 k y Hy Hm) as (y1 & Hy1 & Hm1).
      by apply (Hkept k y1).
    + intros Hok c' [->|Hc']%elem_of_cons; [|by apply Hall].
      destruct (Hnew1 I) as (y & Hy & Hm). by apply (Hkept _ y).
  - injection Hrun as <- <-. cbn [cluster withStatusCell].
    split; [done|]. split; [done|]. by intros [].
  - injection Hrun as <- <-. cbn [cluster withStatusCell].
    split; [done|]. split; [done|]. by intros [].
Qed.

End Membership.

(** X14.  When reconcileComponent (lines 338-451) returns without error,
    whatever calls of the collection failed on the way, every desired
    component has its workload-set stored under the component's name in
    the parent's namespace, and that workload-set lists the parent's pool
    or its status already reports it: the loop has created it with the
    pool, joined the pool, or found the pool reported, and neither a later
    iteration nor the collection takes that away. *)
Theorem desired_components_join_the_pool
    (unmarshalDeployments : string -> error + list DeploymentTemplateSpec)
    (unmarshalServices : string -> error + list ServiceTemplateSpec)
    (Configration : PlatformAdminControllerConfiguration)
    (platformAdmin : PlatformAdmin) (desired : list Component)
    (w : World) (ready : bool) (w' : World) :
  wfStore (yurtAppSets (cluster w)) →
  desiredComponents unmarshalDeployments unmarshalServices Configration
    platformAdmin = inr desired →
  reconcileComponent unmarshalDeployments unmarshalServices Configration
    platformAdmin w = (Ok ready, w') →
  ∀ c, c ∈ desired →
       ∃ yas, yurtAppSets (cluster w') !! yasKey platformAdmin c = Some yas ∧
              member (spec_PoolName (pa_Spec platformAdmin)) yas.
Proof.
  intros Hwf Hdes. unfold reconcileComponent. rewrite Hdes.
  unfold lift, bind at 1, ret. unfold bind at 1.
  destruct (syncComponents _ _ _ _ _ w) as [r1 w1] eqn:Hsync.
  pose proof (syncComponents_need platformAdmin (length desired) desired 0 ∅ w)
    as Hneed.
  destruct (syncComponents_member _ _ _ _ _ _ _ _ Hsync Hwf) as (Hwf1 & _ & Hall).
  destruct r1 as [[ready' need]|e|msg]; [|done..].
  specialize (Hneed _ _ Hsync). cbn [snd] in Hneed.
  rewrite union_empty_r_L in Hneed. subst need. specialize (Hall I).
  unfold deferStatus, bind.
  assert (keeps yurtAppSets w1
            (snd (collect Service platformAdmin LabelService
                    (componentNames desired) w1))) as Hk2
    by (by apply (tolerant_collect (keeps yurtAppSets))).
  destruct (collect Service _ _ _ w1) as [[[]|e|msg] w2]; [|done..].
  cbn [snd] in Hk2. unfold keeps in Hk2.
  assert (wfStore (yurtAppSets (cluster w2))) as Hwf2 by (by rewrite Hk2).
  destruct (collect_any (T:=YurtAppSet) platformAdmin LabelDeployment
              (componentNames desired) w2 Hwf2) as (s' & Hcl & _ & Hs').
  destruct (collect YurtAppSet _ _ _ w2) as [[[]|e|msg] w3]; [|done..].
  cbn [snd] in Hcl. unfold ret. intros [= _ <-] c Hc.
  cbn [cluster withStatusCell]. rewrite Hcl.
  cbn [setStore YurtAppSet_Object yurtAppSets].
  destruct (Hall c Hc) as (y & Hy & Hm). exists y. split; [|done].
  rewrite <- Hk2 in Hy.
  destruct (Hs' (yasKey platformAdmin c)) as [->|(obj & Hobj & _ & Hn & _)]; [done|].
  cbn [storeOf YurtAppSet_Object] in Hobj.
  assert (objectKey obj = yasKey platformAdmin c) as Hkey by (by apply Hwf2 in Hobj).
  destruct Hn. unfold componentNames. rewrite elem_of_list_to_set.
  apply list_elem_of_fmap. exists c. split; [|done].
  unfold objectKey, yasKey in Hkey. by injection Hkey.
Qed.

(** ** Objects that exist already are adopted as they are *)

#[global] Instance sameContent_preorder {T} `{Object T} : PreOrder (sameContent (T:=T)).
Proof.
  split; [by intros o|]. intros o1 o2 o3 H12 H23. unfold sameContent in *. congruence.
Qed.

#[global] Instance ownedStill_preorder {T} `{Object T} ref :
  PreOrder (ownedStill (T:=T) ref).
Proof.
  split; [intros o Ho; exact Ho|]. intros o1 o2 o3 H12 H23 Ho. by apply H23, H12.
Qed.

#[global] Instance grows_preorder {T} `{Object T} (ρ : relation T) `{!PreOrder ρ} :
  PreOrder (grows ρ).
Proof.
  split; [intros w Hwf; split; [done|]; intros k o Ho; by exists o|].
  intros w1 w2 w3 H12 H23 Hwf. destruct (H12 Hwf) as [Hwf2 Hk2].
  destruct (H23 Hwf2) as [Hwf3 Hk3]. split; [done|].
  intros k o Ho. destruct (Hk2 k o Ho) as (o2 & Ho2 & E2).
  destruct (Hk3 k o2 Ho2) as (o3 & Ho3 & E3). exists o3.
  split; [done|by etransitivity].
Qed.

#[global] Instance shrinks_preorder {T} `{Object T} (ρ : relation T) `{!PreOrder ρ} :
  PreOrder (shrinks ρ).
Proof.
  split; [intros w Hwf; split; [done|]; intros k o Ho; by exists o|].
  intros w1 w2 w3 H12 H23 Hwf. destruct (H12 Hwf) as [Hwf2 Hk2].
  destruct (H23 Hwf2) as [Hwf3 Hk3]. split; [done|].
  intros k o3 Ho3. destruct (Hk3 k o3 Ho3) as (o2 & Ho2 & E3).
  destruct (Hk2 k o2 Ho2) as (o & Ho & E2). exists o.
  split; [done|by etransitivity].
Qed.

Lemma grows_same {T} `{Object T} (ρ : relation T) `{!PreOrder ρ} w w' :
  storeOf (T:=T) (cluster w') = storeOf (cluster w) → grows ρ w w'.
Proof. intros E Hwf. rewrite E. split; [done|]. intros k o Ho. by exists o. Qed.

Lemma shrinks_same {T} `{Object T} (ρ : relation T) `{!PreOrder ρ} w w' :
  storeOf (T:=T) (cluster w') = storeOf (cluster w) → shrinks ρ w w'.
Proof. intros E Hwf. rewrite E. split; [done|]. intros k o Ho. by exists o. Qed.

(** The composition of the loop, for a relation that the exposure step
    keeps for a reason of its own. *)
Section Composed.

Context (R : relation World) `{!PreOrder R}.
Context (Hread : toleratesReads R).
Context (Hyas : toleratesWrites YurtAppSet R).
Context (Hcount : toleratesCounters R).
Context (platformAdmin : PlatformAdmin).
Context (Hsvc : ∀ c, preserves R (handleService platformAdmin c)).

Lemma composed_syncComponent c readyComponent :
  preserves R (syncComponent platformAdmin c readyComponent).
Proof.
  unfold syncComponent, handleYurtAppSet, joinYurtAppSet.
  repeat first [ apply Hsvc
               | apply tolerant_Get; exact Hread
               | apply tolerant_Create; [exact Hread|exact Hyas]
               | apply tolerant_Patch; [exact Hread|exact Hyas]
               | preserves_step R ].
Qed.

Lemma composed_syncComponents total cs readyComponent need :
  preserves R (syncComponents platformAdmin total cs readyComponent need).
Proof.
  revert readyComponent need.
  induction cs as [|c cs IH]; intros readyComponent need; cbn [syncComponents];
    repeat first [ apply IH
                 | apply tolerant_onAbort; [done|exact Hcount|]
                 | apply composed_syncComponent
                 | preserves_step R ].
Qed.

End Composed.

Section Adoption.

Context {T : Type} `{ObjectLaws T} `{EqDecision T}.
Context (ρ : relation T) `{!PreOrder ρ}.
Context (platformAdmin : PlatformAdmin).
Context (Hρ : ∀ o : T,
            ρ o (setMeta (withOwnerReferences
                            (upsertOwnerRef (ownerRefOf (pa_meta platformAdmin))
                               (om_OwnerReferences (metaOf o))) (metaOf o)) o)).
Context (Hup : ∀ stored new : T, onUpdate stored new = new).

Lemma ownedBy_inr (obj obj' : T) :
  ownedBy platformAdmin obj = inr obj' →
  obj' = setMeta (withOwnerReferences
                    (upsertOwnerRef (ownerRefOf (pa_meta platformAdmin))
                       (om_OwnerReferences (metaOf obj))) (metaOf obj)) obj.
Proof.
  unfold ownedBy, SetOwnerReference.
  destruct (validateOwner _ _); [done|]. by intros [= <-].
Qed.

(** CreateOrUpdate with the owner-reference mutation (lines 316-318 and
    473-480), whatever calls fail: no stored object is lost, and every
    stored object moves along [ρ]. *)
Lemma CreateOrUpdate_grows (obj : T) :
  preserves (grows ρ) (CreateOrUpdate obj (ownedBy platformAdmin)).
Proof.
  intros w.
  destruct (CreateOrUpdate obj (ownedBy platformAdmin) w) as [r w'] eqn:Hrun.
  cbn [snd]. revert Hrun. unfold CreateOrUpdate, bind at 1, try.
  destruct (Get_cases (T:=T) (objectKey obj) w)
    as [[m ->]|[[Hnone ->]|(existing & Hsome & ->)]]; cbn [IsNotFound].
  - intros [= <- <-]. by apply grows_same.
  - destruct (ownedBy platformAdmin obj) as [err|obj'] eqn:Hown; unfold lift.
    { intros [= <- <-]. by apply grows_same. }
    unfold bind, ret.
    destruct (Create_cases obj' (logged w (event VGet (kindOf T) (objectKey obj)
                                             (Some ErrNotFound)) (cluster w)))
      as [[e ->]|(Hfree & ->)]; intros [= <- <-].
    { by apply grows_same. }
    intros Hwf. cbn [snd cluster logged] in *.
    rewrite storeOf_setStore. split.
    + by apply map_Forall_insert_2.
    + intros k o Ho. exists o. split; [|done].
      rewrite lookup_insert_ne; [done|]. intros <-. congruence.
  - destruct (ownedBy platformAdmin existing) as [err|obj'] eqn:Hown; unfold lift.
    { intros [= <- <-]. by apply grows_same. }
    apply ownedBy_inr in Hown as ->.
    unfold bind, ret. destruct (decide _) as [E|E];
      [intros [= <- <-]; by apply grows_same|].
    match goal with
    | |- context [Update ?o ?w0] =>
        destruct (Update_cases o w0) as [[e ->]|(stored & Hstored & ->)]
    end; intros [= <- <-].
    { by apply grows_same. }
    intros Hwf. cbn [snd cluster logged] in *.
    rewrite objectKey_owned in *. rewrite storeOf_setStore, Hup.
    assert (objectKey existing = objectKey obj) as Hkey by (by apply Hwf in Hsome).
    split.
    + apply map_Forall_insert_2; [apply objectKey_owned|done].
    + intros k o Ho. destruct (decide (k = objectKey existing)) as [->|Hne].
      * eexists. split; [apply lookup_insert_eq|].
        rewrite Hkey in Ho. assert (o = existing) as -> by congruence. apply Hρ.
      * exists o. by rewrite lookup_insert_ne.
Qed.

(** The collection, whatever calls fail: no object appears, and every
    object that is left comes along [ρ], when [ρ] allows any change of
    the owner references. *)
Lemma collect_shrinks label need :
  (∀ owners (o : T), ρ o (setMeta (withOwnerReferences owners (metaOf o)) o)) →
  preserves (shrinks ρ) (collect T platformAdmin label need).
Proof.
  intros Hany w Hwf.
  destruct (collect_any platformAdmin label need w Hwf) as (s' & -> & Hwf' & Hall).
  rewrite storeOf_setStore. split; [done|].
  intros k o' Ho'. destruct (Hall k) as [E|(obj & Hobj & _ & _ & E)].
  - exists o'. by rewrite <- E.
  - exists obj. split; [done|]. rewrite E in Ho'. unfold collected in Ho'.
    destruct (trimOwners _ _) as [owners|]; [|by injection Ho' as <-].
    destruct (decide _) as [Hlen|Hlen]; [done|].
    injection Ho' as <-. apply Hany.
Qed.

End Adoption.

Lemma content_owned {T} `{ObjectLaws T} owners (o : T) :
  (∀ m m' (o : T), setMeta m (setMeta m' o) = setMeta m o) →
  content (setMeta (withOwnerReferences owners (metaOf o)) o) = content o.
Proof. intros Hset. unfold content. by rewrite metaOf_setMeta, Hset. Qed.

Lemma content_ConfigMap owners (o : ConfigMap) :
  content (setMeta (withOwnerReferences owners (metaOf o)) o) = content o.
Proof. by apply content_owned. Qed.

Lemma content_Service owners (o : Service) :
  content (setMeta (withOwnerReferences owners (metaOf o)) o) = content o.
Proof. by apply content_owned. Qed.

Lemma content_ConfigMap_eq (cm cm' : ConfigMap) :
  content cm' = content cm →
  cm_Data cm' = cm_Data cm ∧
  om_Labels (cm_meta cm') = om_Labels (cm_meta cm) ∧
  om_Annotations (cm_meta cm') = om_Annotations (cm_meta cm).
Proof.
  intros E. split; [exact (f_equal cm_Data E)|].
  split; [exact (f_equal (om_Labels ∘ cm_meta) E)|].
  exact (f_equal (om_Annotations ∘ cm_meta) E).
Qed.

Lemma content_Service_eq (svc svc' : Service) :
  content svc' = content svc →
  svc_Spec svc' = svc_Spec svc ∧
  om_Labels (svc_meta svc') = om_Labels (svc_meta svc) ∧
  om_Annotations (svc_meta svc') = om_Annotations (svc_meta svc).
Proof.
  intros E. split; [exact (f_equal svc_Spec E)|].
  split; [exact (f_equal (om_Labels ∘ svc_meta) E)|].
  exact (f_equal (om_Annotations ∘ svc_meta) E).
Qed.

Lemma upsertConfigMaps_grows (ρ : relation ConfigMap) `{!PreOrder ρ}
    platformAdmin cms need :
  (∀ o : ConfigMap,
     ρ o (setMeta (withOwnerReferences
                     (upsertOwnerRef (ownerRefOf (pa_meta platformAdmin))
                        (om_OwnerReferences (metaOf o))) (metaOf o)) o)) →
  preserves (grows ρ) (upsertConfigMaps platformAdmin cms need).
Proof.
  intros Hρ. revert need.
  induction cms as [|cm cms IH]; intros need; cbn [upsertConfigMaps].
  - apply (preserves_ret _).
  - apply (preserves_bind _); [|intros ?; apply IH].
    by apply CreateOrUpdate_grows.
Qed.

Lemma handleService_grows (ρ : relation Service) `{!PreOrder ρ} platformAdmin c :
  (∀ o : Service,
     ρ o (setMeta (withOwnerReferences
                     (upsertOwnerRef (ownerRefOf (pa_meta platformAdmin))
                        (om_OwnerReferences (metaOf o))) (metaOf o)) o)) →
  preserves (grows ρ) (handleService platformAdmin c).
Proof.
  intros Hρ. unfold handleService.
  destruct (comp_Service c); [|apply (preserves_ret _)].
  apply (preserves_bind _); [|intros ?; apply (preserves_ret _)].
  by apply CreateOrUpdate_grows.
Qed.

(** X15.  Objects that exist already are adopted as they are.  Whatever
    calls fail, a config map that is stored before reconcileConfigmap
    (lines 301-336) and after it differs at most in its owner references,
    and so does a service stored before and after reconcileComponent
    (lines 338-451): CreateOrUpdate runs the mutation of lines 316-318 and
    473-480 on the object it has fetched, so the data, the labels and the
    annotations of the catalog's config map and the spec of the
    component reach the cluster only when the object is created. *)
Theorem existing_objects_are_adopted_as_they_are
    (unmarshalDeployments : string -> error + list DeploymentTemplateSpec)
    (unmarshalServices : string -> error + list ServiceTemplateSpec)
    (Configration : PlatformAdminControllerConfiguration)
    (platformAdmin : PlatformAdmin) (w : World) :
  (wfStore (configMaps (cluster w)) →
   ∀ k cm cm',
     configMaps (cluster w) !! k = Some cm →
     configMaps (cluster (snd (reconcileConfigmap Configration platformAdmin w)))
       !! k = Some cm' →
     cm_Data cm' = cm_Data cm ∧
     om_Labels (cm_meta cm') = om_Labels (cm_meta cm) ∧
     om_Annotations (cm_meta cm') = om_Annotations (cm_meta cm)) ∧
  (wfStore (services (cluster w)) →
   ∀ k svc svc',
     services (cluster w) !! k = Some svc →
     services (cluster (snd (reconcileComponent unmarshalDeployments
                               unmarshalServices Configration platformAdmin w)))
       !! k = Some svc' →
     svc_Spec svc' = svc_Spec svc ∧
     om_Labels (svc_meta svc') = om_Labels (svc_meta svc) ∧
     om_Annotations (svc_meta svc') = om_Annotations (svc_meta svc)).
Proof.
  split.
  - intros Hwf k cm cm' Hcm. unfold reconcileConfigmap, bind at 1.
    pose proof (upsertConfigMaps_grows sameContent platformAdmin
                  (selectConfigMaps Configration platformAdmin) ∅
                  (λ o, content_ConfigMap _ o) w Hwf)
      as [Hwf1 Hgrow].
    destruct (upsertConfigMaps _ _ _ w) as [[need|e|msg] w1]; cbn [snd] in *.
    2,3: intros Hcm'; destruct (Hgrow k cm Hcm) as (o & Ho & E);
         assert (o = cm') as -> by (cbn [storeOf ConfigMap_Object] in Ho; congruence);
         by apply content_ConfigMap_eq.
    unfold bind.
    pose proof (collect_shrinks (T:=ConfigMap) sameContent
                  platformAdmin LabelConfigmap need content_ConfigMap w1 Hwf1)
      as [_ Hshrink].
    destruct (collect ConfigMap _ _ _ w1) as [[[]|e|msg] w2]; cbn [snd] in *;
      intros Hcm'; destruct (Hshrink k cm' Hcm') as (o1 & Ho1 & E1);
      destruct (Hgrow k cm Hcm) as (o & Ho & E);
      assert (o = o1) as -> by congruence;
      unfold sameContent in *; rewrite E in E1; by apply content_ConfigMap_eq.
  - intros Hwf k svc svc' Hsvc. unfold reconcileComponent.
    destruct (desiredComponents _ _ _ _) as [err|desired]; unfold lift.
    { cbn. intros Hsvc'. assert (svc = svc') as -> by congruence. done. }
    unfold bind at 1, ret. unfold bind at 1.
    assert (grows (sameContent (T:=Service)) w
              (snd (syncComponents platformAdmin (length desired) desired 0 ∅ w)))
      as Hsync.
    { apply (composed_syncComponents (grows (sameContent (T:=Service)))).
      - intros w0 ev. apply grows_same; [apply _|done].
      - intros w0 ev s0. apply grows_same; [apply _|done].
      - intros w0 r0 t0. apply grows_same; [apply _|done].
      - intros c. apply handleService_grows; [apply _|].
        intros o. apply content_Service. }
    destruct (Hsync Hwf) as [Hwf1 Hgrow].
    destruct (syncComponents _ _ _ _ _ w) as [[[ready need]|e|msg] w1];
      cbn [snd] in *.
    2,3: intros Hsvc'; destruct (Hgrow k svc Hsvc) as (o & Ho & E);
         assert (o = svc') as -> by (cbn [storeOf Service_Object] in Ho; congruence);
         by apply content_Service_eq.
    unfold deferStatus.
    assert (shrinks (sameContent (T:=Service)) w1
              (snd ((collect Service platformAdmin LabelService need ;;
                     collect YurtAppSet platformAdmin LabelDeployment need ;;
                     ret (bool_decide (ready = int32 (Z.of_nat (length desired)))))%go
                      w1))) as Hcollect.
    { apply (preserves_bind _); [|intros ?; apply (preserves_bind _)].
      - apply collect_shrinks; [apply _|apply content_Service].
      - apply (tolerant_collect (shrinks sameContent)).
        + intros w0 ev. apply shrinks_same; [apply _|done].
        + intros w0 ev s0. apply shrinks_same; [apply _|done].
      - intros ?. apply (preserves_ret _). }
    destruct (Hcollect Hwf1) as [_ Hshrink].
    destruct ((collect Service _ _ _ ;; _)%go w1) as [r2 w2]; cbn [snd cluster withStatusCell] in *.
    intros Hsvc'. destruct (Hshrink k svc' Hsvc') as (o1 & Ho1 & E1).
    destruct (Hgrow k svc Hsvc) as (o & Ho & E).
    assert (o = o1) as -> by congruence.
    unfold sameContent in *. rewrite E in E1. by apply content_Service_eq.
Qed.

(** ** Creating and counting a workload-set *)

(** X16.  An iteration of the loop of lines 363-428 counts its component
    ready only when the workload-set exists already, its status reports
    the parent's pool and all its replicas are ready (lines 392-399); the
    iteration then writes no workload-set.  A workload-set that the
    iteration creates or patches is never counted in the same pass. *)
Theorem component_counted_only_when_reported (platformAdmin : PlatformAdmin)
    (c : Component) (readyComponent ready' : Z) (w w' : World) :
  syncComponent platformAdmin c readyComponent w = (Ok ready', w') →
  (ready' = readyComponent ∨ ready' = int32 (readyComponent + 1)) ∧
  (ready' ≠ readyComponent →
   ∃ yas,
     yurtAppSets (cluster w) !! yasKey platformAdmin c = Some yas ∧
     is_Some (yst_PoolReplicas (yas_Status yas)
                !! spec_PoolName (pa_Spec platformAdmin)) ∧
     yst_ReadyReplicas (yas_Status yas) = yst_Replicas (yas_Status yas) ∧
     yurtAppSets (cluster w') = yurtAppSets (cluster w)).
Proof.
  intros Hrun. split; [exact (syncComponent_ready _ _ _ _ _ _ Hrun)|].
  revert Hrun. unfold syncComponent, bind at 1.
  pose proof (tolerant_handleService (keeps yurtAppSets) ltac:(done)
                platformAdmin c ltac:(done) w) as Hk.
  destruct (handleService platformAdmin c w) as [[o|e|msg] w1]; [|done..].
  cbn [snd] in Hk. unfold keeps in Hk.
  unfold bind, try.
  destruct (Get_cases (T:=YurtAppSet) (yasKey platformAdmin c) w1)
    as [[m Hg]|[[Hnone Hg]|(yas & Hsome & Hg)]];
    unfold yasKey in Hg; rewrite Hg; clear Hg; cbn [IsNotFound]; [done| |].
  - destruct (handleYurtAppSet platformAdmin c _) as [[y|e|msg] w2]; [|done..].
    unfold ret. by intros [= <- <-] Hne.
  - cbn [storeOf YurtAppSet_Object] in Hsome. rewrite Hk in Hsome.
    unfold joinYurtAppSet.
    destruct (yst_PoolReplicas (yas_Status yas) !! _) as [z|] eqn:Hst.
    + destruct (decide _) as [Heq|Hneq]; intros [= <- <-] Hne; [|done].
      exists yas. split; [done|]. split; [by rewrite Hst|]. split; [done|].
      exact Hk.
    + unfold bind.
      destruct (lift (ownedBy platformAdmin _) _) as [[y|e|msg] w2]; [|done..].
      destruct (Patch y w2) as [[[]|e|msg] w3]; [|done..].
      unfold ret. by intros [= <- <-] Hne.
Qed.

(** X17.  handleYurtAppSet (lines 488-530) never overwrites: when it
    returns, no workload-set was stored under the component's name in the
    parent's namespace, and the one it has stored there has exactly one
    pool, that of the parent with one replica; a selector equal to the
    labels of its template; the workload spec of the component; the
    parent as its only owner, as controller; and the label by which the
    collection of lines 441-448 finds it in the parent's namespace. *)
Theorem created_workload_set_is_found_by_the_collection
    (platformAdmin : PlatformAdmin) (c : Component) (w : World)
    (yas : YurtAppSet) (w' : World) :
  handleYurtAppSet platformAdmin c w = (Ok yas, w') →
  yurtAppSets (cluster w) !! yasKey platformAdmin c = None ∧
  yurtAppSets (cluster w')
    = <[yasKey platformAdmin c := yas]> (yurtAppSets (cluster w)) ∧
  yas_Pools yas = [newPool (spec_PoolName (pa_Spec platformAdmin))] ∧
  yas_Selector yas = yas_TemplateLabels yas ∧
  yas_TemplateSpec yas = comp_Deployment c ∧
  om_OwnerReferences (yas_meta yas) = [controllerRefOf (pa_meta platformAdmin)] ∧
  selected (om_Namespace (pa_meta platformAdmin)) LabelPlatformAdminGenerate
    LabelDeployment yas.
Proof.
  unfold handleYurtAppSet. destruct (comp_Deployment c) as [spec|]; [|done].
  destruct (SetControllerReference _ _) as [err|m] eqn:Hctl; unfold lift; [done|].
  unfold SetControllerReference in Hctl.
  destruct (validateOwner _ _); [done|]. cbn in Hctl. injection Hctl as <-.
  unfold bind, ret.
  match goal with
  | |- context [Create ?o ?w0] =>
      destruct (Create_cases o w0) as [[e ->]|(Hfree & ->)]; [done|]
  end.
  intros [= <- <-]. cbn in Hfree |- *. split; [exact Hfree|].
  split; [done|]. split; [done|]. split; [done|]. split; [done|]. split; [done|].
  split; [done|]. apply lookup_singleton_eq.
Qed.

(** ** The exposure step is idempotent *)

Lemma referSameObject_refl ref : referSameObject ref ref = true.
Proof. unfold referSameObject. by rewrite !bool_decide_eq_true_2. Qed.

Lemma indexOwnerRef_app_new owners ref :
  indexOwnerRef owners ref = None →
  indexOwnerRef (owners ++ [ref]) ref = Some (length owners).
Proof.
  induction owners as [|r owners IH]; simpl.
  - by rewrite referSameObject_refl.
  - destruct (referSameObject r ref); [done|].
    destruct (indexOwnerRef owners ref); [done|]. intros _. by rewrite IH.
Qed.

Lemma indexOwnerRef_insert owners ref i :
  indexOwnerRef owners ref = Some i →
  indexOwnerRef (<[i := ref]> owners) ref = Some i.
Proof.
  revert i. induction owners as [|r owners IH]; intros i; simpl; [done|].
  destruct (referSameObject r ref) eqn:Hsame.
  - intros [= <-]. simpl. by rewrite referSameObject_refl.
  - destruct (indexOwnerRef owners ref) as [j|]; [|done].
    intros [= <-]. simpl. by rewrite Hsame, (IH j).
Qed.

Lemma upsertOwnerRef_idem ref owners :
  upsertOwnerRef ref (upsertOwnerRef ref owners) = upsertOwnerRef ref owners.
Proof.
  unfold upsertOwnerRef at 2 3.
  destruct (indexOwnerRef owners ref) as [i|] eqn:Hidx.
  - unfold upsertOwnerRef. rewrite (indexOwnerRef_insert _ _ _ Hidx).
    apply list_insert_insert_eq.
  - unfold upsertOwnerRef. rewrite (indexOwnerRef_app_new _ _ Hidx).
    rewrite insert_app_r_alt by lia.
    by replace (length owners - length owners)%nat with 0%nat by lia.
Qed.

(** X18.  handleService (lines 453-486) is idempotent when no call fails:
    after a first run, a second run for the same component fetches the
    service, finds that the mutation changes nothing and issues no write;
    the cluster is left as the first run left it. *)
Theorem exposure_step_is_idempotent (platformAdmin : PlatformAdmin)
    (c : Component) (spec : ServiceSpec) (w : World) :
  faults w = [] → wfStore (services (cluster w)) →
  comp_Service c = Some spec →
  let w1 := snd (handleService platformAdmin c w) in
  let w2 := snd (handleService platformAdmin c w1) in
  cluster w2 = cluster w1 ∧
  trace w2 = trace w1 ++ [event VGet KService (yasKey platformAdmin c) None] ∧
  isOk (fst (handleService platformAdmin c w1)).
Proof.
  intros Hf Hwf Hspec w1 w2. subst w2 w1.
  set (fresh := newService platformAdmin c spec).
  destruct (CreateOrUpdate_ok platformAdmin fresh w) as (w1 & Hrun & Hcl & Hf1 & _);
    [done..|].
  cbv zeta in Hcl.
  set (base := default fresh (storeOf (cluster w) !! objectKey fresh)) in *.
  set (o := setMeta (withOwnerReferences
                       (upsertOwnerRef (ownerRefOf (pa_meta platformAdmin))
                          (om_OwnerReferences (metaOf base))) (metaOf base)) base)
    in *.
  assert (objectKey base = objectKey fresh) as Hbase.
  { subst base. destruct (storeOf (cluster w) !! objectKey fresh) as [stored|] eqn:Hst;
      [|done]. by apply Hwf in Hst. }
  assert (handleService platformAdmin c w = (Ok (Some o), w1)) as ->.
  { unfold handleService. rewrite Hspec. fold fresh. unfold bind. by rewrite Hrun. }
  cbn [snd].
  assert (services (cluster w1) !! objectKey fresh = Some o) as Ho
    by (rewrite Hcl; cbn [setStore Service_Object services storeOf];
        apply lookup_insert_eq).
  assert (handleService platformAdmin c w1 =
            (Ok (Some o),
             logged w1 (event VGet KService (yasKey platformAdmin c) None)
                    (cluster w1))) as ->.
  { unfold handleService. rewrite Hspec. fold fresh.
    unfold bind at 1, CreateOrUpdate, bind at 1, try, Get.
    rewrite apiCall_no_fault by done. cbn [storeOf Service_Object]. rewrite Ho.
    rewrite ownedBy_ok.
    2:{ subst o. cbn. unfold objectKey in Hbase. cbn in Hbase. by injection Hbase. }
    assert (setMeta (withOwnerReferences
                       (upsertOwnerRef (ownerRefOf (pa_meta platformAdmin))
                          (om_OwnerReferences (metaOf o))) (metaOf o)) o = o) as ->.
    { subst o. cbn. by rewrite upsertOwnerRef_idem. }
    unfold lift, bind, ret. by rewrite decide_True. }
  done.
Qed.

(** ** What the deletion handler has done when it returns *)

Section DeletionRemovesThePool.

Context (platformAdmin : PlatformAdmin).

Local Abbreviation poolName := (spec_PoolName (pa_Spec platformAdmin)).

(** The loop of lines 231-252 when no call fails: no workload-set
    appears, a workload-set without an entry of the parent stays without
    one, and when the loop returns no workload-set of a desired component
    has one. *)
Lemma removeMemberships_clean cs w r w' :
  faults w = [] → wfStore (yurtAppSets (cluster w)) →
  removeMemberships platformAdmin cs w = (r, w') →
  (∀ k y', yurtAppSets (cluster w') !! k = Some y' →
           ∃ y, yurtAppSets (cluster w) !! k = Some y ∧
                (countPool poolName (yas_Pools y) = 0%nat →
                 countPool poolName (yas_Pools y') = 0%nat)) ∧
  (isOk r →
   ∀ c y', c ∈ cs →
           yurtAppSets (cluster w') !! yasKey platformAdmin c = Some y' →
           countPool poolName (yas_Pools y') = 0%nat).
Proof.
  revert w. induction cs as [|dc cs IH]; intros w Hf Hwf; cbn [removeMemberships].
  { intros [= <- <-]. split; [eauto|]. intros _ c y' Hc. by apply elem_of_nil in Hc. }
  unfold bind at 1, try, Get. rewrite apiCall_no_fault by done.
  cbn [storeOf YurtAppSet_Object].
  destruct (yurtAppSets (cluster w) !! _) as [yas|] eqn:Hsome.
  - assert (objectKey yas = yasKey platformAdmin dc) as Hkey by (by apply Hwf in Hsome).
    destruct (removePool poolName (yas_Pools yas)) as [pools|] eqn:Hrem.
    2:{ intros [= <- <-]. split; [eauto|]. by intros []. }
    apply removePool_clean in Hrem.
    unfold bind.
    rewrite (Patch_ok (withPools pools yas) yas); [|by apply faults_logged|].
    2:{ cbn [cluster logged storeOf YurtAppSet_Object].
        change (objectKey (withPools pools yas)) with (objectKey yas).
        by rewrite Hkey. }
    change (objectKey (withPools pools yas)) with (objectKey yas). rewrite Hkey.
    intros Hrun. apply IH in Hrun as [Hback Hdone].
    2:{ by apply faults_logged, faults_logged. }
    2:{ cbn [cluster logged setStore YurtAppSet_Object yurtAppSets].
        apply map_Forall_insert_2; [exact Hkey|done]. }
    cbn [cluster logged setStore YurtAppSet_Object yurtAppSets storeOf] in Hback, Hdone.
    assert (∀ k y', yurtAppSets (cluster w') !! k = Some y' →
              ∃ y, yurtAppSets (cluster w) !! k = Some y ∧
                   (countPool poolName (yas_Pools y) = 0%nat →
                    countPool poolName (yas_Pools y') = 0%nat)) as Hback'.
    { intros k y' Hy'. destruct (Hback k y' Hy') as (y1 & Hy1 & Hz).
      destruct (decide (k = yasKey platformAdmin dc)) as [->|Hne].
      - rewrite lookup_insert_eq in Hy1. injection Hy1 as <-.
        exists yas. split; [done|]. intros _. by apply Hz.
      - rewrite lookup_insert_ne in Hy1 by done. eauto. }
    split; [exact Hback'|].
    intros Hok c y' [->|Hc]%elem_of_cons Hy'; [|by eapply Hdone].
    destruct (Hback _ _ Hy') as (y1 & Hy1 & Hz).
    rewrite lookup_insert_eq in Hy1. injection Hy1 as <-. by apply Hz.
  - cbn [IsNotFound]. intros Hrun. apply IH in Hrun as [Hback Hdone];
      [|by apply faults_logged|done].
    cbn [cluster logged] in Hback. split; [exact Hback|].
    intros Hok c y' [->|Hc]%elem_of_cons Hy'; [|by eapply Hdone].
    destruct (Hback _ _ Hy') as (y1 & Hy1 & _). unfold yasKey in Hy1. congruence.
Qed.

End DeletionRemovesThePool.

(** X19.  When no call fails and the deletion handler (lines 212-261)
    returns, no workload-set of a desired component lists the parent's
    pool any more, also if it listed that pool several times, and the
    stored parent is without the finalizer. *)
Theorem deletion_removes_the_pool
    (unmarshalDeployments : string -> error + list DeploymentTemplateSpec)
    (unmarshalServices : string -> error + list ServiceTemplateSpec)
    (Configration : PlatformAdminControllerConfiguration)
    (platformAdmin : PlatformAdmin) (desired : list Component)
    (w : World) (res : Result) (w' : World) :
  faults w = [] → wfStore (yurtAppSets (cluster w)) →
  desiredComponents unmarshalDeployments unmarshalServices Configration
    platformAdmin = inr desired →
  reconcileDelete unmarshalDeployments unmarshalServices Configration
    platformAdmin w = (Ok res, w') →
  (∀ c yas, c ∈ desired →
            yurtAppSets (cluster w') !! yasKey platformAdmin c = Some yas →
            countPool (spec_PoolName (pa_Spec platformAdmin)) (yas_Pools yas)
              = 0%nat) ∧
  ∃ stored,
    platformAdmins (cluster w') !! objectKey platformAdmin = Some stored ∧
    PlatformAdminFinalizer ∉ om_Finalizers (pa_meta stored).
Proof.
  intros Hf Hwf Hdes. unfold reconcileDelete. rewrite Hdes.
  unfold lift, bind at 1, ret. unfold bind at 1.
  destruct (removeMemberships platformAdmin desired w) as [r1 w1] eqn:Hloop.
  destruct (removeMemberships_clean _ _ _ _ _ Hf Hwf Hloop) as [_ Hdone].
  destruct r1 as [[]|e|msg]; [|done..]. specialize (Hdone I).
  unfold bind.
  match goal with
  | |- context [Update ?o ?w0] =>
      destruct (Update_cases o w0) as [[e ->]|(stored & Hst & ->)]; [done|]
  end.
  intros [= _ <-].
  cbn [cluster logged setStore PlatformAdmin_Object platformAdmins yurtAppSets].
  split; [exact Hdone|].
  eexists. split; [apply lookup_insert_eq|].
  cbn. unfold RemoveFinalizer. cbn.
  rewrite list_elem_of_filter. by intros [? _].
Qed.

(** ** The error of a pass *)

(** X20.  The outcome of a pass over a fetched parent that is not marked
    for deletion is the outcome of reconcileNormal combined with that of
    the status update of the deferred function (lines 189-202): a failed
    status update turns a pass that was fine into an error and is
    aggregated with the error of a pass that had failed; a panic stays a
    panic.  So the pass returns without error only if reconcileNormal and
    the status update both did. *)
Theorem status_update_error_is_aggregated
    (unmarshalDeployments : string -> error + list DeploymentTemplateSpec)
    (unmarshalServices : string -> error + list ServiceTemplateSpec)
    (Configration : PlatformAdminControllerConfiguration)
    (request : string * string) (platformAdmin : PlatformAdmin) (w w1 : World) :
  Get (T:=PlatformAdmin) request w = (Ok platformAdmin, w1) →
  om_DeletionTimestamp (pa_meta platformAdmin) = None →
  let run := Reconcile unmarshalDeployments unmarshalServices Configration
               request w in
  let body := reconcileNormal unmarshalDeployments unmarshalServices Configration
                platformAdmin (withStatusCell (pa_Status platformAdmin) w1) in
  ∃ evs err,
    trace (snd run) =
      evs ++ [event VStatusUpdate KPlatformAdmin (objectKey platformAdmin) err] ∧
    fst run =
      match fst body, err with
      | Panic msg, _ => Panic msg
      | Ok res, None => Ok res
      | Ok res, Some e => Err (ErrAggregate1 e)
      | Err reterr, None => Err reterr
      | Err reterr, Some e => Err (ErrAggregate reterr e)
      end.
Proof.
  intros Hget Hdel run body. subst run body.
  rewrite (Reconcile_fetched _ _ _ _ _ _ _ Hget), Hdel.
  unfold deferStatusUpdate.
  destruct (reconcileNormal _ _ _ _ _) as [r w2]. cbn [fst].
  unfold StatusUpdate.
  match goal with
  | |- context [apiCall ?v ?k ?key ?act ?w0] =>
      destruct (apiCall_cases v k key act w0) as [[e ->]|(a & c & _ & ->)]
  end.
  - exists (trace w2), (Some e). by destruct r.
  - exists (trace w2), None. destruct a. by destruct r.
Qed.

(** ** What a pass writes of the parents *)

Section ParentsTouched.

Context (request : string * string).

Lemma parentsTouched_refl s : parentsTouched request s s.
Proof.
  intros k. destruct (s !! k) as [p|] eqn:Hp; [|done].
  exists p. by split; [|split].
Qed.

Lemma parentsTouched_trans s1 s2 s3 :
  parentsTouched request s1 s2 → parentsTouched request s2 s3 →
  parentsTouched request s1 s3.
Proof.
  intros H12 H23 k. specialize (H12 k). specialize (H23 k).
  destruct (s1 !! k) as [p1|].
  - destruct H12 as (p2 & Hp2 & [Hs2 Hm2] & Hne2). rewrite Hp2 in H23.
    destruct H23 as (p3 & Hp3 & [Hs3 Hm3] & Hne3). exists p3.
    split; [done|]. split; [split; congruence|].
    intros Hne. rewrite (Hne3 Hne). by apply Hne2.
  - by rewrite H12 in H23.
Qed.

Lemma parentsTouched_insert s p p' :
  s !! request = Some p → sameParent p p' →
  parentsTouched request s (<[request := p']> s).
Proof.
  intros Hp Hsame k. destruct (decide (k = request)) as [->|Hne].
  - rewrite Hp, lookup_insert_eq. exists p'. by split; [|split].
  - rewrite lookup_insert_ne by done. destruct (s !! k) as [q|]; [|done].
    exists q. by split; [|split].
Qed.

End ParentsTouched.

Lemma sameParent_AddFinalizer finalizer (p : PlatformAdmin) status :
  sameParent p (withStatus status (setMeta (AddFinalizer finalizer (pa_meta p)) p)).
Proof.
  split; [done|]. cbn. unfold AddFinalizer.
  by destruct (decide (finalizer ∈ om_Finalizers (pa_meta p))).
Qed.

(** X21.  A pass neither creates nor deletes a parent, and of the stored
    parents it changes at most the one it was asked for, and of that one
    at most the finalizers (lines 254 and 265) and the status: the spec
    and the rest of the metadata are stored as they were, whatever calls
    fail and however the pass ends. *)
Theorem pass_writes_only_finalizers_and_status
    (unmarshalDeployments : string -> error + list DeploymentTemplateSpec)
    (unmarshalServices : string -> error + list ServiceTemplateSpec)
    (Configration : PlatformAdminControllerConfiguration)
    (request : string * string) (w : World) :
  wfStore (platformAdmins (cluster w)) →
  parentsTouched request (platformAdmins (cluster w))
    (platformAdmins (cluster (snd (Reconcile unmarshalDeployments
                                     unmarshalServices Configration request w)))).
Proof.
  intros Hwf.
  destruct (Get_cases (T:=PlatformAdmin) request w)
    as [[m Hg]|[[Hnone Hg]|(platformAdmin & Hsome & Hg)]].
  1,2: unfold Reconcile, bind, try; rewrite Hg; cbn; apply parentsTouched_refl.
  rewrite (Reconcile_fetched _ _ _ _ _ _ _ Hg).
  cbn [storeOf PlatformAdmin_Object] in Hsome.
  assert (objectKey platformAdmin = request) as Hkey by (by apply Hwf in Hsome).
  set (w1 := withStatusCell (pa_Status platformAdmin)
               (logged w (event VGet (kindOf PlatformAdmin) request None) (cluster w))).
  assert (platformAdmins (cluster w1) = platformAdmins (cluster w)) as Hw1 by done.
  destruct (om_DeletionTimestamp (pa_meta platformAdmin)) as [t|].
  - unfold reconcileDelete.
    destruct (desiredComponents _ _ _ _) as [err|desired]; unfold lift.
    { cbn. apply parentsTouched_refl. }
    unfold bind at 1, ret. unfold bind at 1.
    pose proof (tolerant_removeMemberships (keeps platformAdmins) ltac:(done)
                  platformAdmin desired ltac:(done) w1) as Hk.
    destruct (removeMemberships platformAdmin desired w1) as [[[]|e|msg] w2];
      cbn [snd] in Hk; unfold keeps in Hk.
    2,3: cbn [snd]; rewrite Hk, Hw1; apply parentsTouched_refl.
    unfold bind.
    match goal with
    | |- context [Update ?o ?w0] =>
        destruct (Update_cases o w0) as [[e ->]|(stored & Hst & ->)]
    end; cbn [snd cluster logged].
    { rewrite Hk, Hw1. apply parentsTouched_refl. }
    cbn [setStore storeOf PlatformAdmin_Object platformAdmins] in *.
    rewrite Hk, Hw1 in *.
    change (objectKey (setMeta _ platformAdmin)) with (objectKey platformAdmin) in *.
    rewrite Hkey in *. assert (stored = platformAdmin) as -> by congruence.
    apply (parentsTouched_insert request _ platformAdmin); [done|]. by split.
  - unfold deferStatusUpdate.
    destruct (reconcileNormal_phases (keeps platformAdmins) unmarshalDeployments
                unmarshalServices Configration platformAdmin w1)
      as (w2 & Hkeep & Hcases); try done.
    unfold keeps in Hkeep. rewrite Hw1 in Hkeep.
    assert (∃ r w3 p,
      reconcileNormal unmarshalDeployments unmarshalServices Configration
        platformAdmin w1 = (r, w3) ∧
      platformAdmins (cluster w3) !! request = Some p ∧
      sameParent platformAdmin p ∧
      parentsTouched request (platformAdmins (cluster w))
        (platformAdmins (cluster w3))) as (r & w3 & p & -> & Hp & Hsame & Htouched).
    { destruct Hcases as [(r & -> & _)|(-> & _)].
      - exists r, w2, platformAdmin. split; [done|]. rewrite Hkeep.
        split; [done|]. split; [by split|apply parentsTouched_refl].
      - unfold bind.
        destruct (Update_cases (prepared platformAdmin) w2)
          as [[e ->]|(stored & Hst & ->)].
        + eexists _, _, platformAdmin. split; [done|]. cbn [cluster logged].
          rewrite Hkeep. split; [done|]. split; [by split|apply parentsTouched_refl].
        + rewrite objectKey_prepared, Hkey in *.
          cbn [storeOf PlatformAdmin_Object] in Hst. rewrite Hkeep in Hst.
          assert (stored = platformAdmin) as -> by congruence.
          eexists _, _, _. split; [done|].
          cbn [cluster logged setStore PlatformAdmin_Object platformAdmins storeOf].
          rewrite Hkeep. split; [apply lookup_insert_eq|].
          split; [apply (sameParent_AddFinalizer PlatformAdminFinalizer)|].
          apply (parentsTouched_insert request _ platformAdmin); [done|].
          apply (sameParent_AddFinalizer PlatformAdminFinalizer). }
    unfold StatusUpdate.
    match goal with
    | |- context [apiCall ?v ?k ?key ?act ?w0] =>
        destruct (apiCall_cases v k key act w0) as [[e ->]|(a & c & Hact & ->)]
    end.
    { destruct r; exact Htouched. }
    change (objectKey (withStatus (statusCell w3) platformAdmin))
      with (objectKey platformAdmin) in Hact.
    rewrite Hkey, Hp in Hact. injection Hact as _ <-.
    eapply (parentsTouched_trans request); [exact Htouched|].
    destruct r; cbn [snd cluster logged setStore PlatformAdmin_Object platformAdmins];
      (apply (parentsTouched_insert request _ p); [done|by split]).
Qed.

(** ** The services of a pass of reconcileComponent that returns *)

Lemma bind_ok {A B} (m : M A) (f : A -> M B) w b w' :
  bind m f w = (Ok b, w') →
  ∃ a w1, m w = (Ok a, w1) ∧ f a w1 = (Ok b, w').
Proof.
  unfold bind. destruct (m w) as [[a|e|msg] w1]; [|done..]. eauto.
Qed.

Section Ownership.

Context (platformAdmin : PlatformAdmin).

Local Abbreviation ref := (ownerRefOf (pa_meta platformAdmin)).

Lemma ownedStill_upsert {T} `{ObjectLaws T} (o : T) :
  ownedStill ref o
    (setMeta (withOwnerReferences
                (upsertOwnerRef ref (om_OwnerReferences (metaOf o))) (metaOf o)) o).
Proof. intros _. rewrite metaOf_setMeta. apply upsertOwnerRef_elem. Qed.

(** CreateOrUpdate with the owner-reference mutation, when it returns:
    the object is stored under its key with a reference to the parent. *)
Lemma CreateOrUpdate_owned {T} `{ObjectLaws T} `{EqDecision T} (obj o : T) w w' :
  CreateOrUpdate obj (ownedBy platformAdmin) w = (Ok o, w') →
  wfStore (storeOf (T:=T) (cluster w)) →
  ∃ stored, storeOf (cluster w') !! objectKey obj = Some stored ∧
            ref ∈ om_OwnerReferences (metaOf stored).
Proof.
  unfold CreateOrUpdate, bind at 1, try.
  destruct (Get_cases (T:=T) (objectKey obj) w)
    as [[m ->]|[[Hnone ->]|(existing & Hsome & ->)]]; cbn [IsNotFound]; [done|..].
  - destruct (ownedBy platformAdmin obj) as [err|obj'] eqn:Hown; unfold lift; [done|].
    apply ownedBy_inr in Hown as ->. unfold bind, ret.
    match goal with
    | |- context [Create ?x ?w0] =>
        destruct (Create_cases x w0) as [[e ->]|(Hfree & ->)]; [done|]
    end.
    intros [= <- <-] Hwf. cbn [cluster logged]. rewrite storeOf_setStore.
    rewrite objectKey_owned, lookup_insert_eq. eexists. split; [done|].
    rewrite metaOf_setMeta. apply upsertOwnerRef_elem.
  - destruct (ownedBy platformAdmin existing) as [err|obj'] eqn:Hown; unfold lift;
      [done|].
    apply ownedBy_inr in Hown as ->. unfold bind, ret.
    destruct (decide _) as [E|E].
    + intros [= <- <-] Hwf. cbn [cluster logged]. exists existing.
      split; [done|]. rewrite E at 1. rewrite metaOf_setMeta.
      apply upsertOwnerRef_elem.
    + match goal with
      | |- context [Update ?x ?w0] =>
          destruct (Update_cases x w0) as [[e ->]|(stored & Hstored & ->)]; [done|]
      end.
      intros [= <- <-] Hwf. cbn [cluster logged]. rewrite storeOf_setStore.
      assert (objectKey existing = objectKey obj) as Hkey by (by apply Hwf in Hsome).
      rewrite objectKey_owned, Hkey, lookup_insert_eq. eexists. split; [done|].
      rewrite onUpdate_meta, metaOf_setMeta. apply upsertOwnerRef_elem.
Qed.

Lemma syncComponent_owned c spec readyComponent w ready' w' :
  comp_Service c = Some spec →
  syncComponent platformAdmin c readyComponent w = (Ok ready', w') →
  wfStore (services (cluster w)) →
  ∃ svc, services (cluster w') !! yasKey platformAdmin c = Some svc ∧
         ref ∈ om_OwnerReferences (svc_meta svc).
Proof.
  intros Hspec Hrun Hwf. unfold syncComponent in Hrun.
  apply bind_ok in Hrun as (o & w1 & Hsvc & Hrest).
  unfold handleService in Hsvc. rewrite Hspec in Hsvc.
  apply bind_ok in Hsvc as (svc & w0 & Hcou & Hret).
  injection Hret as _ <-.
  destruct (CreateOrUpdate_owned _ _ _ _ Hcou Hwf) as (stored & Hst & Hown).
  exists stored. split; [|exact Hown].
  match type of Hrest with
  | ?g w0 = _ =>
      assert (preserves (keeps services) g) as Hkeep
  end.
  { unfold handleYurtAppSet, joinYurtAppSet.
    repeat first [ apply tolerant_Get; done
                 | apply tolerant_Create; done
                 | apply tolerant_Patch; done
                 | preserves_step (keeps services) ]. }
  specialize (Hkeep w0). rewrite Hrest in Hkeep. unfold keeps in Hkeep.
  cbn [snd] in Hkeep. rewrite Hkeep. exact Hst.
Qed.

Lemma syncComponents_grows total cs readyComponent need :
  preserves (grows (ownedStill (T:=Service) ref))
            (syncComponents platformAdmin total cs readyComponent need).
Proof.
  apply (composed_syncComponents (grows (ownedStill (T:=Service) ref))).
  - intros w0 ev. apply grows_same; [apply _|done].
  - intros w0 ev s0. apply grows_same; [apply _|done].
  - intros w0 r0 t0. apply grows_same; [apply _|done].
  - intros c. apply handleService_grows; [apply _|].
    intros o. apply ownedStill_upsert.
Qed.

Lemma syncComponents_owned total cs readyComponent need w st w' :
  syncComponents platformAdmin total cs readyComponent need w = (Ok st, w') →
  wfStore (services (cluster w)) →
  ∀ c spec, c ∈ cs → comp_Service c = Some spec →
    ∃ svc, services (cluster w') !! yasKey platformAdmin c = Some svc ∧
           ref ∈ om_OwnerReferences (svc_meta svc).
Proof.
  revert readyComponent need w.
  induction cs as [|c cs IH]; intros readyComponent need w; cbn [syncComponents].
  { intros _ _ c spec Hc. by apply elem_of_nil in Hc. }
  intros Hrun Hwf. apply bind_ok in Hrun as (ready1 & w1 & Hstep & Hrest).
  unfold onAbort in Hstep.
  destruct (syncComponent platformAdmin c readyComponent w) as [r1 w0] eqn:Hsync.
  destruct r1 as [ready0|e|msg]; [|done..]. injection Hstep as -> ->.
  assert (grows (ownedStill (T:=Service) ref) w w1) as Hg1.
  { pose proof (syncComponents_grows total [c] readyComponent need w) as Hg.
    cbn [syncComponents] in Hg. unfold bind, onAbort in Hg.
    by rewrite Hsync in Hg. }
  destruct (Hg1 Hwf) as [Hwf1 _].
  intros c' spec [->|Hc']%elem_of_cons Hspec; [|by eapply IH].
  destruct (syncComponent_owned _ _ _ _ _ _ Hspec Hsync Hwf) as (svc & Hsvc & Hown).
  pose proof (syncComponents_grows total cs ready1
                ({[comp_Name c]} ∪ need) w1) as Hg2.
  rewrite Hrest in Hg2. destruct (Hg2 Hwf1) as [_ Hkept].
  destruct (Hkept _ _ Hsvc) as (svc' & Hsvc' & Hstill).
  exists svc'. split; [exact Hsvc'|by apply Hstill].
Qed.

End Ownership.

(** X22.  When reconcileComponent (lines 338-451) returns without error,
    whatever calls of the collection failed on the way, every desired
    component that has an exposure spec has a service stored under the
    component's name in the parent's namespace, and that service carries
    an owner reference to the parent: handleService has created or
    adopted it, and neither a later iteration nor the collection takes
    the reference away. *)
Theorem desired_exposures_are_owned
    (unmarshalDeployments : string -> error + list DeploymentTemplateSpec)
    (unmarshalServices : string -> error + list ServiceTemplateSpec)
    (Configration : PlatformAdminControllerConfiguration)
    (platformAdmin : PlatformAdmin) (desired : list Component)
    (w : World) (ready : bool) (w' : World) :
  wfStore (services (cluster w)) →
  desiredComponents unmarshalDeployments unmarshalServices Configration
    platformAdmin = inr desired →
  reconcileComponent unmarshalDeployments unmarshalServices Configration
    platformAdmin w = (Ok ready, w') →
  ∀ c spec, c ∈ desired → comp_Service c = Some spec →
    ∃ svc, services (cluster w') !! yasKey platformAdmin c = Some svc ∧
           ownerRefOf (pa_meta platformAdmin) ∈ om_OwnerReferences (svc_meta svc).
Proof.
  intros Hwf Hdes. unfold reconcileComponent. rewrite Hdes.
  unfold lift, bind at 1, ret. unfold bind at 1.
  destruct (syncComponents _ _ _ _ _ w) as [r1 w1] eqn:Hsync.
  pose proof (syncComponents_need platformAdmin (length desired) desired 0 ∅ w)
    as Hneed.
  destruct r1 as [[ready' need]|e|msg]; [|done..].
  specialize (Hneed _ _ Hsync). cbn [snd] in Hneed.
  rewrite union_empty_r_L in Hneed. subst need.
  pose proof (syncComponents_owned _ _ _ _ _ _ _ _ Hsync Hwf) as Hall.
  destruct (syncComponents_grows platformAdmin (length desired) desired 0 ∅ w Hwf)
    as [Hwf1 _].
  rewrite Hsync in Hwf1. cbn [snd] in Hwf1.
  unfold deferStatus, bind.
  destruct (collect_any (T:=Service) platformAdmin LabelService
              (componentNames desired) w1 Hwf1) as (s' & Hcl & _ & Hs').
  destruct (collect Service _ _ _ w1) as [[[]|e|msg] w2]; [|done..].
  cbn [snd] in Hcl.
  assert (keeps services w2
            (snd (collect YurtAppSet platformAdmin LabelDeployment
                    (componentNames desired) w2))) as Hk3
    by (by apply (tolerant_collect (keeps services))).
  destruct (collect YurtAppSet _ _ _ w2) as [[[]|e|msg] w3]; [|done..].
  cbn [snd] in Hk3. unfold keeps in Hk3. unfold ret.
  intros [= _ <-] c spec Hc Hspec. cbn [cluster withStatusCell].
  rewrite Hk3, Hcl. cbn [setStore Service_Object services].
  destruct (Hall c spec Hc Hspec) as (svc & Hsvc & Hown). exists svc.
  split; [|done].
  destruct (Hs' (yasKey platformAdmin c)) as [->|(obj & Hobj & _ & Hn & _)]; [done|].
  cbn [storeOf Service_Object] in Hobj.
  assert (objectKey obj = yasKey platformAdmin c) as Hkey by (by apply Hwf1 in Hobj).
  destruct Hn. unfold componentNames. rewrite elem_of_list_to_set.
  apply list_elem_of_fmap. exists c. split; [|done].
  unfold objectKey, yasKey in Hkey. by injection Hkey.
Qed.

(** ** The further properties at the sample inputs *)

Lemma removePool_leaves_no_entry_witness :
  removePool "hangzhou" [newPool "hangzhou"; newPool "hangzhou"; newPool "beijing"]
    = Some [newPool "beijing"] ∧
  countPool "hangzhou" [newPool "beijing"] = 0%nat ∧
  [newPool "beijing"]
    ≡ₚ otherPools "hangzhou"
         [newPool "hangzhou"; newPool "hangzhou"; newPool "beijing"].
Proof.
  assert (removePool "hangzhou"
            [newPool "hangzhou"; newPool "hangzhou"; newPool "beijing"]
          = Some [newPool "beijing"]) as Hrem by (vm_compute; reflexivity).
  split; [exact Hrem|].
  apply (removePool_leaves_no_entry "hangzhou" _ _ Hrem).
Defined.

Lemma trailing_duplicate_panics_witness :
  let w := startWorld duplicatedCluster [] in
  pool_Name (newPool "hangzhou") = "hangzhou" ∧
  removePool "hangzhou"
    ([] ++ newPool "hangzhou" :: [newPool "beijing"] ++ [newPool "hangzhou"]) = None ∧
  fst (Get (T:=YurtAppSet) (yasKey deletingParent coreComponent) w)
    = Ok duplicatedYurtAppSet ∧
  fst (removeMemberships deletingParent [coreComponent] w)
    = Panic "index out of range".
Proof.
  cbv zeta. split; [reflexivity|].
  destruct (trailing_duplicate_panics "hangzhou" [] [newPool "beijing"]
              (newPool "hangzhou") (newPool "hangzhou") eq_refl eq_refl)
    as [Hrem Hloop].
  split; [exact Hrem|]. split; [reflexivity|].
  rewrite (Hloop deletingParent coreComponent [] duplicatedYurtAppSet
             (startWorld duplicatedCluster [])
             (snd (Get (T:=YurtAppSet) (yasKey deletingParent coreComponent)
                     (startWorld duplicatedCluster []))));
    reflexivity.
Defined.

Lemma annotation_components_by_name_witness :
  decoded sampleUnmarshalDeployments mixedAnnotations "AdditionalDeployments"
    = inr [sampleWorkload] ∧
  decoded sampleUnmarshalServices mixedAnnotations "AdditionalServices"
    = inr [exposureA; exposureB] ∧
  ∃ components extra,
    annotationToComponent sampleUnmarshalDeployments sampleUnmarshalServices
      mixedAnnotations = inr components ∧
    comp_Name <$> components = ["extra-svc"] ++ extra ∧
    NoDup extra ∧
    (∀ name, name ∈ extra ↔ name ∈ ["a"; "b"] ∧ name ∉ ["extra-svc"]).
Proof.
  split; [vm_compute; reflexivity|]. split; [vm_compute; reflexivity|].
  destruct (annotation_components_by_name sampleUnmarshalDeployments
              sampleUnmarshalServices mixedAnnotations
              [sampleWorkload] [exposureA; exposureB])
    as (components & extra & Hres & Hnames & Hnd & Hextra & _).
  - vm_compute; reflexivity.
  - vm_compute; reflexivity.
  - exists components, extra. split; [exact Hres|]. split; [exact Hnames|].
    split; [exact Hnd|exact Hextra].
Defined.

Lemma workload_specs_alias_the_range_variable_witness :
  decoded pairUnmarshalDeployments twoWorkloads "AdditionalDeployments"
    = inr [workloadX; workloadY] ∧
  annotationToComponent pairUnmarshalDeployments sampleUnmarshalServices
    twoWorkloads =
    inr [ {| comp_Name := "x"; comp_Service := None;
             comp_Deployment := Some {| ds_raw := "replicas: 2" |} |};
          {| comp_Name := "y"; comp_Service := None;
             comp_Deployment := Some {| ds_raw := "replicas: 2" |} |} ] ∧
  ∀ c d,
    c ∈ [ {| comp_Name := "x"; comp_Service := None;
             comp_Deployment := Some {| ds_raw := "replicas: 2" |} |};
          {| comp_Name := "y"; comp_Service := None;
             comp_Deployment := Some {| ds_raw := "replicas: 2" |} |} ] →
    comp_Deployment c = Some d → d = {| ds_raw := "replicas: 2" |}.
Proof.
  split; [vm_compute; reflexivity|]. split; [vm_compute; reflexivity|].
  apply (workload_specs_alias_the_range_variable pairUnmarshalDeployments
           sampleUnmarshalServices twoWorkloads [workloadX; workloadY]);
    vm_compute; reflexivity.
Defined.

Lemma component_counters_add_up_witness :
  let run := reconcileComponent sampleUnmarshalDeployments sampleUnmarshalServices
               sampleConfiguration sampleParent
               (startWorld (clusterWith sampleParent) [Some "timeout"]) in
  desiredComponents sampleUnmarshalDeployments sampleUnmarshalServices
    sampleConfiguration sampleParent = inr [coreComponent] ∧
  Z.of_nat (length [coreComponent]) < 2^31 ∧
  fst run = Err (ErrInjected "timeout") ∧
  st_ReadyComponentNum (statusCell (snd run))
    + st_UnreadyComponentNum (statusCell (snd run)) = 1.
Proof.
  cbv zeta. split; [vm_compute; reflexivity|]. split; [reflexivity|].
  split; [vm_compute; reflexivity|].
  destruct (component_counters_add_up sampleUnmarshalDeployments
              sampleUnmarshalServices sampleConfiguration sampleParent
              [coreComponent]
              (startWorld (clusterWith sampleParent) [Some "timeout"]))
    as (_ & _ & Hsum & _).
  - vm_compute; reflexivity.
  - reflexivity.
  - exact Hsum.
Defined.

Lemma requeue_exactly_when_unready_witness :
  let first := reconcileNormal sampleUnmarshalDeployments sampleUnmarshalServices
                 sampleConfiguration sampleParent
                 (startWorld (clusterWith sampleParent) []) in
  let settled := reconcileNormal sampleUnmarshalDeployments sampleUnmarshalServices
                   sampleConfiguration sampleParent (startWorld readyCluster []) in
  fst first = Ok {| RequeueAfter := 10 * Second |} ∧
  st_UnreadyComponentNum (statusCell (snd first)) ≠ 0 ∧
  fst settled = Ok {| RequeueAfter := 0 |} ∧
  st_Ready (statusCell (snd settled)) = true ∧
  st_UnreadyComponentNum (statusCell (snd settled)) = 0.
Proof.
  cbv zeta.
  assert (fst (reconcileNormal sampleUnmarshalDeployments sampleUnmarshalServices
                 sampleConfiguration sampleParent
                 (startWorld (clusterWith sampleParent) []))
          = Ok {| RequeueAfter := 10 * Second |}) as H1 by (vm_compute; reflexivity).
  assert (fst (reconcileNormal sampleUnmarshalDeployments sampleUnmarshalServices
                 sampleConfiguration sampleParent (startWorld readyCluster []))
          = Ok {| RequeueAfter := 0 |}) as H2 by (vm_compute; reflexivity).
  split; [exact H1|]. split.
  - destruct (requeue_exactly_when_unready _ _ _ _ _ _ H1)
      as [(Hres & _)|(_ & Hun)]; [discriminate Hres|exact Hun].
  - split; [exact H2|].
    destruct (requeue_exactly_when_unready _ _ _ _ _ _ H2)
      as [(_ & Hready & Hzero)|(Hres & _)]; [|discriminate Hres].
    split; [exact Hready|exact Hzero].
Defined.

Lemma finalizer_stored_only_when_ready_witness :
  let w := startWorld (clusterWith sampleParent) [] in
  let first := reconcileNormal sampleUnmarshalDeployments sampleUnmarshalServices
                 sampleConfiguration sampleParent w in
  let settled := reconcileNormal sampleUnmarshalDeployments sampleUnmarshalServices
                   sampleConfiguration sampleParent (startWorld readyCluster []) in
  fst first ≠ Ok {| RequeueAfter := 0 |} ∧
  platformAdmins (cluster (snd first)) = platformAdmins (cluster w) ∧
  fst settled = Ok {| RequeueAfter := 0 |} ∧
  om_Finalizers ∘ pa_meta <$>
    platformAdmins (cluster (snd settled)) !! objectKey sampleParent
    = Some [PlatformAdminFinalizer].
Proof.
  cbv zeta.
  assert (fst (reconcileNormal sampleUnmarshalDeployments sampleUnmarshalServices
                 sampleConfiguration sampleParent
                 (startWorld (clusterWith sampleParent) []))
          ≠ Ok {| RequeueAfter := 0 |}) as H1 by (vm_compute; discriminate).
  assert (fst (reconcileNormal sampleUnmarshalDeployments sampleUnmarshalServices
                 sampleConfiguration sampleParent (startWorld readyCluster []))
          = Ok {| RequeueAfter := 0 |}) as H2 by (vm_compute; reflexivity).
  split; [exact H1|]. split.
  - destruct (finalizer_stored_only_when_ready sampleUnmarshalDeployments
                sampleUnmarshalServices sampleConfiguration sampleParent
                (startWorld (clusterWith sampleParent) [])) as [Hkeep _].
    apply Hkeep. exact H1.
  - split; [exact H2|].
    destruct (finalizer_stored_only_when_ready sampleUnmarshalDeployments
                sampleUnmarshalServices sampleConfiguration sampleParent
                (startWorld readyCluster [])) as [_ Hdone].
    destruct (Hdone H2) as (stored & _ & -> & _).
    rewrite lookup_insert_eq. reflexivity.
Defined.

Lemma ready_is_never_withdrawn_witness :
  let w := startWorld (clusterWith readyParent) [] in
  let run := sampleReconcile ("default", "edgex") w in
  fst (Get (T:=PlatformAdmin) ("default", "edgex") w) = Ok readyParent ∧
  om_DeletionTimestamp (pa_meta readyParent) = None ∧
  st_Ready (pa_Status readyParent) = true ∧
  fst run = Ok {| RequeueAfter := 10 * Second |} ∧
  st_Ready (statusCell (snd run)) = true ∧
  st_Initialized (statusCell (snd run)) = false.
Proof.
  cbv zeta. split; [reflexivity|]. split; [reflexivity|]. split; [reflexivity|].
  split; [vm_compute; reflexivity|].
  destruct (ready_is_never_withdrawn sampleUnmarshalDeployments
              sampleUnmarshalServices sampleConfiguration ("default", "edgex")
              readyParent (startWorld (clusterWith readyParent) []) _
              (surjective_pairing _) eq_refl) as [Hready Hinit].
  split; [apply Hready; reflexivity|]. rewrite Hinit. reflexivity.
Defined.

Lemma missing_parent_is_not_an_error_witness :
  let w := startWorld emptyCluster [] in
  let run := sampleReconcile ("default", "edgex") w in
  platformAdmins (cluster w) !! ("default", "edgex") = None ∧
  cluster (snd run) = cluster w ∧
  fst run = Ok {| RequeueAfter := 0 |}.
Proof.
  cbv zeta. split; [reflexivity|].
  destruct (missing_parent_is_not_an_error sampleUnmarshalDeployments
              sampleUnmarshalServices sampleConfiguration ("default", "edgex")
              (startWorld emptyCluster []) eq_refl)
    as (Hcl & _ & _ & _ & Hok).
  split; [exact Hcl|]. apply Hok. intros msg. discriminate.
Defined.

Lemma undecodable_annotation_blocks_the_pass_witness :
  let w := startWorld (clusterWith brokenParent) [] in
  let run := sampleReconcile ("default", "edgex") w in
  decoded sampleUnmarshalDeployments (om_Annotations (pa_meta brokenParent))
    "AdditionalDeployments" = inl (ErrDecode "invalid character") ∧
  fst (Get (T:=PlatformAdmin) ("default", "edgex") w) = Ok brokenParent ∧
  om_DeletionTimestamp (pa_meta brokenParent) ≠ None ∧
  fst run = Err (ErrDecode "invalid character") ∧
  cluster (snd run) = cluster w.
Proof.
  cbv zeta. split; [vm_compute; reflexivity|]. split; [reflexivity|].
  split; [discriminate|].
  destruct (undecodable_annotation_blocks_the_pass sampleUnmarshalDeployments
              sampleUnmarshalServices sampleConfiguration brokenParent
              (ErrDecode "invalid character")) as (_ & _ & _ & Hpass).
  - vm_compute; reflexivity.
  - destruct (Hpass ("default", "edgex") (startWorld (clusterWith brokenParent) [])
                _ (surjective_pairing _)) as (Herr & Hcl & _); [discriminate|].
    split; [exact Herr|exact Hcl].
Defined.

Lemma collection_touches_only_released_objects_witness :
  let w := startWorld settledCluster [None; Some "conflict"] in
  let w' := snd (collect Service sampleParent LabelService
                   (componentNames [coreComponent]) w) in
  wfStore (services (cluster w)) ∧
  cluster w' = setStore (services (cluster w')) (cluster w) ∧
  wfStore (services (cluster w')) ∧
  services (cluster w') !! objectKey staleService = Some staleService.
Proof.
  cbv zeta.
  assert (wfStore (services (cluster (startWorld settledCluster
                                        [None; Some "conflict"])))) as Hwf0
    by apply (wfStore_singleton staleService).
  split; [exact Hwf0|].
  destruct (collection_touches_only_released_objects (T:=Service) sampleParent
              LabelService (componentNames [coreComponent])
              (startWorld settledCluster [None; Some "conflict"]) Hwf0)
    as (Hcl & Hwf & _).
  split; [exact Hcl|]. split; [exact Hwf|]. vm_compute; reflexivity.
Defined.

Lemma desired_components_join_the_pool_witness :
  let w := startWorld (clusterWith sampleParent) [] in
  let run := reconcileComponent sampleUnmarshalDeployments sampleUnmarshalServices
               sampleConfiguration sampleParent w in
  wfStore (yurtAppSets (cluster w)) ∧
  desiredComponents sampleUnmarshalDeployments sampleUnmarshalServices
    sampleConfiguration sampleParent = inr [coreComponent] ∧
  fst run = Ok false ∧
  ∃ yas, yurtAppSets (cluster (snd run)) !! yasKey sampleParent coreComponent
           = Some yas ∧
         member "hangzhou" yas.
Proof.
  cbv zeta.
  assert (fst (reconcileComponent sampleUnmarshalDeployments sampleUnmarshalServices
                 sampleConfiguration sampleParent
                 (startWorld (clusterWith sampleParent) [])) = Ok false) as Hfst
    by (vm_compute; reflexivity).
  assert (wfStore (yurtAppSets (cluster (startWorld (clusterWith sampleParent) []))))
    as Hwf by apply (wfStore_empty (T:=YurtAppSet)).
  split; [exact Hwf|].
  split; [vm_compute; reflexivity|]. split; [exact Hfst|].
  pose proof (surjective_pairing
                (reconcileComponent sampleUnmarshalDeployments
                   sampleUnmarshalServices sampleConfiguration sampleParent
                   (startWorld (clusterWith sampleParent) []))) as Hrun.
  rewrite Hfst in Hrun.
  apply (desired_components_join_the_pool sampleUnmarshalDeployments
           sampleUnmarshalServices sampleConfiguration sampleParent
           [coreComponent] _ _ _ Hwf ltac:(vm_compute; reflexivity) Hrun).
  apply list_elem_of_singleton. reflexivity.
Defined.

Lemma existing_objects_are_adopted_as_they_are_witness :
  let w := startWorld editedCluster [] in
  let w' := snd (reconcileConfigmap sampleConfiguration sampleParent w) in
  wfStore (configMaps (cluster w)) ∧
  configMaps (cluster w) !! objectKey editedConfigMap = Some editedConfigMap ∧
  configMaps (cluster w') !! objectKey editedConfigMap
    = Some (setMeta (withOwnerReferences [ownerRefOf sampleParentMeta]
                       (cm_meta editedConfigMap)) editedConfigMap) ∧
  cm_Data (setMeta (withOwnerReferences [ownerRefOf sampleParentMeta]
                      (cm_meta editedConfigMap)) editedConfigMap)
    = {[ "EDGEX_SECURITY_SECRET_STORE" := "true" ]}.
Proof.
  cbv zeta.
  assert (wfStore (configMaps (cluster (startWorld editedCluster [])))) as Hwf
    by apply (wfStore_singleton editedConfigMap).
  assert (configMaps (cluster (snd (reconcileConfigmap sampleConfiguration
                                      sampleParent (startWorld editedCluster []))))
            !! objectKey editedConfigMap
          = Some (setMeta (withOwnerReferences [ownerRefOf sampleParentMeta]
                             (cm_meta editedConfigMap)) editedConfigMap)) as Hafter
    by (vm_compute; reflexivity).
  split; [exact Hwf|]. split; [reflexivity|]. split; [exact Hafter|].
  destruct (existing_objects_are_adopted_as_they_are sampleUnmarshalDeployments
              sampleUnmarshalServices sampleConfiguration sampleParent
              (startWorld editedCluster [])) as [Hcm _].
  assert (configMaps (cluster (startWorld editedCluster []))
            !! objectKey editedConfigMap = Some editedConfigMap) as Hbefore
    by reflexivity.
  destruct (Hcm Hwf _ _ _ Hbefore Hafter) as (Hdata & _).
  rewrite Hdata. reflexivity.
Defined.

Lemma component_counted_only_when_reported_witness :
  let w := startWorld readyCluster [] in
  let run := syncComponent sampleParent coreComponent 0 w in
  fst run = Ok 1 ∧
  ∃ yas,
    yurtAppSets (cluster w) !! yasKey sampleParent coreComponent = Some yas ∧
    is_Some (yst_PoolReplicas (yas_Status yas) !! "hangzhou") ∧
    yst_ReadyReplicas (yas_Status yas) = yst_Replicas (yas_Status yas) ∧
    yurtAppSets (cluster (snd run)) = yurtAppSets (cluster w).
Proof.
  cbv zeta.
  assert (fst (syncComponent sampleParent coreComponent 0
                 (startWorld readyCluster [])) = Ok 1) as Hfst
    by (vm_compute; reflexivity).
  split; [exact Hfst|].
  pose proof (surjective_pairing
                (syncComponent sampleParent coreComponent 0
                   (startWorld readyCluster []))) as Hrun.
  rewrite Hfst in Hrun.
  destruct (component_counted_only_when_reported _ _ _ _ _ _ Hrun) as [_ Hcounted].
  apply Hcounted. discriminate.
Defined.

Lemma created_workload_set_is_found_by_the_collection_witness :
  let w := startWorld (clusterWith sampleParent) [] in
  ∃ yas,
    fst (handleYurtAppSet sampleParent coreComponent w) = Ok yas ∧
    yurtAppSets (cluster w) !! yasKey sampleParent coreComponent = None ∧
    yas_Pools yas = [newPool "hangzhou"] ∧
    om_OwnerReferences (yas_meta yas) = [controllerRefOf sampleParentMeta] ∧
    selected "default" LabelPlatformAdminGenerate LabelDeployment yas.
Proof.
  cbv zeta.
  destruct (handleYurtAppSet sampleParent coreComponent
              (startWorld (clusterWith sampleParent) [])) as [r w'] eqn:Hrun.
  assert (isOk r) as Hok
    by (apply (f_equal fst) in Hrun; cbn [fst] in Hrun; rewrite <- Hrun;
        vm_compute; exact I).
  destruct r as [yas|e|msg]; [|destruct Hok..].
  destruct (created_workload_set_is_found_by_the_collection _ _ _ _ _ Hrun)
    as (Hfree & _ & Hpools & _ & _ & Howner & Hsel).
  exists yas. split; [reflexivity|]. split; [exact Hfree|].
  split; [exact Hpools|]. split; [exact Howner|exact Hsel].
Defined.

Lemma exposure_step_is_idempotent_witness :
  let w := startWorld (clusterWith sampleParent) [] in
  let w1 := snd (handleService sampleParent coreComponent w) in
  let w2 := snd (handleService sampleParent coreComponent w1) in
  faults w = [] ∧ wfStore (services (cluster w)) ∧
  comp_Service coreComponent = Some {| ss_raw := "port: 59880" |} ∧
  cluster w2 = cluster w1 ∧
  trace w2 = trace w1 ++ [event VGet KService (yasKey sampleParent coreComponent) None].
Proof.
  cbv zeta. split; [reflexivity|].
  assert (wfStore (services (cluster (startWorld (clusterWith sampleParent) []))))
    as Hwf by apply (wfStore_empty (T:=Service)).
  split; [exact Hwf|]. split; [reflexivity|].
  destruct (exposure_step_is_idempotent sampleParent coreComponent
              {| ss_raw := "port: 59880" |}
              (startWorld (clusterWith sampleParent) []) eq_refl
              Hwf eq_refl) as (Hcl & Htr & _).
  split; [exact Hcl|exact Htr].
Defined.

Lemma deletion_removes_the_pool_witness :
  let w := startWorld deletingCluster [] in
  let run := reconcileDelete sampleUnmarshalDeployments sampleUnmarshalServices
               sampleConfiguration deletingParent w in
  faults w = [] ∧ wfStore (yurtAppSets (cluster w)) ∧
  countPool "hangzhou" (yas_Pools sharedYurtAppSet) = 1%nat ∧
  fst run = Ok {| RequeueAfter := 0 |} ∧
  (∀ c yas, c ∈ [coreComponent] →
            yurtAppSets (cluster (snd run)) !! yasKey deletingParent c = Some yas →
            countPool "hangzhou" (yas_Pools yas) = 0%nat) ∧
  ∃ stored,
    platformAdmins (cluster (snd run)) !! objectKey deletingParent = Some stored ∧
    PlatformAdminFinalizer ∉ om_Finalizers (pa_meta stored).
Proof.
  cbv zeta.
  assert (wfStore (yurtAppSets (cluster (startWorld deletingCluster [])))) as Hwf
    by apply (wfStore_singleton sharedYurtAppSet).
  assert (fst (reconcileDelete sampleUnmarshalDeployments sampleUnmarshalServices
                 sampleConfiguration deletingParent (startWorld deletingCluster []))
          = Ok {| RequeueAfter := 0 |}) as Hfst by (vm_compute; reflexivity).
  split; [reflexivity|]. split; [exact Hwf|]. split; [vm_compute; reflexivity|].
  split; [exact Hfst|].
  pose proof (surjective_pairing
                (reconcileDelete sampleUnmarshalDeployments sampleUnmarshalServices
                   sampleConfiguration deletingParent
                   (startWorld deletingCluster []))) as Hrun.
  rewrite Hfst in Hrun.
  apply (deletion_removes_the_pool sampleUnmarshalDeployments
           sampleUnmarshalServices sampleConfiguration deletingParent
           [coreComponent] (startWorld deletingCluster []) _ _ eq_refl Hwf
           ltac:(vm_compute; reflexivity) Hrun).
Defined.

Lemma status_update_error_is_aggregated_witness :
  let w := startWorld (clusterWith sampleParent)
             (replicate 10 None ++ [Some "conflict"]) in
  let w1 := snd (Get (T:=PlatformAdmin) ("default", "edgex") w) in
  let run := sampleReconcile ("default", "edgex") w in
  let body := reconcileNormal sampleUnmarshalDeployments sampleUnmarshalServices
                sampleConfiguration sampleParent
                (withStatusCell (pa_Status sampleParent) w1) in
  fst (Get (T:=PlatformAdmin) ("default", "edgex") w) = Ok sampleParent ∧
  om_DeletionTimestamp (pa_meta sampleParent) = None ∧
  fst body = Ok {| RequeueAfter := 10 * Second |} ∧
  fst run = Err (ErrAggregate1 (ErrInjected "conflict")) ∧
  ∃ evs err,
    trace (snd run) =
      evs ++ [event VStatusUpdate KPlatformAdmin (objectKey sampleParent) err] ∧
    fst run =
      match fst body, err with
      | Panic msg, _ => Panic msg
      | Ok res, None => Ok res
      | Ok res, Some e => Err (ErrAggregate1 e)
      | Err reterr, None => Err reterr
      | Err reterr, Some e => Err (ErrAggregate reterr e)
      end.
Proof.
  cbv zeta. split; [reflexivity|]. split; [reflexivity|].
  split; [vm_compute; reflexivity|]. split; [vm_compute; reflexivity|].
  apply (status_update_error_is_aggregated sampleUnmarshalDeployments
           sampleUnmarshalServices sampleConfiguration ("default", "edgex")
           sampleParent
           (startWorld (clusterWith sampleParent)
              (replicate 10 None ++ [Some "conflict"])) _
           (surjective_pairing _) eq_refl).
Defined.

Lemma pass_writes_only_finalizers_and_status_witness :
  let w := startWorld readyCluster [] in
  wfStore (platformAdmins (cluster w)) ∧
  parentsTouched ("default", "edgex") (platformAdmins (cluster w))
    (platformAdmins (cluster (snd (sampleReconcile ("default", "edgex") w)))).
Proof.
  cbv zeta.
  assert (wfStore (platformAdmins (cluster (startWorld readyCluster []))))
    as Hwf by apply (wfStore_singleton sampleParent).
  split; [exact Hwf|].
  apply (pass_writes_only_finalizers_and_status sampleUnmarshalDeployments
           sampleUnmarshalServices sampleConfiguration ("default", "edgex")
           (startWorld readyCluster []) Hwf).
Defined.

Lemma desired_exposures_are_owned_witness :
  let w := startWorld (clusterWith sampleParent) [] in
  let run := reconcileComponent sampleUnmarshalDeployments sampleUnmarshalServices
               sampleConfiguration sampleParent w in
  wfStore (services (cluster w)) ∧
  desiredComponents sampleUnmarshalDeployments sampleUnmarshalServices
    sampleConfiguration sampleParent = inr [coreComponent] ∧
  fst run = Ok false ∧
  ∃ svc, services (cluster (snd run)) !! yasKey sampleParent coreComponent
           = Some svc ∧
         ownerRefOf (pa_meta sampleParent) ∈ om_OwnerReferences (svc_meta svc).
Proof.
  cbv zeta.
  assert (fst (reconcileComponent sampleUnmarshalDeployments sampleUnmarshalServices
                 sampleConfiguration sampleParent
                 (startWorld (clusterWith sampleParent) [])) = Ok false) as Hfst
    by (vm_compute; reflexivity).
  assert (wfStore (services (cluster (startWorld (clusterWith sampleParent) []))))
    as Hwf by apply (wfStore_empty (T:=Service)).
  split; [exact Hwf|].
  split; [vm_compute; reflexivity|]. split; [exact Hfst|].
  pose proof (surjective_pairing
                (reconcileComponent sampleUnmarshalDeployments
                   sampleUnmarshalServices sampleConfiguration sampleParent
                   (startWorld (clusterWith sampleParent) []))) as Hrun.
  rewrite Hfst in Hrun.
  apply (desired_exposures_are_owned sampleUnmarshalDeployments
           sampleUnmarshalServices sampleConfiguration sampleParent
           [coreComponent] _ _ _ Hwf ltac:(vm_compute; reflexivity) Hrun
           coreComponent {| ss_raw := "port: 59880" |}).
  - apply list_elem_of_singleton. reflexivity.
  - reflexivity.
Defined.
